(** * Robots: flocking simulation (simulation.js)

    A shallow embedding of the steering core of [simulation.js]: the
    [Robot] methods [separate], [cohere], [align], [seek],
    [avoidObstacles] and [update], the population and lifecycle functions
    [initializeRobots], [startSimulation], [stopSimulation], [animate],
    the goal picker [onMouseClick] and the population button handler.

    JavaScript numbers are IEEE 754 binary64 values.  The embedding is
    written over an interface [Number] of the arithmetic the source
    uses; [Float64] is the arithmetic the program runs on (Rocq's
    primitive binary64 floats, so every definition evaluates).  The real
    numbers enter only as the values of binary64 numbers, to state how
    far a rounded result is from the exact one. *)

From Stdlib Require Import Floats ZArith QArith Reals List Bool Lia Lra.
Import ListNotations.

Close Scope Q_scope.
Close Scope R_scope.
Open Scope nat_scope.

Set Implicit Arguments.

(** ** Numbers *)

(** The operations on JavaScript numbers that the source uses. *)
Class Number : Type := {
  num : Type;
  ofZ : Z -> num;                  (* an integer literal or counter *)
  nadd : num -> num -> num;        (* a + b *)
  nsub : num -> num -> num;        (* a - b *)
  nmul : num -> num -> num;        (* a * b *)
  ndiv : num -> num -> num;        (* a / b *)
  nneg : num -> num;               (* -a *)
  nsqrt : num -> num;              (* Math.sqrt(a) *)
  nltb : num -> num -> bool;       (* a < b *)
  truthy : num -> bool;            (* ToBoolean(a), as in a || 1 *)
  Math_max : num -> num -> num;    (* Math.max(a, b) *)
  Math_min : num -> num -> num     (* Math.min(a, b) *)
}.

Declare Scope num_scope.
Delimit Scope num_scope with num.
Notation "a + b" := (nadd a b) : num_scope.
Notation "a - b" := (nsub a b) : num_scope.
Notation "a * b" := (nmul a b) : num_scope.
Notation "a / b" := (ndiv a b) : num_scope.
Notation "- a" := (nneg a) : num_scope.
Notation "a <? b" := (nltb a b) : num_scope.
(** [a > b] is [b < a], also on NaN. *)
Notation "a >? b" := (nltb b a) : num_scope.

(** A decimal literal of the source, [n/d] for the decimal fraction
    written there.  On binary64 the correctly rounded quotient of two
    small integers is the double nearest to the decimal, which is the
    value the JavaScript literal denotes. *)
Definition lit {N : Number} (q : Q) : num :=
  ndiv (ofZ (Qnum q)) (ofZ (Zpos (Qden q))).

(** [a || 1] on numbers. *)
Definition or_one {N : Number} (a : num) : num :=
  if truthy a then a else lit 1.

(** The arithmetic the program runs on: IEEE 754 binary64. *)
Module Float64.

Definition ofZ (z : Z) : float :=
  match z with
  | Z0 => PrimFloat.zero
  | Zpos _ => PrimFloat.of_uint63 (Uint63.of_Z z)
  | Zneg p => PrimFloat.opp (PrimFloat.of_uint63 (Uint63.of_Z (Zpos p)))
  end.

(** ToBoolean of a number: false exactly on +0, -0 and NaN. *)
Definition truthy (a : float) : bool :=
  negb (PrimFloat.is_nan a || PrimFloat.eqb a PrimFloat.zero).

(** Math.max: NaN if either argument is NaN, and +0 is larger than -0. *)
Definition Math_max (a b : float) : float :=
  if PrimFloat.is_nan a || PrimFloat.is_nan b then PrimFloat.nan
  else if PrimFloat.ltb a b then b
  else if PrimFloat.ltb b a then a
  else if PrimFloat.get_sign a then b else a.

(** Math.min: NaN if either argument is NaN, and -0 is smaller than +0. *)
Definition Math_min (a b : float) : float :=
  if PrimFloat.is_nan a || PrimFloat.is_nan b then PrimFloat.nan
  else if PrimFloat.ltb a b then a
  else if PrimFloat.ltb b a then b
  else if PrimFloat.get_sign a then a else b.

Definition number : Number :=
  @Build_Number float ofZ PrimFloat.add PrimFloat.sub PrimFloat.mul
    PrimFloat.div PrimFloat.opp PrimFloat.sqrt PrimFloat.ltb truthy
    Math_max Math_min.

End Float64.

(** ** THREE.Vector3

    The vector class comes from the three.js library, which the page
    loads and the repository does not contain.  The methods are modelled
    as three.js defines them: [divideScalar(s)] is [multiplyScalar(1 / s)],
    [normalize()] is [divideScalar(length() || 1)], [length()] is the
    square root of [x*x + y*y + z*z] summed left to right.  A method that
    mutates its receiver and returns it is a function to the new value. *)
Module Vector3.
Section Methods.

Context {N : Number}.
Local Open Scope num_scope.

Record t : Type := mk { x : num; y : num; z : num }.

(** [new THREE.Vector3()] *)
Definition new : t := mk (lit 0) (lit 0) (lit 0).

Definition add (a v : t) : t := mk (x a + x v) (y a + y v) (z a + z v).

Definition sub (a v : t) : t := mk (x a - x v) (y a - y v) (z a - z v).

(** [new THREE.Vector3().subVectors(a, b)] *)
Definition subVectors (a b : t) : t := mk (x a - x b) (y a - y b) (z a - z b).

Definition multiplyScalar (a : t) (s : num) : t :=
  mk (x a * s) (y a * s) (z a * s).

Definition divideScalar (a : t) (s : num) : t :=
  multiplyScalar a (lit 1 / s).

Definition length (a : t) : num :=
  nsqrt (x a * x a + y a * y a + z a * z a).

Definition normalize (a : t) : t := divideScalar a (or_one (length a)).

Definition distanceTo (a v : t) : num :=
  let dx := x a - x v in
  let dy := y a - y v in
  let dz := z a - z v in
  nsqrt (dx * dx + dy * dy + dz * dz).

End Methods.
End Vector3.

(** ** The simulation *)

(** [for (const a of l) body], with the index of [a] in [l] at hand: the
    index stands for the identity of the object in the array. *)
Fixpoint forOf_from {A S : Type} (j : nat) (l : list A)
    (body : nat -> A -> S -> S) (s : S) : S :=
  match l with
  | [] => s
  | a :: l' => forOf_from (Datatypes.S j) l' body (body j a s)
  end.

Definition forOf {A S : Type} (l : list A) (body : nat -> A -> S -> S)
    (s : S) : S :=
  forOf_from 0 l body s.

(** [l[i] = a]; an index outside the array leaves it as it is (the source
    never writes outside). *)
Fixpoint setAt {A : Type} (i : nat) (a : A) (l : list A) : list A :=
  match l, i with
  | [], _ => []
  | _ :: l', O => a :: l'
  | b :: l', Datatypes.S i' => b :: setAt i' a l'
  end.

Section Simulation.

Context {N : Number}.
Local Open Scope num_scope.

(** [Math.random]: the values the generator is going to return, and how
    many of them have been taken. *)
Record Random : Type := { source : nat -> num; taken : nat }.

Definition Math_random (g : Random) : num * Random :=
  (source g (taken g), {| source := source g; taken := Datatypes.S (taken g) |}).

(** [const floorSize = 50] *)
Definition floorSize : num := lit 50.

(** An obstacle mesh; steering reads its position only. *)
Record Obstacle : Type := { obstacle_position : Vector3.t }.

(** The fields of a [Robot] that steering reads or writes, the hue drawn
    for its colour, and the intensity of the light of its trail.  The
    meshes and the trail particles are scene state. *)
Record Robot : Type := {
  position : Vector3.t;
  velocity : Vector3.t;
  maxSpeed : num;
  maxForce : num;
  goalWeight : num;
  hue : num;
  light_intensity : num
}.

(** [new Robot()] *)
Definition Robot_new (g : Random) : Robot * Random :=
  let (r1, g) := Math_random g in
  let (r2, g) := Math_random g in
  let position :=
    Vector3.mk ((r1 - lit 0.5) * (floorSize - lit 4))
               (lit 0.4)
               ((r2 - lit 0.5) * (floorSize - lit 4)) in
  let (r3, g) := Math_random g in
  let (r4, g) := Math_random g in
  let velocity :=
    Vector3.mk ((r3 - lit 0.5) * lit 0.1) (lit 0) ((r4 - lit 0.5) * lit 0.1) in
  let (r5, g) := Math_random g in
  ({| position := position;
      velocity := velocity;
      maxSpeed := lit 0.2;
      maxForce := lit 0.03;
      goalWeight := lit 0.5;
      hue := r5;
      light_intensity := lit 1 |}, g).

(** [seek(target)] *)
Definition seek (this : Robot) (target : Vector3.t) : Vector3.t :=
  let desired := Vector3.subVectors target (position this) in
  let desired := Vector3.multiplyScalar (Vector3.normalize desired) (maxSpeed this) in
  let steer := Vector3.subVectors desired (velocity this) in
  if Vector3.length steer >? maxForce this
  then Vector3.multiplyScalar (Vector3.normalize steer) (maxForce this)
  else steer.

(** [separate(robots)]; [self] is the index of [this] in [robots]. *)
Definition separate (self : nat) (this : Robot) (robots : list Robot) : Vector3.t :=
  let desiredSeparation := lit 3.0 in
  let '(steer, count) :=
    forOf robots (fun j other '(steer, count) =>
      if negb (Nat.eqb j self) then
        let d := Vector3.distanceTo (position this) (position other) in
        if d <? desiredSeparation then
          let diff := Vector3.subVectors (position this) (position other) in
          let diff := Vector3.normalize diff in
          let diff := Vector3.divideScalar diff d in
          (Vector3.add steer diff, Datatypes.S count)
        else (steer, count)
      else (steer, count)) (Vector3.new, O) in
  if Nat.ltb 0 count then
    let steer := Vector3.divideScalar steer (ofZ (Z.of_nat count)) in
    if Vector3.length steer >? lit 0 then
      let steer :=
        Vector3.sub (Vector3.multiplyScalar (Vector3.normalize steer) (maxSpeed this))
                    (velocity this) in
      if Vector3.length steer >? maxForce this
      then Vector3.multiplyScalar (Vector3.normalize steer) (maxForce this)
      else steer
    else steer
  else steer.

(** [cohere(robots)] *)
Definition cohere (self : nat) (this : Robot) (robots : list Robot) : Vector3.t :=
  let neighborDist := lit 8.0 in
  let '(sum, count) :=
    forOf robots (fun j other '(sum, count) =>
      if negb (Nat.eqb j self) then
        let d := Vector3.distanceTo (position this) (position other) in
        if d <? neighborDist then
          (Vector3.add sum (position other), Datatypes.S count)
        else (sum, count)
      else (sum, count)) (Vector3.new, O) in
  if Nat.ltb 0 count then
    let sum := Vector3.divideScalar sum (ofZ (Z.of_nat count)) in
    seek this sum
  else Vector3.new.

(** [align(robots)] *)
Definition align (self : nat) (this : Robot) (robots : list Robot) : Vector3.t :=
  let neighborDist := lit 8.0 in
  let '(sum, count) :=
    forOf robots (fun j other '(sum, count) =>
      if negb (Nat.eqb j self) then
        let d := Vector3.distanceTo (position this) (position other) in
        if d <? neighborDist then
          (Vector3.add sum (velocity other), Datatypes.S count)
        else (sum, count)
      else (sum, count)) (Vector3.new, O) in
  if Nat.ltb 0 count then
    let sum := Vector3.divideScalar sum (ofZ (Z.of_nat count)) in
    let sum := Vector3.multiplyScalar (Vector3.normalize sum) (maxSpeed this) in
    let steer := Vector3.subVectors sum (velocity this) in
    if Vector3.length steer >? maxForce this
    then Vector3.multiplyScalar (Vector3.normalize steer) (maxForce this)
    else steer
  else Vector3.new.

(** [avoidObstacles()], reading the global [obstacles]. *)
Definition avoidObstacles (this : Robot) (obstacles : list Obstacle) : Vector3.t :=
  let avoidRadius := lit 4.0 in
  let '(steer, count) :=
    forOf obstacles (fun _ obstacle '(steer, count) =>
      let d := Vector3.distanceTo (position this) (obstacle_position obstacle) in
      if d <? avoidRadius then
        let diff := Vector3.subVectors (position this) (obstacle_position obstacle) in
        let diff := Vector3.normalize diff in
        let diff := Vector3.divideScalar diff d in
        (Vector3.add steer diff, Datatypes.S count)
      else (steer, count)) (Vector3.new, O) in
  if Nat.ltb 0 count then
    let steer := Vector3.divideScalar steer (ofZ (Z.of_nat count)) in
    if Vector3.length steer >? lit 0 then
      let steer :=
        Vector3.sub (Vector3.multiplyScalar (Vector3.normalize steer) (maxSpeed this))
                    (velocity this) in
      if Vector3.length steer >? maxForce this
      then Vector3.multiplyScalar (Vector3.normalize steer) (maxForce this)
      else steer
    else steer
  else steer.

(** Assignments to the two fields that [update] mutates. *)
Definition with_velocity (this : Robot) (v : Vector3.t) : Robot :=
  {| position := position this; velocity := v; maxSpeed := maxSpeed this;
     maxForce := maxForce this; goalWeight := goalWeight this;
     hue := hue this; light_intensity := light_intensity this |}.

Definition with_position (this : Robot) (p : Vector3.t) : Robot :=
  {| position := p; velocity := velocity this; maxSpeed := maxSpeed this;
     maxForce := maxForce this; goalWeight := goalWeight this;
     hue := hue this; light_intensity := light_intensity this |}.

(** [ParticleTrail.update(deltaTime)]: the part that draws a random
    number, the flicker of the light of the trail. *)
Definition ParticleTrail_update (this : Robot) (g : Random) : Robot * Random :=
  let (r, g) := Math_random g in
  ({| position := position this; velocity := velocity this;
      maxSpeed := maxSpeed this; maxForce := maxForce this;
      goalWeight := goalWeight this; hue := hue this;
      light_intensity := lit 0.5 + r * lit 0.5 |}, g).

(** [update(robots)] on the robot [robots[self]], reading the globals
    [goalPosition] and [obstacles].  The robot is mutated in place: the
    result is the array with the new state in its slot.  The copy of the
    position to the mesh, the rotation of the mesh and of the wheels are
    scene state and are left out. *)
Definition update (goalPosition : Vector3.t) (obstacles : list Obstacle)
    (self : nat) (robots : list Robot) (g : Random) : list Robot * Random :=
  match nth_error robots self with
  | None => (robots, g)
  | Some this =>
    let separation := separate self this robots in
    let cohesion := cohere self this robots in
    let alignment := align self this robots in
    let avoidance := avoidObstacles this obstacles in
    let goalSeek := Vector3.multiplyScalar (seek this goalPosition) (goalWeight this) in
    (* Apply force *)
    let this := with_velocity this
      (Vector3.add (velocity this) (Vector3.multiplyScalar separation (lit 1.5))) in
    let this := with_velocity this
      (Vector3.add (velocity this) (Vector3.multiplyScalar cohesion (lit 0.5))) in
    let this := with_velocity this
      (Vector3.add (velocity this) (Vector3.multiplyScalar alignment (lit 0.5))) in
    let this := with_velocity this
      (Vector3.add (velocity this) (Vector3.multiplyScalar avoidance (lit 2.0))) in
    let this := with_velocity this (Vector3.add (velocity this) goalSeek) in
    (* Limit velocity *)
    let this :=
      if Vector3.length (velocity this) >? maxSpeed this
      then with_velocity this
             (Vector3.multiplyScalar (Vector3.normalize (velocity this)) (maxSpeed this))
      else this in
    (* Update position *)
    let this := with_position this (Vector3.add (position this) (velocity this)) in
    (* Keep within bounds *)
    let halfFloor := floorSize / lit 2 in
    let this := with_position this
      (Vector3.mk
         (Math_max (- halfFloor + lit 2)
                   (Math_min (halfFloor - lit 2) (Vector3.x (position this))))
         (Vector3.y (position this))
         (Vector3.z (position this))) in
    let this := with_position this
      (Vector3.mk
         (Vector3.x (position this))
         (Vector3.y (position this))
         (Math_max (- halfFloor + lit 2)
                   (Math_min (halfFloor - lit 2) (Vector3.z (position this))))) in
    let this := with_position this
      (Vector3.mk (Vector3.x (position this)) (lit 0.4) (Vector3.z (position this))) in
    (* Update particle trail *)
    let (this, g) := ParticleTrail_update this g in
    (setAt self this robots, g)
  end.

(** The globals of the script, and what the browser holds for it: the
    frame callback that [requestAnimationFrame] registered, if any. *)
Record State : Type := {
  goalPosition : Vector3.t;
  goalMarker_visible : bool;
  obstacles : list Obstacle;
  robots : list Robot;
  animationId : option nat;
  isRunning : bool;
  lastTime : option num;
  random : Random;
  frame_pending : option nat;
  frame_next : nat
}.

(** [for (const robot of robots) robot.update(robots)], from slot [i] on
    for [n] slots. *)
Fixpoint update_from (goal : Vector3.t) (obs : list Obstacle) (i n : nat)
    (rs : list Robot) (g : Random) : list Robot * Random :=
  match n with
  | O => (rs, g)
  | Datatypes.S n' =>
    let (rs, g) := update goal obs i rs g in
    update_from goal obs (Datatypes.S i) n' rs g
  end.

Definition update_robots (goal : Vector3.t) (obs : list Obstacle)
    (rs : list Robot) (g : Random) : list Robot * Random :=
  update_from goal obs 0 (List.length rs) rs g.

(** [initializeRobots(count)]: the loop [for (i = 0; i < count; i++)]
    runs [count] times, and not at all for a count below one. *)
Fixpoint push_robots (n : nat) (rs : list Robot) (g : Random) : list Robot * Random :=
  match n with
  | O => (rs, g)
  | Datatypes.S n' =>
    let (r, g) := Robot_new g in
    push_robots n' (rs ++ [r]) g
  end.

Definition initializeRobots (count : Z) (st : State) : State :=
  let (rs, g) := push_robots (Z.to_nat count) [] (random st) in
  {| goalPosition := goalPosition st;
     goalMarker_visible := goalMarker_visible st;
     obstacles := obstacles st;
     robots := rs;
     animationId := animationId st;
     isRunning := isRunning st;
     lastTime := lastTime st;
     random := g;
     frame_pending := frame_pending st;
     frame_next := frame_next st |}.

(** [animate(currentTime)]; [currentTime] is [None] for [undefined], in
    the direct call of [startSimulation].  [deltaTime] is computed and
    never used. *)
Definition animate (currentTime : option num) (st : State) : State :=
  if negb (isRunning st) then st
  else
    let id := frame_next st in
    let (rs, g) := update_robots (goalPosition st) (obstacles st) (robots st) (random st) in
    {| goalPosition := goalPosition st;
       goalMarker_visible := goalMarker_visible st;
       obstacles := obstacles st;
       robots := rs;
       animationId := Some id;
       isRunning := isRunning st;
       lastTime := currentTime;
       random := g;
       frame_pending := Some id;
       frame_next := Datatypes.S id |}.

(** [startSimulation()] *)
Definition startSimulation (st : State) : State :=
  if negb (isRunning st) then
    animate None
      {| goalPosition := goalPosition st;
         goalMarker_visible := goalMarker_visible st;
         obstacles := obstacles st;
         robots := robots st;
         animationId := animationId st;
         isRunning := true;
         lastTime := lastTime st;
         random := random st;
         frame_pending := frame_pending st;
         frame_next := frame_next st |}
  else st.

(** [cancelAnimationFrame(id)] *)
Definition cancelAnimationFrame (id : nat) (pending : option nat) : option nat :=
  match pending with
  | Some p => if Nat.eqb p id then None else pending
  | None => None
  end.

(** [stopSimulation()] *)
Definition stopSimulation (st : State) : State :=
  if isRunning st then
    {| goalPosition := goalPosition st;
       goalMarker_visible := goalMarker_visible st;
       obstacles := obstacles st;
       robots := robots st;
       animationId := animationId st;
       isRunning := false;
       lastTime := lastTime st;
       random := random st;
       frame_pending :=
         match animationId st with
         | Some id =>
           if Nat.eqb id 0 then frame_pending st
           else cancelAnimationFrame id (frame_pending st)
         | None => frame_pending st
         end;
       frame_next := frame_next st |}
  else st.

(** [onMouseClick(event)]; [intersects] are the points where the ray of
    the click meets the floor. *)
Definition onMouseClick (intersects : list Vector3.t) (st : State) : State :=
  match intersects with
  | point :: _ =>
    {| goalPosition := Vector3.mk (Vector3.x point) (lit 0.4) (Vector3.z point);
       goalMarker_visible := true;
       obstacles := obstacles st;
       robots := robots st;
       animationId := animationId st;
       isRunning := isRunning st;
       lastTime := lastTime st;
       random := random st;
       frame_pending := frame_pending st;
       frame_next := frame_next st |}
  | [] => st
  end.

(** The click handler of [addRobotBtn]; [count] is the result of
    [parseInt], [None] for NaN. *)
Definition addRobotBtn_click (count : option Z) (st : State) : State :=
  match count with
  | Some count =>
    if (3 <=? count)%Z && (count <=? 7)%Z then
      let st := initializeRobots count st in
      if isRunning st then startSimulation (stopSimulation st) else st
    else st
  | None => st
  end.

(** The browser runs the pending frame callback at time [t]. *)
Definition frame (t : num) (st : State) : State :=
  match frame_pending st with
  | Some _ =>
    animate (Some t)
      {| goalPosition := goalPosition st;
         goalMarker_visible := goalMarker_visible st;
         obstacles := obstacles st;
         robots := robots st;
         animationId := animationId st;
         isRunning := isRunning st;
         lastTime := lastTime st;
         random := random st;
         frame_pending := None;
         frame_next := frame_next st |}
  | None => st
  end.

(** What happens to the page: frames and user actions. *)
Inductive Event : Type :=
| Frame (t : num)
| StartClick
| StopClick
| AddRobotClick (count : option Z)
| MouseClick (intersects : list Vector3.t).

Definition handle (e : Event) (st : State) : State :=
  match e with
  | Frame t => frame t st
  | StartClick => startSimulation st
  | StopClick => stopSimulation st
  | AddRobotClick count => addRobotBtn_click count st
  | MouseClick intersects => onMouseClick intersects st
  end.

Definition run (es : list Event) (st : State) : State :=
  fold_left (fun st e => handle e st) es st.

(** The state when the script has run to its end, for the obstacles [obs]
    it placed and the generator state [g] it left:
    [goalPosition = new THREE.Vector3(0, 0, 0)], [robots = []],
    [animationId = null], [isRunning = false], [lastTime = 0], then
    [initializeRobots(3)]. *)
Definition initial (obs : list Obstacle) (g : Random) : State :=
  initializeRobots 3
    {| goalPosition := Vector3.mk (lit 0) (lit 0) (lit 0);
       goalMarker_visible := false;
       obstacles := obs;
       robots := [];
       animationId := None;
       isRunning := false;
       lastTime := Some (lit 0);
       random := g;
       frame_pending := None;
       frame_next := 1 |}.

End Simulation.

(** ** The specification's reading of one update and of one step

    These definitions follow the words of the specification; the theorems
    compare them with the functions of the source above. *)
Section Specification.

Context {N : Number}.
Local Open Scope num_scope.

(** [clampMagnitude(v, max)]: [v] rescaled to [max] when its magnitude
    exceeds [max], else [v]. *)
Definition clampMagnitude (v : Vector3.t) (max : num) : Vector3.t :=
  if Vector3.length v >? max
  then Vector3.multiplyScalar (Vector3.normalize v) max
  else v.

(** [velocity + separation*1.5 + cohesion*0.5 + alignment*0.5 +
    avoidance*2.0 + goalSeek], clamped to [maxSpeed]. *)
Definition spec_velocity (this : Robot)
    (separation cohesion alignment avoidance goalSeek : Vector3.t) : Vector3.t :=
  clampMagnitude
    (Vector3.add
      (Vector3.add
        (Vector3.add
          (Vector3.add
            (Vector3.add (velocity this)
               (Vector3.multiplyScalar separation (lit 1.5)))
            (Vector3.multiplyScalar cohesion (lit 0.5)))
          (Vector3.multiplyScalar alignment (lit 0.5)))
        (Vector3.multiplyScalar avoidance (lit 2.0)))
      goalSeek)
    (maxSpeed this).

(** The bounds: [-halfFloor + 2] and [halfFloor - 2], that is -23 and 23. *)
Definition lower_bound : num := - (floorSize / lit 2) + lit 2.
Definition upper_bound : num := floorSize / lit 2 - lit 2.

(** The horizontal clamp into the floor minus the margin, and the fixed
    height. *)
Definition keep_within_bounds (p : Vector3.t) : Vector3.t :=
  Vector3.mk
    (Math_max lower_bound (Math_min upper_bound (Vector3.x p)))
    (lit 0.4)
    (Math_max lower_bound (Math_min upper_bound (Vector3.z p))).

(** A step in which every robot is computed from the array as it was
    when the step began, and the new states are stored afterwards. *)
Fixpoint snapshot_from (goal : Vector3.t) (obs : list Obstacle)
    (pre : list Robot) (i n : nat) (post : list Robot) (g : Random)
    : list Robot * Random :=
  match n with
  | O => (post, g)
  | Datatypes.S n' =>
    let (rs, g) := update goal obs i pre g in
    let post :=
      match nth_error rs i with
      | Some r => setAt i r post
      | None => post
      end in
    snapshot_from goal obs pre (Datatypes.S i) n' post g
  end.

Definition snapshot_step (goal : Vector3.t) (obs : list Obstacle)
    (rs : list Robot) (g : Random) : list Robot * Random :=
  snapshot_from goal obs rs 0 (List.length rs) rs g.

(** The loop of [animate] taking the robots in the order [order]. *)
Fixpoint update_in_order (goal : Vector3.t) (obs : list Obstacle)
    (order : list nat) (rs : list Robot) (g : Random) : list Robot * Random :=
  match order with
  | [] => (rs, g)
  | i :: order' =>
    let (rs, g) := update goal obs i rs g in
    update_in_order goal obs order' rs g
  end.

(** One update of [this] as the specification writes it: the new
    velocity is the clamped sum, the new position is the old position
    plus the new velocity, kept within bounds; [intensity] is the new
    intensity of the light of the trail. *)
Definition spec_update (goal : Vector3.t) (obs : list Obstacle)
    (self : nat) (this : Robot) (rs : list Robot) (intensity : num) : Robot :=
  let v :=
    spec_velocity this
      (separate self this rs) (cohere self this rs) (align self this rs)
      (avoidObstacles this obs)
      (Vector3.multiplyScalar (seek this goal) (goalWeight this)) in
  {| position := keep_within_bounds (Vector3.add (position this) v);
     velocity := v;
     maxSpeed := maxSpeed this;
     maxForce := maxForce this;
     goalWeight := goalWeight this;
     hue := hue this;
     light_intensity := intensity |}.

(** The flicker that [ParticleTrail.update] draws from the generator. *)
Definition flicker (g : Random) : num :=
  lit 0.5 + source g (taken g) * lit 0.5.

(** The end of [separate] and of [avoidObstacles]: the sum of the
    weighted offsets, averaged over [count], turned into a desired
    velocity and limited to [maxForce]. *)
Definition steer_from_sum (this : Robot) (steer : Vector3.t) (count : nat)
    : Vector3.t :=
  if Nat.ltb 0 count then
    let steer := Vector3.divideScalar steer (ofZ (Z.of_nat count)) in
    if Vector3.length steer >? lit 0 then
      clampMagnitude
        (Vector3.sub
           (Vector3.multiplyScalar (Vector3.normalize steer) (maxSpeed this))
           (velocity this))
        (maxForce this)
    else steer
  else steer.

(** The generator [g] after [k] further draws. *)
Definition drawn (g : Random) (k : nat) : Random :=
  {| source := source g; taken := taken g + k |}.

(** The number that call [i] of [Math.random()] from now on returns. *)
Definition draw (g : Random) (i : nat) : num := source g (taken g + i).

(** The fields of a robot that steering reads. *)
Definition steering (r : Robot) : Vector3.t * Vector3.t * num * num * num :=
  (position r, velocity r, maxSpeed r, maxForce r, goalWeight r).

(** Two robots that steering cannot tell apart. *)
Definition same_steering (a b : Robot) : Prop := steering a = steering b.

(** What a step leaves visible of a robot to steering. *)
Definition kinematics (r : Robot) : Vector3.t * Vector3.t :=
  (position r, velocity r).

(** The state [st] with another value of [lastTime]. *)
Definition with_lastTime (l : option num) (st : State) : State :=
  {| goalPosition := goalPosition st;
     goalMarker_visible := goalMarker_visible st;
     obstacles := obstacles st;
     robots := robots st;
     animationId := animationId st;
     isRunning := isRunning st;
     lastTime := l;
     random := random st;
     frame_pending := frame_pending st;
     frame_next := frame_next st |}.

(** An event other than a click that picks a goal. *)
Definition not_MouseClick (e : Event) : Prop :=
  match e with
  | MouseClick _ => False
  | _ => True
  end.

End Specification.

(** ** Concrete inputs *)

Section Inputs.

Context {N : Number}.

(** The vector with the given decimal coordinates. *)
Definition V (a b c : Q) : Vector3.t := Vector3.mk (lit a) (lit b) (lit c).

(** A robot as [new Robot()] makes it, at a given position and velocity. *)
Definition robot_at (p v : Vector3.t) : Robot :=
  {| position := p; velocity := v;
     maxSpeed := lit 0.2; maxForce := lit 0.03; goalWeight := lit 0.5;
     hue := lit 0.5; light_intensity := lit 1 |}.

(** A generator that returns one half on every call. *)
Definition halves : Random := {| source := fun _ => lit 0.5; taken := 0 |}.

(** Two robots one unit apart, approaching each other. *)
Definition pair : list Robot :=
  [ robot_at (V 0 0.4 0) (V 0.1 0 0);
    robot_at (V 1 0.4 0) (V (-0.1) 0 0) ].

(** The goal when the script has loaded. *)
Definition origin : Vector3.t := Vector3.mk (lit 0) (lit 0) (lit 0).

End Inputs.

(** Robots on binary64. *)
Module Scenario.

#[local] Existing Instance Float64.number.

(** A coordinate lies on the floor within the margin. *)
Definition on_floor (c : float) : Prop :=
  PrimFloat.leb lower_bound c = true /\ PrimFloat.leb c upper_bound = true.

(** The speed of a robot does not exceed its [maxSpeed]. *)
Definition within_speed (r : Robot) : Prop :=
  PrimFloat.leb (Vector3.length (velocity r)) (maxSpeed r) = true.

Definition within_speedb (r : Robot) : bool :=
  PrimFloat.leb (Vector3.length (velocity r)) (maxSpeed r).

(** The rational number that a finite double is. *)
Definition toQ (f : float) : Q :=
  match Prim2SF f with
  | S754_finite s m e =>
    let n := if s then Zneg m else Zpos m in
    match e with
    | Z0 => inject_Z n
    | Zpos p => inject_Z (n * 2 ^ Zpos p)
    | Zneg p => Qmake n (2 ^ p)%positive
    end
  | _ => 0%Q
  end.

(** The squared magnitude of the velocity of a robot, computed without
    rounding from its three doubles, exceeds the square of [maxSpeed]. *)
Definition exceeds_exactly (r : Robot) : bool :=
  let v := velocity r in
  match
    Qcompare
      (toQ (Vector3.x v) * toQ (Vector3.x v) +
       toQ (Vector3.y v) * toQ (Vector3.y v) +
       toQ (Vector3.z v) * toQ (Vector3.z v))%Q
      (toQ (maxSpeed r) * toQ (maxSpeed r))%Q
  with
  | Gt => true
  | _ => false
  end.

(** All three coordinates of a vector are NaN. *)
Definition all_nan (v : Vector3.t) : Prop :=
  PrimFloat.is_nan (Vector3.x v) = true /\
  PrimFloat.is_nan (Vector3.y v) = true /\
  PrimFloat.is_nan (Vector3.z v) = true.

(** The state of a robot that only drifts: the position advanced by
    the velocity and kept within bounds, the velocity as it was. *)
Definition drift (r : Robot) : Vector3.t * Vector3.t :=
  (keep_within_bounds (Vector3.add (position r) (velocity r)), velocity r).

(** Whether the second robot of a list has an x coordinate below [c]. *)
Definition second_x_below (c : float) (l : list (Vector3.t * Vector3.t)) : bool :=
  match nth_error l 1 with
  | Some (p, _) => PrimFloat.ltb (Vector3.x p) c
  | None => false
  end.

(** Whether the first robot of a list has a velocity with x coordinate 0. *)
Definition first_at_rest (l : list (Vector3.t * Vector3.t)) : bool :=
  match nth_error l 0 with
  | Some (_, v) => PrimFloat.eqb (Vector3.x v) 0
  | None => false
  end.

(** Two robots at the same point, the corner of the bounds. *)
Definition coincident : list Robot :=
  [ robot_at (V 23 0.4 23) (V 0.1 0 0.1);
    robot_at (V 23 0.4 23) (V 0.05 0 0.1) ].

(** One robot moving away from a box obstacle, towards a far goal. *)
Definition runner : list Robot := [ robot_at (V 0 0.4 0) (V 0.1 0 0.1) ].
Definition box : list Obstacle := [ {| obstacle_position := V (-2) 1 (-3) |} ].
Definition far_goal : Vector3.t := V 10 0.4 15.

(** One robot alone, at rest, away from the origin. *)
Definition lone : list Robot := [ robot_at (V 10 0.4 10) (V 0 0 0) ].

(** A goal picked beyond the corner of the bounds. *)
Definition corner_goal : Vector3.t := V 24 0.4 24.

(** Random numbers that make [new Robot()] place three robots on the
    diagonal of the floor, each moving along it: five draws a robot. *)
Definition diagonal_draws : list Q :=
  [ 0.99; 0.99; 0.9; 0.9; 0.1;
    0.95; 0.95; 0.9; 0.9; 0.2;
    0.1; 0.1; 0.5; 0.5; 0.3 ]%Q.

Definition diagonal : Random :=
  {| source := fun n => nth n (map (fun q => lit q) diagonal_draws) (lit 0.5);
     taken := 0 |}.

(** Eight obstacles away from the diagonal, at the heights
    [createObstacle] gives a box (1) and a cylinder or sphere (1.5). *)
Definition far_obstacles : list Obstacle :=
  map (fun p => {| obstacle_position := p |})
    [ V (-20) 1 20; V 20 1 (-20); V (-15) 1 15; V 15 1.5 (-15);
      V (-10) 1.5 10; V 10 1.5 (-10); V (-22) 1 5; V 5 1 (-22) ].

(** The page as loaded with these obstacles and these random numbers. *)
Definition loaded : State := initial far_obstacles diagonal.

(** A click on the floor near its corner, a click on the start button,
    and thirty-four frames. *)
Definition session : list Event :=
  MouseClick [V 24.5 0 24.5] :: StartClick :: repeat (Frame (lit 16)) 34.

(** Whether some robot has a NaN coordinate. *)
Definition some_NaN (st : State) : bool :=
  existsb (fun r => PrimFloat.is_nan (Vector3.x (position r))
                    || PrimFloat.is_nan (Vector3.z (position r)))
          (robots st).

(** A state with the pair, stopped, before any goal was picked. *)
Definition stopped_pair : State :=
  {| goalPosition := origin;
     goalMarker_visible := false;
     obstacles := [];
     robots := pair;
     animationId := None;
     isRunning := false;
     lastTime := Some (lit 0);
     random := halves;
     frame_pending := None;
     frame_next := 1 |}.

(** Random numbers that differ from call to call: 0, 1/16, ..., 15/16,
    and again. *)
Definition sixteenths : Random :=
  {| source := fun n => lit (Z.of_nat (n mod 16) # 16); taken := 0 |}.

(** The pair, stopped, with these random numbers to come. *)
Definition pair_before_resize : State :=
  {| goalPosition := origin;
     goalMarker_visible := false;
     obstacles := [];
     robots := pair;
     animationId := None;
     isRunning := false;
     lastTime := Some (lit 0);
     random := sixteenths;
     frame_pending := None;
     frame_next := 1 |}.

End Scenario.

(** ** The rest of the script: obstacles and particle trails *)

(** [a <= b] on numbers, which the trail needs besides [<]. *)
Class NumberLe (N : Number) : Type := { nleb : num -> num -> bool }.

Definition Float64_le : NumberLe Float64.number :=
  @Build_NumberLe Float64.number PrimFloat.leb.

Section Obstacles.

Context {N : Number}.
Local Open Scope num_scope.

(** The entries of [obstacleTypes], with the sizes [createObstacle]
    reads; the colours are scene state. *)
Inductive ObstacleType : Type :=
| Box (size : num)
| Cylinder (radius height : num)
| Sphere (radius : num).

(** [const obstacleTypes = [...]] *)
Definition obstacleTypes : list ObstacleType :=
  [ Box (lit 2); Cylinder (lit 1) (lit 3); Sphere (lit 1.5) ].

(** [const obstacleCount = 8] *)
Definition obstacleCount : nat := 8.

(** [createObstacle(type, position)]: the mesh is at [position], at the
    height that sets it on the floor. *)
Definition createObstacle (type : ObstacleType) (position : Vector3.t) : Obstacle :=
  {| obstacle_position :=
       Vector3.mk (Vector3.x position)
                  (match type with
                   | Box size => size / lit 2
                   | Cylinder _ height => height / lit 2
                   | Sphere radius => radius
                   end)
                  (Vector3.z position) |}.

(** [Math.floor(v)] as an index into an array of length [n], from [k] on:
    the index [i] with [i <= v < i + 1], none when [v] is NaN, negative
    or not below the length (the array then gives [undefined]). *)
Fixpoint floor_index_from (k n : nat) (v : num) : option nat :=
  match n with
  | O => None
  | Datatypes.S n' =>
    if negb (v <? ofZ (Z.of_nat k)) && (v <? ofZ (Z.of_nat (Datatypes.S k)))
    then Some k
    else floor_index_from (Datatypes.S k) n' v
  end.

Definition floor_index (v : num) (n : nat) : option nat :=
  floor_index_from 0 n v.

(** The loop that places the obstacles, [count] rounds of it.  A round
    draws the type, then x, then z.  [None] is the TypeError of
    [createObstacle] reading [type.type] of [undefined]. *)
Fixpoint place_obstacles (count : nat) (obs : list Obstacle) (g : Random)
    : option (list Obstacle * Random) :=
  match count with
  | O => Some (obs, g)
  | Datatypes.S count' =>
    let (r, g) := Math_random g in
    let index :=
      floor_index (r * ofZ (Z.of_nat (List.length obstacleTypes)))
                  (List.length obstacleTypes) in
    match index with
    | None => None
    | Some i =>
      match nth_error obstacleTypes i with
      | None => None
      | Some type =>
        let (rx, g) := Math_random g in
        let (rz, g) := Math_random g in
        let position :=
          Vector3.mk ((rx - lit 0.5) * (floorSize - lit 4))
                     (lit 0)
                     ((rz - lit 0.5) * (floorSize - lit 4)) in
        place_obstacles count' (obs ++ [createObstacle type position]) g
      end
    end
  end.

(** The script from its first line to its last: the obstacles, then the
    globals and [initializeRobots(3)]. *)
Definition load_page (g : Random) : option State :=
  match place_obstacles obstacleCount [] g with
  | Some (obs, g) => Some (initial obs g)
  | None => None
  end.

End Obstacles.

Section Trail.

Context {N : Number} {L : NumberLe N}.
Local Open Scope num_scope.

(** A particle mesh of a trail: its position, the two entries of its
    [userData] and the opacity of its material. *)
Record Particle : Type := {
  particle_position : Vector3.t;
  lifetime : num;
  initialOpacity : num;
  opacity : num
}.

(** A [ParticleTrail]: its particles, its two limits and its light. *)
Record ParticleTrail : Type := {
  particles : list Particle;
  maxParticles : nat;
  particleLifetime : num;
  light_position : Vector3.t;
  intensity : num
}.

(** [new ParticleTrail(robot)], for the position of the robot. *)
Definition ParticleTrail_new (robot_position : Vector3.t) : ParticleTrail :=
  {| particles := [];
     maxParticles := 30;
     particleLifetime := lit 3.0;
     light_position := robot_position;
     intensity := lit 1 |}.

(** [particles.splice(i, 1)] *)
Fixpoint splice1 {A : Type} (i : nat) (l : list A) : list A :=
  match l, i with
  | [], _ => []
  | _ :: l', O => l'
  | a :: l', Datatypes.S i' => a :: splice1 i' l'
  end.

(** The first statement of the body of the loop:
    [particle.userData.lifetime -= deltaTime]. *)
Definition aged (deltaTime : num) (p : Particle) : Particle :=
  {| particle_position := particle_position p;
     lifetime := lifetime p - deltaTime;
     initialOpacity := initialOpacity p;
     opacity := opacity p |}.

(** The [else] branch: fade the particle and let it drift upwards. *)
Definition faded (deltaTime plife : num) (p : Particle) : Particle :=
  let progress := lifetime p / plife in
  {| particle_position :=
       Vector3.mk (Vector3.x (particle_position p))
                  (Vector3.y (particle_position p) + deltaTime * lit 0.1)
                  (Vector3.z (particle_position p));
     lifetime := lifetime p;
     initialOpacity := initialOpacity p;
     opacity := initialOpacity p * progress |}.

(** [for (let i = ...; i >= 0; i--)], with [i + 1] in the first argument:
    the rounds for the indices [i], [i - 1], ..., 0. *)
Fixpoint sweep (i1 : nat) (deltaTime plife : num) (ps : list Particle)
    : list Particle :=
  match i1 with
  | O => ps
  | Datatypes.S i =>
    match nth_error ps i with
    | None => ps
    | Some particle =>
      let particle := aged deltaTime particle in
      if nleb (lifetime particle) (lit 0)
      then sweep i deltaTime plife (splice1 i ps)
      else sweep i deltaTime plife (setAt i (faded deltaTime plife particle) ps)
    end
  end.

(** [update(deltaTime)] of the trail of a robot at [robot_position]. *)
Definition Trail_update (robot_position : Vector3.t) (deltaTime : num)
    (t : ParticleTrail) (g : Random) : ParticleTrail * Random :=
  let ps :=
    if Nat.ltb (List.length (particles t)) (maxParticles t)
    then particles t ++
         [ {| particle_position := robot_position;
              lifetime := particleLifetime t;
              initialOpacity := lit 0.8;
              opacity := lit 0.8 |} ]
    else particles t in
  let ps := sweep (List.length ps) deltaTime (particleLifetime t) ps in
  let (r, g) := Math_random g in
  ({| particles := ps;
      maxParticles := maxParticles t;
      particleLifetime := particleLifetime t;
      light_position := robot_position;
      intensity := lit 0.5 + r * lit 0.5 |}, g).

(** [dispose()]: every particle and the light leave the scene. *)
Definition Trail_dispose (t : ParticleTrail) : ParticleTrail :=
  {| particles := [];
     maxParticles := maxParticles t;
     particleLifetime := particleLifetime t;
     light_position := light_position t;
     intensity := intensity t |}.

(** What one round of the loop makes of a particle: nothing when its
    time is up, else the particle faded. *)
Definition swept (deltaTime plife : num) (p : Particle) : option Particle :=
  let p := aged deltaTime p in
  if nleb (lifetime p) (lit 0) then None else Some (faded deltaTime plife p).

(** The particles that [swept] keeps, in their order. *)
Fixpoint keep_swept (deltaTime plife : num) (ps : list Particle) : list Particle :=
  match ps with
  | [] => []
  | p :: ps' =>
    match swept deltaTime plife p with
    | Some q => q :: keep_swept deltaTime plife ps'
    | None => keep_swept deltaTime plife ps'
    end
  end.

(** The updates of a trail along the way of its robot: one update for
    every position the robot comes to, with the [deltaTime] passed. *)
Fixpoint Trail_updates (steps : list (Vector3.t * num))
    (t : ParticleTrail) (g : Random) : ParticleTrail * Random :=
  match steps with
  | [] => (t, g)
  | (robot_position, deltaTime) :: steps' =>
    let (t, g) := Trail_update robot_position deltaTime t g in
    Trail_updates steps' t g
  end.

(** The updates that [Robot.update] asks for along a way: it passes
    0.016 every time. *)
Definition every_frame (way : list Vector3.t) : list (Vector3.t * num) :=
  map (fun robot_position => (robot_position, lit 0.016)) way.

(** What an update does to the lifetimes of the particles, which decide
    how many particles there are. *)
Definition keep_lifetimes (deltaTime : num) (ls : list num) : list num :=
  filter (fun l => negb (nleb l (lit 0))) (map (fun l => l - deltaTime) ls).

Fixpoint lifetimes_after (n : nat) (deltaTime plife : num) (maxP : nat)
    (ls : list num) : list num :=
  match n with
  | O => ls
  | Datatypes.S n' =>
    lifetimes_after n' deltaTime plife maxP
      (keep_lifetimes deltaTime
         (if Nat.ltb (List.length ls) maxP then ls ++ [plife] else ls))
  end.

End Trail.

(** ** Properties of states *)

Section StateProperties.

Context {N : Number}.

(** A robot has the constants of the constructor and stands at the
    height of the constructor. *)
Definition as_constructed (r : Robot) : Prop :=
  maxSpeed r = lit 0.2 /\ maxForce r = lit 0.03 /\ goalWeight r = lit 0.5 /\
  Vector3.y (position r) = lit 0.4.

(** A frame callback is pending exactly while the simulation runs, and
    it is the one that [animationId] names. *)
Definition loop_consistent (st : State) : Prop :=
  1 <= frame_next st /\
  (if isRunning st
   then exists id, frame_pending st = Some id /\ animationId st = Some id /\
                   1 <= id /\ id < frame_next st
   else frame_pending st = None).

(** An event that is a frame. *)
Definition is_Frame (e : Event) : Prop :=
  match e with
  | Frame _ => True
  | _ => False
  end.

End StateProperties.

(** ** The goal marker

    [goalMarker.scale] is one vector, which every click on the floor
    sets and every [pulse] closure shrinks.  A click starts a closure of
    its own whether or not an earlier one still asks for frames, so
    several can be pending at a time.  They do the same to the same
    scale, so what is kept of them is their number. *)
Section Marker.

Context {N : Number}.
Local Open Scope num_scope.

Record Marker : Type := {
  marker_scale : Vector3.t;  (* goalMarker.scale *)
  pulses : nat               (* the closures that have asked for a frame *)
}.

(** One call of a [pulse] closure: shrink the goal marker, and ask for
    another frame while it is wider than a tenth. *)
Definition pulse (scale : Vector3.t) : Vector3.t * bool :=
  let scale := Vector3.multiplyScalar scale (lit 0.95) in
  (scale, Vector3.x scale >? lit 0.1).

(** What [onMouseClick] does to the marker when the click hits the
    floor: [goalMarker.scale.set(1, 1, 1)], then [pulse()], the first
    call of a new closure. *)
Definition click_marker (m : Marker) : Marker :=
  let (scale, again) := pulse (Vector3.mk (lit 1) (lit 1) (lit 1)) in
  {| marker_scale := scale;
     pulses := if again then Datatypes.S (pulses m) else pulses m |}.

(** The [n] closures that asked for this frame, called one after the
    other: the scale they leave and how many ask for the next frame. *)
Fixpoint run_pulses (n : nat) (scale : Vector3.t) : Vector3.t * nat :=
  match n with
  | O => (scale, 0)
  | Datatypes.S n' =>
    let (scale, again) := pulse scale in
    let (scale, pending) := run_pulses n' scale in
    (scale, if again then Datatypes.S pending else pending)
  end.

(** An animation frame, as far as the marker goes. *)
Definition frame_marker (m : Marker) : Marker :=
  let (scale, pending) := run_pulses (pulses m) (marker_scale m) in
  {| marker_scale := scale; pulses := pending |}.

(** [n] frames without a click. *)
Fixpoint frames_marker (n : nat) (m : Marker) : Marker :=
  match n with
  | O => m
  | Datatypes.S n' => frame_marker (frames_marker n' m)
  end.

(** The marker at the uniform scale [s], no closure pending. *)
Definition at_rest (s : num) : Marker :=
  {| marker_scale := Vector3.mk s s s; pulses := 0 |}.

End Marker.

(** More robots, obstacles and particles. *)
Module Cases.

(** Two robots ten units apart, and an obstacle far from both. *)
Definition apart {N : Number} : list Robot :=
  [ robot_at (V 0 0.4 0) (V 0.1 0 0); robot_at (V 10 0.4 0) (V 0 0 0.1) ].

Definition pillar {N : Number} : list Obstacle :=
  [ {| obstacle_position := V (-10) 1.5 (-10) |} ].

(** A particle with a hundredth of a second left and one with two seconds. *)
Definition dying {N : Number} : Particle :=
  {| particle_position := V 1 0.4 1; lifetime := lit 0.01;
     initialOpacity := lit 0.8; opacity := lit 0.1 |}.

Definition living {N : Number} : Particle :=
  {| particle_position := V 2 0.4 2; lifetime := lit 2;
     initialOpacity := lit 0.8; opacity := lit 0.5 |}.

(** On binary64: a horizontal coordinate of the position of a robot is
    NaN, and a horizontal coordinate of its velocity is. *)
Definition lost (r : @Robot Float64.number) : Prop :=
  PrimFloat.is_nan (Vector3.x (position r)) = true \/
  PrimFloat.is_nan (Vector3.z (position r)) = true.

Definition wild (r : @Robot Float64.number) : Prop :=
  PrimFloat.is_nan (Vector3.x (velocity r)) = true \/
  PrimFloat.is_nan (Vector3.z (velocity r)) = true.

(** On binary64: the number of particles of a new trail after [n]
    updates of 0.016, and the number that the first 188 updates show. *)
Definition trail_count (n : nat) : nat :=
  List.length (@lifetimes_after Float64.number Float64_le n
                 (@lit Float64.number 0.016) (@lit Float64.number 3.0) 30 []).

Definition filled (n : nat) : nat := if Nat.eqb n 188 then 29 else Nat.min n 30.

(** A robot whose coordinates are NaN, alone and next to one that is
    well. *)
Definition gone : @Robot Float64.number :=
  @robot_at Float64.number
    (@Vector3.mk Float64.number PrimFloat.nan (@lit Float64.number 0.4) PrimFloat.nan)
    (@Vector3.mk Float64.number PrimFloat.nan PrimFloat.nan PrimFloat.nan).

Definition vanished : list (@Robot Float64.number) :=
  [ gone; @robot_at Float64.number (V 23 0.4 23) (V 0.05 0 0.1) ].

(** The eight obstacles that the random numbers 0, 1/16, 2/16, ... place:
    two boxes, two cylinders, two spheres and two boxes. *)
Definition eight_placed : list (@Obstacle Float64.number) :=
  map (fun p => {| obstacle_position := p |})
    [ V (-20.125) 1 (-17.25); V (-11.5) 1 (-8.625);
      V (-2.875) 1.5 0; V 5.75 1.5 8.625;
      V 14.375 1.5 17.25; V (-23) 1.5 (-20.125);
      V (-14.375) 1 (-11.5); V (-5.75) 1 (-2.875) ].

End Cases.

Section Placement.

Context {N : Number}.
Local Open Scope num_scope.

(** The height of the centre of an obstacle that stands on the floor:
    half the size of a box, half the height of a cylinder, the radius
    of a sphere. *)
Definition height_of (type : ObstacleType) : num :=
  match type with
  | Box size => size / lit 2
  | Cylinder _ height => height / lit 2
  | Sphere radius => radius
  end.

(** Round [k] of the placement loop on the generator [g] places [o]:
    the first draw of the round picks the type, by
    [Math.floor(draw * obstacleTypes.length)], the second and third are
    the x and z of the obstacle, over the floor less a margin of two,
    and the obstacle stands at the height of the type picked. *)
Definition placed_in_round (g : Random) (k : nat) (o : Obstacle) : Prop :=
  exists (i : nat) (type : ObstacleType),
    floor_index (draw g (3 * k) * ofZ 3) 3 = Some i /\
    nth_error obstacleTypes i = Some type /\
    obstacle_position o =
      Vector3.mk ((draw g (3 * k + 1) - lit 0.5) * (floorSize - lit 4))
                 (height_of type)
                 ((draw g (3 * k + 2) - lit 0.5) * (floorSize - lit 4)).

(** The heights at which [createObstacle] sets the three types. *)
Definition stands (o : Obstacle) : Prop :=
  Vector3.y (obstacle_position o) = ndiv (lit 2) (lit 2) \/
  Vector3.y (obstacle_position o) = ndiv (lit 3) (lit 2) \/
  Vector3.y (obstacle_position o) = lit 1.5.

End Placement.

(** ** Rounding on binary64

    What a double is as a real number, and how far the result of an
    operation is from the result without rounding.  The operations are
    those of [SpecFloat], which [FloatAxioms] gives the primitive floats. *)

Section Rounding.

Local Open Scope R_scope.

(** [2^e] *)
Definition bpow (e : Z) : R := powerRZ 2 e.

(** Where a real [y] lies between the integers [m] and [m + 1], as the
    location that rounding keeps besides the truncated mantissa. *)
Definition inbetween (y : R) (m : Z) (l : location) : Prop :=
  match l with
  | loc_Exact => y = IZR m
  | loc_Inexact Lt => IZR m < y < IZR m + / 2
  | loc_Inexact Eq => y = IZR m + / 2
  | loc_Inexact Gt => IZR m + / 2 < y < IZR m + 1
  end.

(** The exponent of the last place of a double of magnitude below [2^e]. *)
Definition fexp64 (e : Z) : Z := Z.max (e - 53) (-1074).

Definition sgn (s : bool) : R := if s then -1 else 1.

(** The real number that a finite double is; zero for the others. *)
Definition SF2R (x : spec_float) : R :=
  match x with
  | S754_finite s m e => sgn s * (IZR (Zpos m) * bpow e)
  | _ => 0
  end.

(** A zero or a finite double: not NaN and not an infinity. *)
Definition is_num (x : spec_float) : bool :=
  match x with
  | S754_zero _ | S754_finite _ _ _ => true
  | _ => false
  end.

(** The unit roundoff and half the smallest positive double. *)
Definition u64 : R := bpow (-53).

Definition eta64 : R := bpow (-1075).

(** [r] is [x] rounded: within the relative error [u64], or the absolute
    error [eta64] where the result is subnormal. *)
Definition near (x r : R) : Prop :=
  Rabs (r - x) <= u64 * Rabs x + eta64.

(** The outcome of an operation whose result without rounding has
    magnitude [X] and sign [s]. *)
Definition rounds_to (s : bool) (X : R) (r : spec_float) : Prop :=
  (exists a : R, 0 <= a /\ SF2R r = sgn s * a /\ is_num r = true /\
                 Rabs (a - X) <= u64 * X + eta64) \/
  (r = S754_infinity s /\ bpow 1023 <= X).

(** What an operation with the result [V] without rounding gives: a
    number near [V] of the same sign, or an infinity when [V] is out of
    range. *)
Definition op_result (V : R) (r : spec_float) : Prop :=
  (is_num r = true /\ near V (SF2R r) /\ (0 <= V -> 0 <= SF2R r)) \/
  ((exists s : bool, r = S754_infinity s /\ (0 <= V -> s = false)) /\
   bpow 1023 <= Rabs V).

Definition valid_num (x : spec_float) : Prop :=
  valid_binary x = true /\ is_num x = true.

(** The order of two reals that a comparison reports. *)
Definition cmp_holds (c : comparison) (a b : R) : Prop :=
  match c with
  | Lt => a < b
  | Eq => a = b
  | Gt => b < a
  end.

(** A magnitude whose square is still above the subnormal range. *)
Definition tiny64 : R := bpow (-535).

(** The magnitude of a vector of reals. *)
Definition norm3 (a b c : R) : R := sqrt (a * a + b * b + c * c).

(** The real number that a double is. *)
Definition F2R (f : float) : R := SF2R (Prim2SF f).

(** A double that is a number: zero or finite. *)
Definition fnum (f : float) : Prop := is_num (Prim2SF f) = true.

Definition pinf (f : float) : Prop := Prim2SF f = S754_infinity false.

(** Not negative: plus infinity, or a number that is not below zero. *)
Definition nonneg (f : float) : Prop := pinf f \/ (fnum f /\ 0 <= F2R f).

(** [Math.sqrt(x*x + y*y + z*z)], the [length()] of a vector. *)
Definition flen (x y z : float) : float :=
  PrimFloat.sqrt (PrimFloat.add (PrimFloat.add (PrimFloat.mul x x) (PrimFloat.mul y y))
                                (PrimFloat.mul z z)).

(** [a * inv * M], a coordinate of [normalize().multiplyScalar(M)]. *)
Definition fscale (a inv M : float) : float :=
  PrimFloat.mul (PrimFloat.mul a inv) M.

(** A vector on binary64 with a NaN coordinate. *)
Definition has_NaN (v : @Vector3.t Float64.number) : Prop :=
  PrimFloat.is_nan (Vector3.x v) = true \/
  PrimFloat.is_nan (Vector3.y v) = true \/
  PrimFloat.is_nan (Vector3.z v) = true.

(** A vector of three numbers whose magnitude, taken without rounding,
    is at most [M] up to the relative error [16 * u64], that is 2^-49. *)
Definition length_within (M : float) (v : @Vector3.t Float64.number) : Prop :=
  fnum (Vector3.x v) /\ fnum (Vector3.y v) /\ fnum (Vector3.z v) /\
  norm3 (F2R (Vector3.x v)) (F2R (Vector3.y v)) (F2R (Vector3.z v))
    <= F2R M * (1 + 16 * u64).

(** A limit (a [maxSpeed] or a [maxForce]) that is a number between 1/64
    and 1/2, as 0.2 and 0.03 are. *)
Definition limit_in_range (M : float) : Prop :=
  fnum M /\ / 64 <= F2R M <= / 2.

(** The speed of a robot is within its [maxSpeed] up to rounding. *)
Definition speed_within (r : @Robot Float64.number) : Prop :=
  length_within (maxSpeed r) (velocity r).

End Rounding.

(** * Theorems *)

(** ** Arrays *)

Lemma setAt_length {A : Type} (i : nat) (a : A) (l : list A) :
  List.length (setAt i a l) = List.length l.
Proof.
  revert i; induction l as [|b l IH]; intros [|i]; simpl; auto.
Qed.

Lemma nth_error_setAt_same {A : Type} (i : nat) (a : A) (l : list A) :
  (i < List.length l)%nat -> nth_error (setAt i a l) i = Some a.
Proof.
  revert i; induction l as [|b l IH]; intros [|i] Hi; simpl in *;
    try lia; auto.
  apply IH; lia.
Qed.

Lemma nth_error_setAt_other {A : Type} (i j : nat) (a : A) (l : list A) :
  i <> j -> nth_error (setAt i a l) j = nth_error l j.
Proof.
  revert i j; induction l as [|b l IH]; intros [|i] [|j] Hij; simpl;
    try congruence; auto.
Qed.

(** ** One update *)

Section UpdateFacts.

Context {N : Number}.
Local Open Scope num_scope.

(** [update] is the update of the specification, stored in the slot of
    the robot, and one draw from the generator. *)
Lemma update_spec (goal : Vector3.t) (obs : list Obstacle) (self : nat)
    (rs : list Robot) (g : Random) (this : Robot) :
  nth_error rs self = Some this ->
  update goal obs self rs g =
    (setAt self (spec_update goal obs self this rs (flicker g)) rs,
     {| source := source g; taken := Datatypes.S (taken g) |}).
Proof.
  intros Hthis. unfold update. rewrite Hthis.
  unfold spec_update, spec_velocity, clampMagnitude, keep_within_bounds,
    ParticleTrail_update, Math_random, flicker.
  cbv zeta. simpl.
  match goal with
  | |- context [if ?c then _ else _] => destruct c
  end; reflexivity.
Qed.

Lemma update_outside (goal : Vector3.t) (obs : list Obstacle) (self : nat)
    (rs : list Robot) (g : Random) :
  nth_error rs self = None -> update goal obs self rs g = (rs, g).
Proof. intros H. unfold update. rewrite H. reflexivity. Qed.

Lemma update_length (goal : Vector3.t) (obs : list Obstacle) (self : nat)
    (rs : list Robot) (g : Random) :
  List.length (fst (update goal obs self rs g)) = List.length rs.
Proof.
  destruct (nth_error rs self) as [this|] eqn:E.
  - rewrite (update_spec goal obs self rs g E). simpl. apply setAt_length.
  - rewrite (update_outside goal obs self rs g E). reflexivity.
Qed.

Lemma update_other (goal : Vector3.t) (obs : list Obstacle) (self j : nat)
    (rs : list Robot) (g : Random) :
  self <> j ->
  nth_error (fst (update goal obs self rs g)) j = nth_error rs j.
Proof.
  intros Hj. destruct (nth_error rs self) as [this|] eqn:E.
  - rewrite (update_spec goal obs self rs g E). simpl.
    apply nth_error_setAt_other; assumption.
  - rewrite (update_outside goal obs self rs g E). reflexivity.
Qed.

Lemma update_self (goal : Vector3.t) (obs : list Obstacle) (self : nat)
    (rs : list Robot) (g : Random) (this : Robot) :
  nth_error rs self = Some this ->
  nth_error (fst (update goal obs self rs g)) self =
    Some (spec_update goal obs self this rs (flicker g)).
Proof.
  intros E. rewrite (update_spec goal obs self rs g E). simpl.
  apply nth_error_setAt_same. apply nth_error_Some. congruence.
Qed.

(** A loop that either leaves its accumulator or counts one more. *)
Lemma forOf_from_count {A : Type} (l : list A) (j : nat)
    (body : nat -> A -> Vector3.t * nat -> Vector3.t * nat)
    (s0 : Vector3.t * nat) :
  (forall j a s,
      (snd s <= snd (body j a s))%nat /\
      (snd (body j a s) = snd s -> body j a s = s)) ->
  (snd s0 <= snd (forOf_from j l body s0))%nat /\
  (snd (forOf_from j l body s0) = snd s0 -> forOf_from j l body s0 = s0).
Proof.
  intros Hbody. revert j s0.
  induction l as [|a l IH]; intros j s0; simpl; [auto|].
  destruct (Hbody j a s0) as [Hle Heq].
  destruct (IH (Datatypes.S j) (body j a s0)) as [Hle' Heq'].
  split; [lia|].
  intros E. assert (E1 : snd (body j a s0) = snd s0) by lia.
  rewrite Heq' by lia. auto.
Qed.

(** [separate] ends in [steer_from_sum], and a count of zero comes with
    the zero vector. *)
Lemma separate_is_steer_from_sum (self : nat) (this : Robot) (rs : list Robot) :
  exists (steer : Vector3.t) (count : nat),
    separate self this rs = steer_from_sum this steer count /\
    (count = 0%nat -> steer = Vector3.new).
Proof.
  unfold separate, forOf.
  match goal with
  | |- context [forOf_from 0 rs ?body ?s0] =>
    destruct (forOf_from_count rs 0 body s0) as [_ Hzero];
    [|destruct (forOf_from 0 rs body s0) as [steer count] eqn:E]
  end.
  - intros j a [steer count]. simpl.
    destruct (negb (Nat.eqb j self)); simpl; [|auto].
    destruct (nltb _ _); simpl; [|auto].
    split; [lia|]. intros F. lia.
  - exists steer, count. split.
    + unfold steer_from_sum, clampMagnitude. reflexivity.
    + intros ->. simpl in Hzero. specialize (Hzero eq_refl). congruence.
Qed.

Lemma avoidObstacles_is_steer_from_sum (this : Robot) (obs : list Obstacle) :
  exists (steer : Vector3.t) (count : nat),
    avoidObstacles this obs = steer_from_sum this steer count /\
    (count = 0%nat -> steer = Vector3.new).
Proof.
  unfold avoidObstacles, forOf.
  match goal with
  | |- context [forOf_from 0 obs ?body ?s0] =>
    destruct (forOf_from_count obs 0 body s0) as [_ Hzero];
    [|destruct (forOf_from 0 obs body s0) as [steer count] eqn:E]
  end.
  - intros j a [steer count]. simpl.
    destruct (nltb _ _); simpl; [|auto].
    split; [lia|]. intros F. lia.
  - exists steer, count. split.
    + unfold steer_from_sum, clampMagnitude. reflexivity.
    + intros ->. simpl in Hzero. specialize (Hzero eq_refl). congruence.
Qed.

End UpdateFacts.

(** ** The update rule (C6) and its independence of the generator (C10) *)

Section UpdateRule.

Context {N : Number}.
Local Open Scope num_scope.

Lemma map_setAt {A B : Type} (f : A -> B) (i : nat) (a : A) (l : list A) :
  map f (setAt i a l) = setAt i (f a) (map f l).
Proof.
  revert i; induction l as [|b l IH]; intros [|i]; simpl; auto.
  now rewrite IH.
Qed.

Lemma animate_ignores_time (t1 t2 l1 l2 : option num) (st : State) :
  robots (animate t1 (with_lastTime l1 st)) =
  robots (animate t2 (with_lastTime l2 st)).
Proof.
  unfold animate, with_lastTime; simpl.
  destruct (isRunning st); simpl; [|reflexivity].
  destruct (update_robots (goalPosition st) (obstacles st) (robots st) (random st)).
  reflexivity.
Qed.

(** C6.  One update of a robot sets its velocity to
    [velocity + separation*1.5 + cohesion*0.5 + alignment*0.5 +
    avoidance*2.0 + goalSeek] clamped in magnitude to [maxSpeed], the
    forces being those of the state before the update, and then its
    position to the old position plus that new velocity, which the
    bounds clamp then keeps on the floor.  No elapsed time enters: the
    robots that [animate] leaves are the same for every frame time and
    every previous frame time. *)
Theorem update_is_the_weighted_sum
    (goal : Vector3.t) (obs : list Obstacle) (self : nat)
    (rs : list Robot) (g : Random) (this : Robot)
    (t1 t2 l1 l2 : option num) (st : State) :
  nth_error rs self = Some this ->
  (exists r : Robot,
      nth_error (fst (update goal obs self rs g)) self = Some r /\
      velocity r =
        spec_velocity this
          (separate self this rs) (cohere self this rs) (align self this rs)
          (avoidObstacles this obs)
          (Vector3.multiplyScalar (seek this goal) (goalWeight this)) /\
      position r =
        keep_within_bounds (Vector3.add (position this) (velocity r))) /\
  robots (animate t1 (with_lastTime l1 st)) =
  robots (animate t2 (with_lastTime l2 st)).
Proof.
  intros Hthis. split.
  - exists (spec_update goal obs self this rs (flicker g)).
    split; [apply update_self; assumption|].
    split; reflexivity.
  - apply animate_ignores_time.
Qed.

(** C10.  One update is a function of the robots, the obstacles and the
    goal: whatever the random generator is going to return, the
    positions and velocities after the update are the same.  The
    generator reaches the light of the trail only. *)
Theorem update_deterministic
    (goal : Vector3.t) (obs : list Obstacle) (self : nat)
    (rs : list Robot) (g1 g2 : Random) :
  map kinematics (fst (update goal obs self rs g1)) =
  map kinematics (fst (update goal obs self rs g2)).
Proof.
  destruct (nth_error rs self) as [this|] eqn:E.
  - rewrite (update_spec goal obs self rs g1 E),
            (update_spec goal obs self rs g2 E).
    simpl. rewrite !map_setAt. reflexivity.
  - rewrite !(update_outside goal obs self rs _ E). reflexivity.
Qed.

End UpdateRule.

(** ** A step over the whole population (C3) *)

Section StepOrder.

Context {N : Number}.

Lemma update_from_length (goal : Vector3.t) (obs : list Obstacle)
    (n i : nat) (rs : list Robot) (g : Random) :
  List.length (fst (update_from goal obs i n rs g)) = List.length rs.
Proof.
  revert i rs g; induction n as [|n IH]; intros i rs g; simpl; auto.
  destruct (update goal obs i rs g) as [rs' g'] eqn:E.
  rewrite IH. change rs' with (fst (rs', g')). rewrite <- E.
  apply update_length.
Qed.

(** The loop from slot [i] on for [n] slots touches these slots only. *)
Lemma update_from_outside (goal : Vector3.t) (obs : list Obstacle)
    (n i j : nat) (rs : list Robot) (g : Random) :
  j < i \/ i + n <= j ->
  nth_error (fst (update_from goal obs i n rs g)) j = nth_error rs j.
Proof.
  revert i rs g; induction n as [|n IH]; intros i rs g Hj; simpl; auto.
  destruct (update goal obs i rs g) as [rs' g'] eqn:E.
  rewrite IH by lia.
  change rs' with (fst (rs', g')). rewrite <- E.
  apply update_other. lia.
Qed.

Lemma update_from_app (goal : Vector3.t) (obs : list Obstacle)
    (a b i : nat) (rs : list Robot) (g : Random) :
  update_from goal obs i (a + b) rs g =
  update_from goal obs (i + a) b
    (fst (update_from goal obs i a rs g))
    (snd (update_from goal obs i a rs g)).
Proof.
  revert i rs g; induction a as [|a IH]; intros i rs g; simpl.
  - now rewrite Nat.add_0_r.
  - destruct (update goal obs i rs g) as [rs' g'].
    rewrite IH. now rewrite Nat.add_succ_r.
Qed.

(** C3, as the code has it.  A step takes the robots one after the
    other in array order and stores each new state at once: robot [k] is
    updated against the array in which the robots before it already
    have their new state and the robots from [k] on still have the
    state from before the step. *)
Theorem step_is_sequential
    (goal : Vector3.t) (obs : list Obstacle) (rs : list Robot)
    (g : Random) (k : nat) :
  k < List.length rs ->
  let before_k := update_from goal obs 0 k rs g in
  let after_step := update_robots goal obs rs g in
  nth_error (fst after_step) k =
    nth_error (fst (update goal obs k (fst before_k) (snd before_k))) k
  /\ (forall j, j < k ->
        nth_error (fst before_k) j = nth_error (fst after_step) j)
  /\ (forall j, k <= j ->
        nth_error (fst before_k) j = nth_error rs j).
Proof.
  intros Hk before_k after_step.
  assert (Hsplit : after_step =
    update_from goal obs (Datatypes.S k) (List.length rs - k - 1)
      (fst (update goal obs k (fst before_k) (snd before_k)))
      (snd (update goal obs k (fst before_k) (snd before_k)))).
  { unfold after_step, update_robots.
    replace (List.length rs) with (k + (1 + (List.length rs - k - 1))) at 1 by lia.
    rewrite update_from_app. fold before_k. simpl.
    destruct (update goal obs k (fst before_k) (snd before_k)) as [rs' g'].
    reflexivity. }
  split; [|split].
  - rewrite Hsplit. apply update_from_outside. lia.
  - intros j Hj. rewrite Hsplit.
    rewrite update_from_outside by lia.
    symmetry. apply update_other. lia.
  - intros j Hj. unfold before_k. apply update_from_outside. lia.
Qed.

Lemma update_in_order_seq (goal : Vector3.t) (obs : list Obstacle)
    (n i : nat) (rs : list Robot) (g : Random) :
  update_in_order goal obs (seq i n) rs g = update_from goal obs i n rs g.
Proof.
  revert i rs g; induction n as [|n IH]; intros i rs g; simpl; auto.
  destruct (update goal obs i rs g) as [rs' g']. apply IH.
Qed.

End StepOrder.

(** ** A robot alone (C4) *)

Section Alone.

Context {N : Number}.

Lemma initializeRobots_goal (count : Z) (st : State) :
  goalPosition (initializeRobots count st) = goalPosition st.
Proof.
  unfold initializeRobots.
  destruct (push_robots (Z.to_nat count) [] (random st)). reflexivity.
Qed.

(** C4, as the code has it.  The goal is never absent: when the script
    has loaded it is the origin, and [update] always adds
    [seek(goalPosition) * goalWeight].  For a robot alone on a floor
    without obstacles the separation, cohesion, alignment and avoidance
    forces are the zero vector, so the goal force is the only steering:
    the new velocity is the clamped sum of the old velocity, four zero
    terms and the goal force. *)
Theorem alone_only_the_goal_steers
    (this : Robot) (goal : Vector3.t) (obs : list Obstacle) (g : Random) :
  goalPosition (initial obs g) = Vector3.mk (lit 0) (lit 0) (lit 0)
  /\ separate 0 this [this] = Vector3.new
  /\ cohere 0 this [this] = Vector3.new
  /\ align 0 this [this] = Vector3.new
  /\ avoidObstacles this [] = Vector3.new
  /\ fst (update goal [] 0 [this] g) =
     [ spec_update goal [] 0 this [this] (flicker g) ]
  /\ velocity (spec_update goal [] 0 this [this] (flicker g)) =
     spec_velocity this Vector3.new Vector3.new Vector3.new Vector3.new
       (Vector3.multiplyScalar (seek this goal) (goalWeight this)).
Proof.
  split; [unfold initial; rewrite initializeRobots_goal; reflexivity|].
  do 4 (split; [reflexivity|]).
  split; [|reflexivity].
  rewrite (update_spec goal [] 0 [this] g (this := this)); reflexivity.
Qed.

End Alone.

(** ** The population (C7, C8) *)

Section Population.

Context {N : Number}.

Lemma drawn_0 (g : Random) : drawn g 0 = g.
Proof. destruct g as [s t]. unfold drawn. simpl. now rewrite Nat.add_0_r. Qed.

Lemma drawn_drawn (g : Random) (a b : nat) :
  drawn (drawn g a) b = drawn g (a + b).
Proof. unfold drawn. simpl. now rewrite Nat.add_assoc. Qed.

(** [new Robot()] draws five numbers. *)
Lemma Robot_new_random (g : Random) : snd (Robot_new g) = drawn g 5.
Proof.
  unfold Robot_new, Math_random, drawn. simpl.
  f_equal. lia.
Qed.

Lemma push_robots_spec (n : nat) (acc : list Robot) (g : Random) :
  push_robots n acc g =
    (acc ++ map (fun k => fst (Robot_new (drawn g (5 * k)))) (seq 0 n),
     drawn g (5 * n)).
Proof.
  revert acc g; induction n as [|n IH]; intros acc g.
  - simpl. now rewrite app_nil_r, drawn_0.
  - cbn [push_robots].
    destruct (Robot_new g) as [r g'] eqn:E.
    assert (Hg' : g' = drawn g 5)
      by (rewrite <- Robot_new_random, E; reflexivity).
    rewrite IH. subst g'. f_equal.
    + rewrite <- app_assoc. f_equal.
      cbn [seq map app]. rewrite Nat.mul_0_r, drawn_0, E.
      cbn [fst app]. f_equal.
      rewrite <- seq_shift, map_map.
      apply map_ext. intros k. rewrite drawn_drawn.
      do 3 f_equal. lia.
    + rewrite drawn_drawn. f_equal. lia.
Qed.

Lemma initializeRobots_robots (count : Z) (st : State) :
  robots (initializeRobots count st) =
    map (fun k => fst (Robot_new (drawn (random st) (5 * k))))
        (seq 0 (Z.to_nat count)).
Proof.
  unfold initializeRobots. rewrite push_robots_spec. reflexivity.
Qed.

Lemma initializeRobots_isRunning (count : Z) (st : State) :
  isRunning (initializeRobots count st) = isRunning st.
Proof.
  unfold initializeRobots.
  destruct (push_robots (Z.to_nat count) [] (random st)). reflexivity.
Qed.

(** The position and the velocity of a new robot are the first four of
    its five draws, scaled: the position over the floor less a margin of
    two, the velocity to at most 0.05 a coordinate. *)
Lemma Robot_new_kinematics (g : Random) (k : nat) :
  position (fst (Robot_new (drawn g (5 * k)))) =
    Vector3.mk ((draw g (5 * k) - lit 0.5) * (floorSize - lit 4))%num
               (lit 0.4)
               ((draw g (5 * k + 1) - lit 0.5) * (floorSize - lit 4))%num /\
  velocity (fst (Robot_new (drawn g (5 * k)))) =
    Vector3.mk ((draw g (5 * k + 2) - lit 0.5) * lit 0.1)%num
               (lit 0)
               ((draw g (5 * k + 3) - lit 0.5) * lit 0.1)%num.
Proof.
  unfold Robot_new, Math_random, drawn, draw.
  cbn [source taken position velocity fst].
  replace (taken g + (5 * k + 1)) with (Datatypes.S (taken g + 5 * k)) by lia.
  replace (taken g + (5 * k + 2))
    with (Datatypes.S (Datatypes.S (taken g + 5 * k))) by lia.
  replace (taken g + (5 * k + 3))
    with (Datatypes.S (Datatypes.S (Datatypes.S (taken g + 5 * k)))) by lia.
  split; reflexivity.
Qed.

Lemma initializeRobots_random (count : Z) (st : State) :
  random (initializeRobots count st) = drawn (random st) (5 * Z.to_nat count).
Proof.
  unfold initializeRobots. rewrite push_robots_spec. reflexivity.
Qed.

(** C7.  For a count [n >= 0], [initializeRobots(n)] leaves exactly [n]
    robots and the running flag as it was.  Robot [k] is what
    [new Robot()] makes from the random generator after the [5 * k]
    draws of the robots before it: its position is
    [((d0 - 0.5) * (floorSize - 4), 0.4, (d1 - 0.5) * (floorSize - 4))]
    and its velocity [((d2 - 0.5) * 0.1, 0, (d3 - 0.5) * 0.1)], where
    [d0 .. d3] are the draws [5 * k .. 5 * k + 3] that [Math.random()]
    returns from the call on, draws that no other robot of the
    population gets; the generator is left after [5 * n] draws.  So the
    new population is a function of the generator alone: nothing of the
    robots that were there before enters it. *)
Theorem initializeRobots_replaces_population (n : Z) (st : State) :
  (0 <= n)%Z ->
  Z.of_nat (List.length (robots (initializeRobots n st))) = n
  /\ isRunning (initializeRobots n st) = isRunning st
  /\ (forall k, k < Z.to_nat n ->
        exists r : Robot,
          nth_error (robots (initializeRobots n st)) k = Some r /\
          r = fst (Robot_new (drawn (random st) (5 * k))) /\
          position r =
            Vector3.mk
              ((draw (random st) (5 * k) - lit 0.5) * (floorSize - lit 4))%num
              (lit 0.4)
              ((draw (random st) (5 * k + 1) - lit 0.5) * (floorSize - lit 4))%num /\
          velocity r =
            Vector3.mk
              ((draw (random st) (5 * k + 2) - lit 0.5) * lit 0.1)%num
              (lit 0)
              ((draw (random st) (5 * k + 3) - lit 0.5) * lit 0.1)%num)
  /\ random (initializeRobots n st) = drawn (random st) (5 * Z.to_nat n)
  /\ (forall st' : State, random st' = random st ->
        robots (initializeRobots n st') = robots (initializeRobots n st)).
Proof.
  intros Hn. split; [|split; [|split; [|split]]].
  - rewrite initializeRobots_robots, length_map, length_seq. lia.
  - apply initializeRobots_isRunning.
  - intros k Hk. exists (fst (Robot_new (drawn (random st) (5 * k)))).
    split; [|split; [reflexivity|apply Robot_new_kinematics]].
    rewrite initializeRobots_robots.
    rewrite nth_error_map, nth_error_seq.
    apply Nat.ltb_lt in Hk. rewrite Hk. reflexivity.
  - apply initializeRobots_random.
  - intros st' Hst'. rewrite !initializeRobots_robots, Hst'. reflexivity.
Qed.

(** C8, as the code has it.  A negative count is not rejected:
    [initializeRobots(n)] with [n < 0] does what [initializeRobots(0)]
    does, it discards the population and leaves none, and nothing is
    signalled.  The range of the count is the policy of the button
    handler, which ignores a count outside 3..7 and leaves the state
    as it is. *)
Theorem negative_count_empties_population (n : Z) (st : State) :
  (n < 0)%Z ->
  initializeRobots n st = initializeRobots 0 st
  /\ robots (initializeRobots n st) = []
  /\ addRobotBtn_click (Some n) st = st
  /\ (forall m : Z, (m < 3 \/ 7 < m)%Z -> addRobotBtn_click (Some m) st = st).
Proof.
  intros Hn. destruct n as [|p|p]; try lia.
  split; [reflexivity|]. split; [reflexivity|]. split; [reflexivity|].
  intros m Hm. unfold addRobotBtn_click.
  destruct Hm as [Hm|Hm].
  - apply Z.leb_gt in Hm. rewrite Hm. reflexivity.
  - apply Z.leb_gt in Hm. rewrite Hm, andb_false_r. reflexivity.
Qed.

Lemma update_robots_length (goal : Vector3.t) (obs : list Obstacle)
    (rs : list Robot) (g : Random) :
  List.length (fst (update_robots goal obs rs g)) = List.length rs.
Proof. unfold update_robots. apply update_from_length. Qed.

Lemma animate_running_robots (t : option num) (st : State) :
  isRunning (animate t st) = isRunning st /\
  List.length (robots (animate t st)) = List.length (robots st).
Proof.
  unfold animate. destruct (isRunning st) eqn:E; simpl; [|auto].
  pose proof (update_robots_length (goalPosition st) (obstacles st)
                (robots st) (random st)) as L.
  destruct (update_robots (goalPosition st) (obstacles st) (robots st) (random st)).
  simpl in *. auto.
Qed.

(** The button handler, for a count it accepts: the population is
    replaced by [count] robots and the simulation runs afterwards if and
    only if it ran before (it is stopped and started again, which takes
    one step with the new robots). *)
Lemma addRobotBtn_click_population (count : Z) (st : State) :
  (3 <= count <= 7)%Z ->
  List.length (robots (addRobotBtn_click (Some count) st)) = Z.to_nat count /\
  isRunning (addRobotBtn_click (Some count) st) = isRunning st.
Proof.
  intros [H3 H7]. unfold addRobotBtn_click.
  apply Z.leb_le in H3, H7. rewrite H3, H7. cbn [andb].
  pose proof (initializeRobots_isRunning count st) as Hrun.
  assert (Hlen : List.length (robots (initializeRobots count st)) = Z.to_nat count)
    by (rewrite initializeRobots_robots, length_map, length_seq; reflexivity).
  destruct (isRunning (initializeRobots count st)) eqn:E.
  - unfold stopSimulation. rewrite E.
    unfold startSimulation. cbn [isRunning negb].
    match goal with
    | |- context [animate None ?s] =>
      destruct (animate_running_robots None s) as [R L]
    end.
    rewrite R, L. cbn [isRunning robots]. split; [assumption|congruence].
  - split; [assumption|congruence].
Qed.

End Population.

(** ** The goal (C9) *)

Section Goal.

Context {N : Number}.

Lemma animate_goal (t : option num) (st : State) :
  goalPosition (animate t st) = goalPosition st.
Proof.
  unfold animate. destruct (isRunning st); simpl; [|reflexivity].
  destruct (update_robots (goalPosition st) (obstacles st) (robots st) (random st)).
  reflexivity.
Qed.

Lemma startSimulation_goal (st : State) :
  goalPosition (startSimulation st) = goalPosition st.
Proof.
  unfold startSimulation. destruct (isRunning st); simpl; [reflexivity|].
  rewrite animate_goal. reflexivity.
Qed.

Lemma stopSimulation_goal (st : State) :
  goalPosition (stopSimulation st) = goalPosition st.
Proof. unfold stopSimulation. destruct (isRunning st); reflexivity. Qed.

Lemma addRobotBtn_click_goal (count : option Z) (st : State) :
  goalPosition (addRobotBtn_click count st) = goalPosition st.
Proof.
  unfold addRobotBtn_click. destruct count as [count|]; [|reflexivity].
  destruct ((3 <=? count)%Z && (count <=? 7)%Z); [|reflexivity].
  destruct (isRunning (initializeRobots count st)).
  - rewrite startSimulation_goal, stopSimulation_goal.
    apply initializeRobots_goal.
  - apply initializeRobots_goal.
Qed.

Lemma frame_goal (t : num) (st : State) :
  goalPosition (frame t st) = goalPosition st.
Proof.
  unfold frame. destruct (frame_pending st); [|reflexivity].
  rewrite animate_goal. reflexivity.
Qed.

Lemma handle_goal (e : Event) (st : State) :
  not_MouseClick e -> goalPosition (handle e st) = goalPosition st.
Proof.
  destruct e; simpl; intros H.
  - apply frame_goal.
  - apply startSimulation_goal.
  - apply stopSimulation_goal.
  - apply addRobotBtn_click_goal.
  - contradiction.
Qed.

Lemma handlers_keep_goal (es : list Event) (st : State) :
  Forall not_MouseClick es ->
  goalPosition (fold_left (fun st e => handle e st) es st) = goalPosition st.
Proof.
  revert st.
  induction es as [|e es IH]; intros st Hes; simpl; [reflexivity|].
  inversion Hes as [|? ? He Hes']; subst.
  rewrite IH by assumption. apply handle_goal. assumption.
Qed.

(** C9.  The goal persists until a click replaces it: over any
    sequence of frames (steps), starts and stops, and of population
    changes too, the goal at the end is the goal at the beginning. *)
Theorem goal_persists (es : list Event) (st : State) :
  Forall not_MouseClick es ->
  goalPosition (run es st) = goalPosition st.
Proof.
  intros Hes. unfold run. apply handlers_keep_goal. assumption.
Qed.

(** A goal picked at a point of the floor is that point at robot
    height, and stays so. *)
Lemma picked_goal_persists (p : Vector3.t) (ps : list Vector3.t)
    (es : list Event) (st : State) :
  Forall not_MouseClick es ->
  goalPosition (run es (onMouseClick (p :: ps) st)) =
    Vector3.mk (Vector3.x p) (lit 0.4) (Vector3.z p).
Proof.
  intros Hes. unfold run. rewrite handlers_keep_goal by assumption.
  reflexivity.
Qed.

End Goal.

(** ** What a step establishes for every robot *)

Section StepInvariant.

Context {N : Number}.
Variables (goal : Vector3.t) (obs : list Obstacle).
Variables (Pre Post : Robot -> Prop).

Hypothesis update_establishes :
  forall (self : nat) (rs : list Robot) (this : Robot) (intensity : num),
    nth_error rs self = Some this -> Pre this ->
    Post (spec_update goal obs self this rs intensity).

Lemma update_from_establishes (n i : nat) (rs : list Robot) (g : Random) :
  i + n = List.length rs ->
  (forall j r, j < i -> nth_error rs j = Some r -> Post r) ->
  (forall j r, i <= j -> nth_error rs j = Some r -> Pre r) ->
  forall j r,
    nth_error (fst (update_from goal obs i n rs g)) j = Some r -> Post r.
Proof.
  revert i rs g; induction n as [|n IH]; intros i rs g Hlen Hpost Hpre j r Hj.
  - simpl in Hj. apply (Hpost j r); [|assumption].
    assert (j < List.length rs) by (apply nth_error_Some; congruence). lia.
  - cbn [update_from] in Hj.
    destruct (update goal obs i rs g) as [rs' g'] eqn:E.
    assert (Hrs' : rs' = fst (update goal obs i rs g)) by (rewrite E; reflexivity).
    destruct (nth_error rs i) as [this|] eqn:Ethis.
    2:{ apply nth_error_None in Ethis. lia. }
    apply (IH (Datatypes.S i) rs' g') with (j := j); try assumption.
    + rewrite Hrs', update_length. lia.
    + intros j' r' Hj' Hr'. destruct (Nat.eq_dec j' i) as [->|Hne].
      * rewrite Hrs', (update_self goal obs i rs g Ethis) in Hr'.
        injection Hr' as <-. apply update_establishes; [assumption|].
        apply (Hpre i this); [lia|assumption].
      * rewrite Hrs', update_other in Hr' by congruence.
        apply (Hpost j' r'); [lia|assumption].
    + intros j' r' Hj' Hr'.
      rewrite Hrs', update_other in Hr' by lia.
      apply (Hpre j' r'); [lia|assumption].
Qed.

Lemma update_robots_establishes (rs : list Robot) (g : Random) :
  Forall Pre rs -> Forall Post (fst (update_robots goal obs rs g)).
Proof.
  intros Hpre. apply Forall_forall. intros r Hin.
  apply In_nth_error in Hin. destruct Hin as [j Hj].
  unfold update_robots in Hj.
  apply (@update_from_establishes (List.length rs) 0 rs g) with (j := j);
    try assumption; try reflexivity.
  - intros j' r' Hj'. lia.
  - intros j' r' _ Hr'. rewrite Forall_forall in Hpre.
    apply Hpre. apply nth_error_In with j'. assumption.
Qed.

End StepInvariant.

(** ** A step does not depend on the generator *)

Section Determinism.

Context {N : Number}.
Local Open Scope num_scope.

Lemma forOf_from_rel {A S : Type} (R : A -> A -> Prop)
    (body1 body2 : nat -> A -> S -> S) :
  (forall j a b s, R a b -> body1 j a s = body2 j b s) ->
  forall l1 l2, Forall2 R l1 l2 ->
  forall j s, forOf_from j l1 body1 s = forOf_from j l2 body2 s.
Proof.
  intros Hbody l1 l2 H. induction H as [|a b l1 l2 Hab _ IH]; intros j s; simpl.
  - reflexivity.
  - rewrite (Hbody j a b s Hab). apply IH.
Qed.

Ltac same_fields :=
  repeat match goal with
  | H : same_steering ?a ?b |- _ =>
    destruct a, b; unfold same_steering, steering in H; simpl in H;
    injection H as -> -> -> -> ->
  end.

Lemma separate_steering (self : nat) (a b : Robot) (rs rs' : list Robot) :
  same_steering a b -> Forall2 same_steering rs rs' ->
  separate self a rs = separate self b rs'.
Proof.
  intros Hab Hrs. same_fields. unfold separate, forOf. simpl.
  match goal with
  | |- context [forOf_from 0 rs ?body ?s0] =>
    rewrite (@forOf_from_rel _ _ same_steering body body) with (l2 := rs')
  end; [reflexivity| |assumption].
  intros j x y [steer count] Hxy. same_fields. reflexivity.
Qed.

Lemma cohere_steering (self : nat) (a b : Robot) (rs rs' : list Robot) :
  same_steering a b -> Forall2 same_steering rs rs' ->
  cohere self a rs = cohere self b rs'.
Proof.
  intros Hab Hrs. same_fields. unfold cohere, forOf. simpl.
  match goal with
  | |- context [forOf_from 0 rs ?body ?s0] =>
    rewrite (@forOf_from_rel _ _ same_steering body body) with (l2 := rs')
  end; [reflexivity| |assumption].
  intros j x y [sum count] Hxy. same_fields. reflexivity.
Qed.

Lemma align_steering (self : nat) (a b : Robot) (rs rs' : list Robot) :
  same_steering a b -> Forall2 same_steering rs rs' ->
  align self a rs = align self b rs'.
Proof.
  intros Hab Hrs. same_fields. unfold align, forOf. simpl.
  match goal with
  | |- context [forOf_from 0 rs ?body ?s0] =>
    rewrite (@forOf_from_rel _ _ same_steering body body) with (l2 := rs')
  end; [reflexivity| |assumption].
  intros j x y [sum count] Hxy. same_fields. reflexivity.
Qed.

Lemma spec_update_steering (goal : Vector3.t) (obs : list Obstacle)
    (self : nat) (a b : Robot) (rs rs' : list Robot) (i1 i2 : num) :
  same_steering a b -> Forall2 same_steering rs rs' ->
  same_steering (spec_update goal obs self a rs i1)
                (spec_update goal obs self b rs' i2).
Proof.
  intros Hab Hrs. unfold same_steering, steering, spec_update. cbv zeta.
  cbn [position velocity maxSpeed maxForce goalWeight].
  rewrite (separate_steering self Hab Hrs), (cohere_steering self Hab Hrs),
          (align_steering self Hab Hrs).
  same_fields. reflexivity.
Qed.

Lemma Forall2_setAt {A : Type} (R : A -> A -> Prop) (i : nat) (a b : A)
    (l l' : list A) :
  Forall2 R l l' -> R a b -> Forall2 R (setAt i a l) (setAt i b l').
Proof.
  intros H Hab. revert i.
  induction H as [|x y l l' Hxy Hl IH]; intros [|i]; simpl; constructor; auto.
Qed.

Lemma Forall2_nth_error {A : Type} (R : A -> A -> Prop) (l l' : list A) (i : nat) :
  Forall2 R l l' ->
  match nth_error l i, nth_error l' i with
  | Some a, Some b => R a b
  | None, None => True
  | _, _ => False
  end.
Proof.
  intros H. revert i.
  induction H as [|x y l l' Hxy _ IH]; intros [|i]; simpl; auto.
  apply IH.
Qed.

Lemma update_steering (goal : Vector3.t) (obs : list Obstacle) (self : nat)
    (rs rs' : list Robot) (g g' : Random) :
  Forall2 same_steering rs rs' ->
  Forall2 same_steering (fst (update goal obs self rs g))
                        (fst (update goal obs self rs' g')).
Proof.
  intros Hrs. pose proof (Forall2_nth_error self Hrs) as Hn.
  destruct (nth_error rs self) as [a|] eqn:Ea,
           (nth_error rs' self) as [b|] eqn:Eb; try contradiction.
  - rewrite (update_spec goal obs self rs g Ea),
            (update_spec goal obs self rs' g' Eb). simpl.
    apply Forall2_setAt; [assumption|].
    apply spec_update_steering; assumption.
  - rewrite (update_outside goal obs self rs g Ea),
            (update_outside goal obs self rs' g' Eb). assumption.
Qed.

Lemma update_from_steering (goal : Vector3.t) (obs : list Obstacle) (n i : nat)
    (rs rs' : list Robot) (g g' : Random) :
  Forall2 same_steering rs rs' ->
  Forall2 same_steering (fst (update_from goal obs i n rs g))
                        (fst (update_from goal obs i n rs' g')).
Proof.
  revert i rs rs' g g'. induction n as [|n IH]; intros i rs rs' g g' Hrs; simpl.
  - assumption.
  - pose proof (update_steering goal obs i g g' Hrs) as Hu.
    destruct (update goal obs i rs g) as [r1 g1].
    destruct (update goal obs i rs' g') as [r2 g2].
    apply IH. assumption.
Qed.

Lemma same_steering_refl (rs : list Robot) : Forall2 same_steering rs rs.
Proof. induction rs; constructor; auto. reflexivity. Qed.

Lemma same_steering_kinematics (rs rs' : list Robot) :
  Forall2 same_steering rs rs' -> map kinematics rs = map kinematics rs'.
Proof.
  intros H. induction H as [|a b l l' Hab _ IH]; simpl; [reflexivity|].
  rewrite IH. f_equal. unfold kinematics. same_fields. reflexivity.
Qed.

(** A whole step, like one update, leaves positions and velocities that
    do not depend on the random generator. *)
Lemma step_deterministic (goal : Vector3.t) (obs : list Obstacle)
    (rs : list Robot) (g1 g2 : Random) :
  map kinematics (fst (update_robots goal obs rs g1)) =
  map kinematics (fst (update_robots goal obs rs g2)).
Proof.
  apply same_steering_kinematics. unfold update_robots.
  apply update_from_steering. apply same_steering_refl.
Qed.

End Determinism.

(** ** Binary64: comparisons *)

Section Binary64.

#[local] Existing Instance Float64.number.

Lemma SFcompare_antisym (a b : spec_float) :
  SFcompare b a = option_map CompOpp (SFcompare a b).
Proof.
  destruct a as [sa|sa| |sa ma ea], b as [sb|sb| |sb mb eb]; simpl;
    try reflexivity;
    try (destruct sa; reflexivity); try (destruct sb; reflexivity);
    try (destruct sa, sb; reflexivity).
  destruct sa, sb; simpl; try reflexivity;
    rewrite (Z.compare_antisym ea eb);
    destruct (ea ?= eb)%Z; simpl; try reflexivity;
    change (PosDef.Pos.compare_cont Eq mb ma) with (Pos.compare mb ma);
    change (PosDef.Pos.compare_cont Eq ma mb) with (Pos.compare ma mb);
    rewrite (Pos.compare_antisym ma mb); destruct (Pos.compare ma mb);
    reflexivity.
Qed.

Lemma is_nan_compare (a : float) :
  PrimFloat.is_nan a = false ->
  SFcompare (Prim2SF a) (Prim2SF a) = Some Eq.
Proof.
  unfold PrimFloat.is_nan. rewrite FloatAxioms.eqb_spec. unfold SFeqb.
  destruct (SFcompare (Prim2SF a) (Prim2SF a)) as [[]|]; simpl; congruence.
Qed.

Lemma compare_defined (a b : float) :
  PrimFloat.is_nan a = false -> PrimFloat.is_nan b = false ->
  SFcompare (Prim2SF a) (Prim2SF b) <> None.
Proof.
  intros Ha Hb. apply is_nan_compare in Ha, Hb.
  destruct (Prim2SF a), (Prim2SF b); simpl in *; congruence.
Qed.

Lemma ltb_leb (a b : float) :
  PrimFloat.ltb a b = true -> PrimFloat.leb a b = true.
Proof.
  rewrite FloatAxioms.ltb_spec, FloatAxioms.leb_spec. unfold SFltb, SFleb.
  destruct (SFcompare (Prim2SF a) (Prim2SF b)) as [[]|]; congruence.
Qed.

Lemma not_ltb_leb (a b : float) :
  PrimFloat.is_nan a = false -> PrimFloat.is_nan b = false ->
  PrimFloat.ltb a b = false -> PrimFloat.leb b a = true.
Proof.
  intros Ha Hb. pose proof (compare_defined a b Ha Hb) as D.
  rewrite FloatAxioms.ltb_spec, FloatAxioms.leb_spec. unfold SFltb, SFleb.
  rewrite (SFcompare_antisym (Prim2SF a) (Prim2SF b)).
  destruct (SFcompare (Prim2SF a) (Prim2SF b)) as [[]|]; simpl; congruence.
Qed.

Lemma bounds_values :
  lower_bound = (-23)%float /\ upper_bound = 23%float.
Proof. split; vm_compute; reflexivity. Qed.

(** The clamp of [update] on binary64: a number is brought into the
    bounds, NaN stays NaN. *)
Lemma clamp_on_floor (c : float) :
  let w := Math_max lower_bound (Math_min upper_bound c) in
  (PrimFloat.is_nan c = false -> Scenario.on_floor w) /\
  (PrimFloat.is_nan c = true -> PrimFloat.is_nan w = true).
Proof.
  destruct bounds_values as [-> ->]. unfold Scenario.on_floor.
  change (@Math_max Float64.number) with Float64.Math_max.
  change (@Math_min Float64.number) with Float64.Math_min.
  assert (Hlo : PrimFloat.is_nan (-23)%float = false) by reflexivity.
  assert (Hhi : PrimFloat.is_nan 23%float = false) by reflexivity.
  assert (Hll : PrimFloat.leb (-23) (-23) = true) by reflexivity.
  assert (Hlh : PrimFloat.leb (-23) 23 = true) by reflexivity.
  assert (Hhh : PrimFloat.leb 23 23 = true) by reflexivity.
  assert (Hsl : PrimFloat.get_sign (-23) = true) by reflexivity.
  assert (Hsh : PrimFloat.get_sign 23 = false) by reflexivity.
  split; intros Hc.
  - assert (Hmin : Float64.Math_min 23 c = 23%float \/
                   (Float64.Math_min 23 c = c /\ PrimFloat.leb c 23 = true)).
    { unfold Float64.Math_min. rewrite Hhi, Hc, Hsh. simpl.
      destruct (PrimFloat.ltb 23 c) eqn:E1; [left; reflexivity|].
      right. split; [destruct (PrimFloat.ltb c 23); reflexivity|].
      apply not_ltb_leb; assumption. }
    destruct Hmin as [-> | [-> Hle]].
    + split; reflexivity.
    + unfold Float64.Math_max. rewrite Hlo, Hc, Hsl. simpl.
      destruct (PrimFloat.ltb (-23) c) eqn:E1.
      * split; [apply ltb_leb; assumption|assumption].
      * destruct (PrimFloat.ltb c (-23)) eqn:E2.
        -- split; assumption.
        -- split; [|assumption]. apply not_ltb_leb; assumption.
  - unfold Float64.Math_min, Float64.Math_max.
    rewrite Hc. rewrite orb_true_r. reflexivity.
Qed.

End Binary64.

(** ** Binary64: the step at concrete robots *)

Section OnBinary64.

#[local] Existing Instance Float64.number.
Import Scenario.

(** On binary64 a step leaves every robot at height 0.4 and each
    horizontal coordinate within the bounds, unless the coordinate is
    NaN. *)
Lemma step_keeps_numbers_on_floor
    (goal : Vector3.t) (obs : list Obstacle) (rs : list Robot) (g : Random) :
  Forall (fun r =>
            Vector3.y (position r) = lit 0.4 /\
            (PrimFloat.is_nan (Vector3.x (position r)) = true \/
             on_floor (Vector3.x (position r))) /\
            (PrimFloat.is_nan (Vector3.z (position r)) = true \/
             on_floor (Vector3.z (position r))))
         (fst (update_robots goal obs rs g)).
Proof.
  apply update_robots_establishes with (Pre := fun _ => True).
  - intros self rs' this intensity _ _. cbn [spec_update position].
    unfold keep_within_bounds. cbn [Vector3.x Vector3.y Vector3.z].
    split; [reflexivity|]. split.
    + match goal with
      | |- context [Math_min upper_bound ?c] =>
        destruct (clamp_on_floor c) as [Hnum Hnan];
        destruct (PrimFloat.is_nan c); [left|right]; auto
      end.
    + match goal with
      | |- context [Math_min upper_bound ?c] =>
        destruct (clamp_on_floor c) as [Hnum Hnan];
        destruct (PrimFloat.is_nan c); [left|right]; auto
      end.
  - apply Forall_forall. trivial.
Qed.

Lemma Forall_forallb {A : Type} (P : A -> Prop) (p : A -> bool) (l : list A) :
  (forall a, P a -> p a = true) -> Forall P l -> forallb p l = true.
Proof.
  intros HP H. apply forallb_forall. rewrite Forall_forall in H. auto.
Qed.

(** C1 fails on binary64.  A robot at the origin with velocity
    (0.1, 0, 0.1), a box at (-2, 1, -3) behind it and the goal at
    (10, 0.4, 15) ahead is within its [maxSpeed] before the step; the
    step rescales its velocity to [maxSpeed], and the magnitude of the
    result, as [length()] computes it, is the next double above 0.2.
    The excess is in the stored velocity, not in [length()]: the sum of
    the squares of its coordinates, taken without rounding, exceeds the
    square of [maxSpeed]. *)
Lemma speed_bound_fails_on_binary64 :
  Forall within_speed runner /\
  ~ Forall within_speed (fst (update_robots far_goal box runner halves)) /\
  forallb exceeds_exactly (fst (update_robots far_goal box runner halves)) = true.
Proof.
  split; [|split].
  - repeat (constructor; try (vm_compute; reflexivity)).
  - intros H.
    apply (@Forall_forallb _ within_speed within_speedb _ (fun r E => E)) in H.
    vm_compute in H. discriminate.
  - vm_compute. reflexivity.
Qed.

(** C2 at the failing input.  Of two robots at the same point, the
    first one updated gets NaN for both horizontal coordinates: neither
    is at least -23 nor at most 23. *)
Theorem coincident_robot_leaves_floor :
  exists r : Robot,
    nth_error (fst (update_robots corner_goal [] coincident halves)) 0 = Some r /\
    PrimFloat.is_nan (Vector3.x (position r)) = true /\
    PrimFloat.is_nan (Vector3.z (position r)) = true /\
    ~ on_floor (Vector3.x (position r)) /\
    ~ on_floor (Vector3.z (position r)).
Proof.
  eexists. split; [vm_compute; reflexivity|].
  cbn [position Vector3.x Vector3.z].
  split; [reflexivity|]. split; [reflexivity|].
  split; intros [H _]; vm_compute in H; discriminate.
Qed.

(** The failing input is reached by the page itself: with three robots
    placed on the diagonal, a goal picked near the corner and the
    simulation started, two robots end in the same corner of the bounds,
    and after thirty-four frames a robot has NaN coordinates. *)
Lemma NaN_reached_from_loaded_page :
  some_NaN loaded = false /\
  some_NaN (run (firstn 20 session) loaded) = false /\
  some_NaN (run session loaded) = true.
Proof. repeat split; vm_compute; reflexivity. Qed.

(** C5 at the failing input.  No minimum distance is applied: at
    distance zero the offset (0, 0, 0) is multiplied by [1 / 0], and the
    force that [separate] returns has NaN in every coordinate; so has
    the force of [avoidObstacles] for an obstacle at the position of the
    robot, and so has the velocity of the robot after the step. *)
Theorem zero_distance_force_is_NaN :
  let this := robot_at (V 23 0.4 23) (V 0.1 0 0.1) in
  all_nan (separate 0 this coincident) /\
  all_nan (avoidObstacles this [ {| obstacle_position := position this |} ]) /\
  exists r : Robot,
    nth_error (fst (update_robots corner_goal [] coincident halves)) 0 = Some r /\
    all_nan (velocity r).
Proof.
  cbv zeta. split; [|split].
  - vm_compute. repeat split.
  - vm_compute. repeat split.
  - eexists. split; [vm_compute; reflexivity|]. vm_compute. repeat split.
Qed.

(** C3 fails.  For two robots one unit apart the loop of [animate] and
    a step from the snapshot differ in the second robot, which the loop
    updates against the new state of the first; and the loop taken in
    the other order gives another result. *)
Lemma step_depends_on_order :
  map kinematics (fst (update_robots origin [] pair halves)) <>
  map kinematics (fst (snapshot_step origin [] pair halves))
  /\
  map kinematics (fst (update_in_order origin [] [0; 1] pair halves)) <>
  map kinematics (fst (update_in_order origin [] [1; 0] pair halves))
  /\
  update_in_order origin [] [0; 1] pair halves =
  update_robots origin [] pair halves.
Proof.
  split; [|split].
  - intros H. apply (f_equal (second_x_below 0x1.ddfp-1)) in H.
    vm_compute in H. discriminate.
  - intros H. apply (f_equal (second_x_below 0x1.ddfp-1)) in H.
    vm_compute in H. discriminate.
  - exact (update_in_order_seq origin [] 2 0 pair halves).
Qed.

(** C4 fails.  Before any goal is picked, a robot alone and at rest at
    (10, 0.4, 10), on a floor without obstacles, does not stay at rest:
    the force towards the initial goal, the origin, is not zero, and the
    step gives the robot a velocity. *)
Lemma lone_robot_is_steered :
  goalPosition (initial [] halves) = origin /\
  first_at_rest (map kinematics lone) = true /\
  first_at_rest (map kinematics (fst (update_robots origin [] lone halves))) = false /\
  map kinematics (fst (update_robots origin [] lone halves)) <> map drift lone.
Proof.
  split; [vm_compute; reflexivity|].
  split; [vm_compute; reflexivity|].
  split; [vm_compute; reflexivity|].
  intros H. apply (f_equal first_at_rest) in H.
  vm_compute in H. discriminate.
Qed.

(** C8 fails.  [initializeRobots(-1)] returns as it does for any count,
    having emptied the population: the state it leaves is the state
    that [initializeRobots(0)] leaves. *)
Lemma negative_count_is_not_rejected :
  robots stopped_pair = pair /\
  robots (initializeRobots (-1) stopped_pair) = [] /\
  initializeRobots (-1) stopped_pair = initializeRobots 0 stopped_pair.
Proof. repeat split. Qed.

End OnBinary64.

(** ** The theorems at concrete robots *)

Section Witnesses.

#[local] Existing Instance Float64.number.
Import Scenario.

Lemma update_is_the_weighted_sum_witness :
  nth_error pair 0 = Some (robot_at (V 0 0.4 0) (V 0.1 0 0)) /\
  ((exists r : Robot,
      nth_error (fst (update origin [] 0 pair halves)) 0 = Some r /\
      velocity r =
        spec_velocity (robot_at (V 0 0.4 0) (V 0.1 0 0))
          (separate 0 (robot_at (V 0 0.4 0) (V 0.1 0 0)) pair)
          (cohere 0 (robot_at (V 0 0.4 0) (V 0.1 0 0)) pair)
          (align 0 (robot_at (V 0 0.4 0) (V 0.1 0 0)) pair)
          (avoidObstacles (robot_at (V 0 0.4 0) (V 0.1 0 0)) [])
          (Vector3.multiplyScalar
             (seek (robot_at (V 0 0.4 0) (V 0.1 0 0)) origin)
             (goalWeight (robot_at (V 0 0.4 0) (V 0.1 0 0)))) /\
      position r =
        keep_within_bounds
          (Vector3.add (position (robot_at (V 0 0.4 0) (V 0.1 0 0))) (velocity r))) /\
   robots (animate (Some (lit 16)) (with_lastTime (Some (lit 0)) stopped_pair)) =
   robots (animate (Some (lit 33)) (with_lastTime None stopped_pair))).
Proof.
  split; [reflexivity|].
  apply (update_is_the_weighted_sum origin [] 0 pair halves
           (this := robot_at (V 0 0.4 0) (V 0.1 0 0))).
  reflexivity.
Defined.

Lemma step_is_sequential_witness :
  1 < List.length pair /\
  (nth_error (fst (update_robots origin [] pair halves)) 1 =
     nth_error
       (fst (update origin [] 1
               (fst (update_from origin [] 0 1 pair halves))
               (snd (update_from origin [] 0 1 pair halves)))) 1
   /\ (forall j, j < 1 ->
         nth_error (fst (update_from origin [] 0 1 pair halves)) j =
         nth_error (fst (update_robots origin [] pair halves)) j)
   /\ (forall j, 1 <= j ->
         nth_error (fst (update_from origin [] 0 1 pair halves)) j =
         nth_error pair j)).
Proof.
  assert (H : 1 < List.length pair) by (simpl; lia).
  split; [exact H|].
  exact (step_is_sequential origin [] pair halves H).
Defined.

Lemma initializeRobots_replaces_population_witness :
  (0 <= 3)%Z /\
  (Z.of_nat (List.length (robots (initializeRobots 3 pair_before_resize))) = 3%Z
   /\ isRunning (initializeRobots 3 pair_before_resize) =
        isRunning pair_before_resize
   /\ (forall k, k < Z.to_nat 3 ->
         exists r : Robot,
           nth_error (robots (initializeRobots 3 pair_before_resize)) k = Some r /\
           r = fst (Robot_new (drawn (random pair_before_resize) (5 * k))) /\
           position r =
             Vector3.mk
               ((draw (random pair_before_resize) (5 * k) - lit 0.5) *
                (floorSize - lit 4))%num
               (lit 0.4)
               ((draw (random pair_before_resize) (5 * k + 1) - lit 0.5) *
                (floorSize - lit 4))%num /\
           velocity r =
             Vector3.mk
               ((draw (random pair_before_resize) (5 * k + 2) - lit 0.5) *
                lit 0.1)%num
               (lit 0)
               ((draw (random pair_before_resize) (5 * k + 3) - lit 0.5) *
                lit 0.1)%num)
   /\ random (initializeRobots 3 pair_before_resize) =
        drawn (random pair_before_resize) (5 * Z.to_nat 3)
   /\ (forall st' : State, random st' = random pair_before_resize ->
         robots (initializeRobots 3 st') =
         robots (initializeRobots 3 pair_before_resize))) /\
  map position (robots (initializeRobots 3 pair_before_resize)) =
    [ V (-23) 0.4 (-20.125); V (-8.625) 0.4 (-5.75); V 5.75 0.4 8.625 ].
Proof.
  assert (H : (0 <= 3)%Z) by lia.
  split; [exact H|].
  split; [exact (initializeRobots_replaces_population pair_before_resize H)|].
  vm_compute. reflexivity.
Defined.

Lemma negative_count_empties_population_witness :
  (-1 < 0)%Z /\
  (initializeRobots (-1) stopped_pair = initializeRobots 0 stopped_pair
   /\ robots (initializeRobots (-1) stopped_pair) = []
   /\ addRobotBtn_click (Some (-1)%Z) stopped_pair = stopped_pair
   /\ (forall m : Z, (m < 3 \/ 7 < m)%Z ->
         addRobotBtn_click (Some m) stopped_pair = stopped_pair)).
Proof.
  assert (H : (-1 < 0)%Z) by lia.
  split; [exact H|].
  exact (negative_count_empties_population stopped_pair H).
Defined.

Lemma goal_persists_witness :
  Forall not_MouseClick
    [StartClick; Frame (lit 16); Frame (lit 33); StopClick; StartClick] /\
  goalPosition
    (run [StartClick; Frame (lit 16); Frame (lit 33); StopClick; StartClick]
         (onMouseClick [V 5 0 7] stopped_pair)) =
  goalPosition (onMouseClick [V 5 0 7] stopped_pair).
Proof.
  assert (H : Forall not_MouseClick
                [StartClick; Frame (lit 16); Frame (lit 33); StopClick; StartClick]).
  { repeat constructor. }
  split; [exact H|].
  exact (goal_persists (onMouseClick [V 5 0 7] stopped_pair) H).
Defined.

End Witnesses.

(** * The rest of the script *)

(** ** Particle trails *)

Section TrailFacts.

Context {N : Number} {L : NumberLe N}.

Lemma splice1_middle {A : Type} (front : list A) (a : A) (back : list A) :
  splice1 (List.length front) (front ++ a :: back) = front ++ back.
Proof. induction front as [|b front IH]; simpl; [reflexivity|]. now rewrite IH. Qed.

Lemma setAt_middle {A : Type} (front : list A) (a b : A) (back : list A) :
  setAt (List.length front) b (front ++ a :: back) = front ++ b :: back.
Proof. induction front as [|c front IH]; simpl; [reflexivity|]. now rewrite IH. Qed.

Lemma nth_error_middle {A : Type} (front : list A) (a : A) (back : list A) :
  nth_error (front ++ a :: back) (List.length front) = Some a.
Proof. induction front as [|c front IH]; simpl; auto. Qed.

Lemma keep_swept_app (dt plife : num) (ps qs : list Particle) :
  keep_swept dt plife (ps ++ qs) = keep_swept dt plife ps ++ keep_swept dt plife qs.
Proof.
  induction ps as [|p ps IH]; simpl; [reflexivity|].
  destruct (swept dt plife p); simpl; now rewrite IH.
Qed.

(** The loop run over the first [length front] particles leaves the rest
    alone and keeps of the front what [swept] keeps. *)
Lemma sweep_front (dt plife : num) (front back : list Particle) :
  sweep (List.length front) dt plife (front ++ back) =
  keep_swept dt plife front ++ back.
Proof.
  revert back. induction front as [|p front IH] using rev_ind; intros back.
  - reflexivity.
  - rewrite length_app, Nat.add_1_r, <- app_assoc. cbn [app sweep].
    rewrite nth_error_middle, keep_swept_app. cbn [keep_swept]. unfold swept.
    destruct (nleb (lifetime (aged dt p)) (lit 0)).
    + rewrite splice1_middle, IH, app_nil_r. reflexivity.
    + rewrite setAt_middle, IH, <- app_assoc. reflexivity.
Qed.

Lemma sweep_all (dt plife : num) (ps : list Particle) :
  sweep (List.length ps) dt plife ps = keep_swept dt plife ps.
Proof.
  rewrite <- (app_nil_r ps) at 2. rewrite sweep_front. apply app_nil_r.
Qed.

Lemma keep_swept_length (dt plife : num) (ps : list Particle) :
  List.length (keep_swept dt plife ps) <= List.length ps.
Proof.
  induction ps as [|p ps IH]; simpl; [lia|].
  destruct (swept dt plife p); simpl; lia.
Qed.

Lemma keep_swept_alive (dt plife : num) (ps : list Particle) :
  Forall (fun q => nleb (lifetime q) (lit 0) = false /\
                   opacity q = nmul (initialOpacity q) (ndiv (lifetime q) plife))
         (keep_swept dt plife ps).
Proof.
  induction ps as [|p ps IH]; simpl; [constructor|].
  unfold swept. destruct (nleb (lifetime (aged dt p)) (lit 0)) eqn:E; [assumption|].
  constructor; [|assumption]. split; [exact E|reflexivity].
Qed.

Lemma Trail_update_particles (pos : Vector3.t) (dt : num) (t : ParticleTrail)
    (g : Random) :
  particles (fst (Trail_update pos dt t g)) =
  keep_swept dt (particleLifetime t)
    (if Nat.ltb (List.length (particles t)) (maxParticles t)
     then particles t ++
          [ {| particle_position := pos; lifetime := particleLifetime t;
               initialOpacity := lit 0.8; opacity := lit 0.8 |} ]
     else particles t).
Proof. unfold Trail_update. simpl. apply sweep_all. Qed.

Lemma Trail_update_limits (pos : Vector3.t) (dt : num) (t : ParticleTrail)
    (g : Random) :
  maxParticles (fst (Trail_update pos dt t g)) = maxParticles t /\
  particleLifetime (fst (Trail_update pos dt t g)) = particleLifetime t.
Proof. split; reflexivity. Qed.

Lemma Trail_update_length (pos : Vector3.t) (dt : num) (t : ParticleTrail)
    (g : Random) :
  List.length (particles t) <= maxParticles t ->
  List.length (particles (fst (Trail_update pos dt t g))) <= maxParticles t.
Proof.
  intros H. rewrite Trail_update_particles.
  etransitivity; [apply keep_swept_length|].
  destruct (Nat.ltb (List.length (particles t)) (maxParticles t)) eqn:E; [|assumption].
  apply Nat.ltb_lt in E. rewrite length_app. simpl. lia.
Qed.

(** X1.  The loop of [ParticleTrail.update] runs from the last index
    down and splices as it goes; it still visits every particle exactly
    once, the new one included: the particles afterwards are those whose
    lifetime minus [deltaTime] is not [<= 0], each faded once, in their
    old order. *)
Theorem trail_update_visits_each_particle_once
    (pos : Vector3.t) (dt : num) (t : ParticleTrail) (g : Random) :
  sweep (List.length (particles t)) dt (particleLifetime t) (particles t) =
    keep_swept dt (particleLifetime t) (particles t)
  /\ particles (fst (Trail_update pos dt t g)) =
     keep_swept dt (particleLifetime t)
       (if Nat.ltb (List.length (particles t)) (maxParticles t)
        then particles t ++
             [ {| particle_position := pos; lifetime := particleLifetime t;
                  initialOpacity := lit 0.8; opacity := lit 0.8 |} ]
        else particles t).
Proof. split; [apply sweep_all|apply Trail_update_particles]. Qed.

(** X2.  A trail never holds more than [maxParticles] particles: from a
    new trail, after any number of updates, wherever the robot goes and
    whatever [deltaTime] is passed, at most 30. *)
Theorem trail_holds_at_most_30_particles
    (steps : list (Vector3.t * num)) (pos0 : Vector3.t) (g : Random) :
  List.length (particles (fst (Trail_updates steps (ParticleTrail_new pos0) g)))
    <= 30.
Proof.
  assert (H : forall steps t g,
             maxParticles t = 30 -> List.length (particles t) <= 30 ->
             List.length (particles (fst (Trail_updates steps t g))) <= 30).
  { clear. intros steps.
    induction steps as [|[pos dt] steps IH]; intros t g Hmax Hlen;
      cbn [Trail_updates]; [assumption|].
    pose proof (Trail_update_length pos dt t g) as Hl.
    pose proof (Trail_update_limits pos dt t g) as [Hm _].
    destruct (Trail_update pos dt t g) as [t' g']. cbn [fst] in Hl, Hm.
    apply IH; [rewrite Hm; exact Hmax|].
    rewrite Hmax in Hl. apply Hl. assumption. }
  apply H; [reflexivity|simpl; lia].
Qed.

(** X3.  Every particle that an update leaves has time left, its
    lifetime is not [<= 0], and its opacity is its initial opacity times
    the fraction of its lifetime that remains. *)
Theorem trail_particles_have_time_left
    (pos : Vector3.t) (dt : num) (t : ParticleTrail) (g : Random) :
  Forall (fun q => nleb (lifetime q) (lit 0) = false /\
                   opacity q =
                     nmul (initialOpacity q)
                          (ndiv (lifetime q) (particleLifetime t)))
         (particles (fst (Trail_update pos dt t g))).
Proof. rewrite Trail_update_particles. apply keep_swept_alive. Qed.

End TrailFacts.

(** ** What every reachable state has *)

Section SourceOfRandom.

Context {N : Number}.

Lemma update_source (goal : Vector3.t) (obs : list Obstacle) (self : nat)
    (rs : list Robot) (g : Random) :
  source (snd (update goal obs self rs g)) = source g.
Proof.
  destruct (nth_error rs self) as [this|] eqn:E.
  - rewrite (update_spec goal obs self rs g E). reflexivity.
  - rewrite (update_outside goal obs self rs g E). reflexivity.
Qed.

Lemma update_from_source (goal : Vector3.t) (obs : list Obstacle) (n i : nat)
    (rs : list Robot) (g : Random) :
  source (snd (update_from goal obs i n rs g)) = source g.
Proof.
  revert i rs g. induction n as [|n IH]; intros i rs g; cbn [update_from].
  - reflexivity.
  - pose proof (update_source goal obs i rs g) as H.
    destruct (update goal obs i rs g) as [rs' g']. rewrite IH. exact H.
Qed.

Lemma animate_source (t : option num) (st : State) :
  source (random (animate t st)) = source (random st).
Proof.
  unfold animate. destruct (isRunning st); cbn [negb]; [|reflexivity].
  pose proof (update_from_source (goalPosition st) (obstacles st)
                (List.length (robots st)) 0 (robots st) (random st)) as H.
  unfold update_robots.
  destruct (update_from (goalPosition st) (obstacles st) 0
              (List.length (robots st)) (robots st) (random st)) as [rs g].
  exact H.
Qed.

Lemma initializeRobots_source (count : Z) (st : State) :
  source (random (initializeRobots count st)) = source (random st).
Proof. unfold initializeRobots. rewrite push_robots_spec. reflexivity. Qed.

Lemma startSimulation_source (st : State) :
  source (random (startSimulation st)) = source (random st).
Proof.
  unfold startSimulation. destruct (isRunning st); cbn [negb]; [reflexivity|].
  rewrite animate_source. reflexivity.
Qed.

Lemma handle_source (e : Event) (st : State) :
  source (random (handle e st)) = source (random st).
Proof.
  destruct e as [t| | |count|ps]; cbn [handle].
  - unfold frame. destruct (frame_pending st); [|reflexivity].
    rewrite animate_source. reflexivity.
  - apply startSimulation_source.
  - unfold stopSimulation. destruct (isRunning st); reflexivity.
  - unfold addRobotBtn_click. destruct count as [count|]; [|reflexivity].
    destruct ((3 <=? count)%Z && (count <=? 7)%Z); [|reflexivity].
    destruct (isRunning (initializeRobots count st)).
    + rewrite startSimulation_source. unfold stopSimulation.
      destruct (isRunning (initializeRobots count st));
        apply initializeRobots_source.
    + apply initializeRobots_source.
  - unfold onMouseClick. destruct ps; reflexivity.
Qed.

End SourceOfRandom.

Section RunInvariant.

Context {N : Number}.
Variable P : Robot -> Prop.
Variable G : (nat -> num) -> Prop.

Hypothesis new_P : forall g : Random, G (source g) -> P (fst (Robot_new g)).
Hypothesis update_P :
  forall (goal : Vector3.t) (obs : list Obstacle) (self : nat)
         (rs : list Robot) (this : Robot) (i : num),
    nth_error rs self = Some this -> P this ->
    P (spec_update goal obs self this rs i).

Lemma animate_keeps (t : option num) (st : State) :
  Forall P (robots st) -> Forall P (robots (animate t st)).
Proof.
  intros H. unfold animate. destruct (isRunning st); cbn [negb]; [|assumption].
  pose proof (@update_robots_establishes N (goalPosition st) (obstacles st) P P
                (fun self rs this i => @update_P _ _ self rs this i)
                (robots st) (random st) H) as K.
  destruct (update_robots (goalPosition st) (obstacles st) (robots st) (random st)).
  exact K.
Qed.

Lemma initializeRobots_makes (count : Z) (st : State) :
  G (source (random st)) -> Forall P (robots (initializeRobots count st)).
Proof.
  intros HG. rewrite initializeRobots_robots.
  apply Forall_forall. intros r Hr. apply in_map_iff in Hr.
  destruct Hr as (k & <- & _). apply new_P. exact HG.
Qed.

Lemma startSimulation_keeps (st : State) :
  Forall P (robots st) -> Forall P (robots (startSimulation st)).
Proof.
  intros H. unfold startSimulation. destruct (isRunning st); cbn [negb]; [assumption|].
  apply animate_keeps. exact H.
Qed.

Lemma handle_keeps (e : Event) (st : State) :
  G (source (random st)) -> Forall P (robots st) -> Forall P (robots (handle e st)).
Proof.
  intros HG H. destruct e as [t| | |count|ps]; cbn [handle].
  - unfold frame. destruct (frame_pending st); [|assumption].
    apply animate_keeps. exact H.
  - apply startSimulation_keeps. exact H.
  - unfold stopSimulation. destruct (isRunning st); assumption.
  - unfold addRobotBtn_click. destruct count as [count|]; [|assumption].
    destruct ((3 <=? count)%Z && (count <=? 7)%Z); [|assumption].
    pose proof (initializeRobots_makes count st HG) as K.
    destruct (isRunning (initializeRobots count st)) eqn:E; [|assumption].
    apply startSimulation_keeps. unfold stopSimulation. rewrite E. exact K.
  - unfold onMouseClick. destruct ps; assumption.
Qed.

Lemma run_keeps (es : list Event) (st : State) :
  G (source (random st)) -> Forall P (robots st) -> Forall P (robots (run es st)).
Proof.
  unfold run. revert st.
  induction es as [|e es IH]; intros st HG H; cbn [fold_left]; [assumption|].
  apply IH.
  - rewrite handle_source. exact HG.
  - apply handle_keeps; assumption.
Qed.

End RunInvariant.

Section Reachable.

Context {N : Number}.

(** X4.  In every state the page can reach, whatever the obstacles, the
    random numbers and the events, every robot still has the constants
    of the constructor, [maxSpeed] 0.2, [maxForce] 0.03, [goalWeight]
    0.5, and stands at height 0.4. *)
Theorem robots_stay_as_constructed
    (es : list Event) (obs : list Obstacle) (g : Random) :
  Forall as_constructed (robots (run es (initial obs g))).
Proof.
  apply run_keeps with (G := fun _ => True); try exact I.
  - intros g' _. repeat split.
  - intros goal obs' self rs this i _ (Hs & Hf & Hw & _). repeat split; assumption.
  - unfold initial.
    apply initializeRobots_makes with (G := fun _ => True); [|exact I].
    intros g' _. repeat split.
Qed.

Lemma handle_population (e : Event) (st : State) :
  3 <= List.length (robots st) <= 7 ->
  3 <= List.length (robots (handle e st)) <= 7.
Proof.
  intros H. destruct e as [t| | |count|ps]; cbn [handle].
  - unfold frame. destruct (frame_pending st); [|assumption].
    match goal with
    | |- context [animate ?t ?s] => destruct (animate_running_robots t s) as [_ ->]
    end. assumption.
  - unfold startSimulation. destruct (isRunning st); cbn [negb]; [assumption|].
    match goal with
    | |- context [animate ?t ?s] => destruct (animate_running_robots t s) as [_ ->]
    end. assumption.
  - unfold stopSimulation. destruct (isRunning st); assumption.
  - destruct count as [count|]; [|assumption].
    destruct (Z_le_dec 3 count) as [H3|H3]; [destruct (Z_le_dec count 7) as [H7|H7]|].
    + destruct (addRobotBtn_click_population st (conj H3 H7)) as [-> _]. lia.
    + unfold addRobotBtn_click.
      replace (count <=? 7)%Z with false by (symmetry; apply Z.leb_gt; lia).
      rewrite andb_false_r. assumption.
    + unfold addRobotBtn_click.
      replace (3 <=? count)%Z with false by (symmetry; apply Z.leb_gt; lia).
      assumption.
  - unfold onMouseClick. destruct ps; assumption.
Qed.

(** X5.  In every state the page can reach the population is between
    three and seven robots: the script starts with three, and the button
    is the only way to another number. *)
Theorem population_between_3_and_7
    (es : list Event) (obs : list Obstacle) (g : Random) :
  3 <= List.length (robots (run es (initial obs g))) <= 7.
Proof.
  assert (H0 : 3 <= List.length (robots (initial obs g)) <= 7).
  { unfold initial. rewrite initializeRobots_robots, length_map, length_seq.
    simpl. lia. }
  unfold run. revert H0. generalize (initial obs g).
  induction es as [|e es IH]; intros st H; cbn [fold_left]; [assumption|].
  apply IH. apply handle_population. assumption.
Qed.

Lemma frame_stopped (t : num) (st : State) :
  isRunning st = false ->
  robots (frame t st) = robots st /\ random (frame t st) = random st /\
  isRunning (frame t st) = false.
Proof.
  intros H. unfold frame. destruct (frame_pending st); [|auto].
  unfold animate. cbn [isRunning]. rewrite H. cbn [negb robots random isRunning].
  auto.
Qed.

(** X6.  While the simulation is stopped, frames move nothing: after any
    number of frame callbacks the robots and the random generator are as
    they were, and the simulation is still stopped. *)
Theorem stopped_frames_move_nothing (es : list Event) (st : State) :
  isRunning st = false -> Forall is_Frame es ->
  robots (run es st) = robots st /\ random (run es st) = random st /\
  isRunning (run es st) = false.
Proof.
  unfold run. revert st.
  induction es as [|e es IH]; intros st Hst Hes; cbn [fold_left]; [auto|].
  inversion Hes as [|? ? He Hes']; subst.
  destruct e as [t| | | |]; try contradiction. cbn [handle].
  destruct (frame_stopped t st Hst) as (Hr & Hg & Hs).
  destruct (IH (frame t st) Hs Hes') as (Hr' & Hg' & Hs').
  rewrite Hr', Hg'. auto.
Qed.

Lemma initializeRobots_loop (count : Z) (st : State) :
  loop_consistent st -> loop_consistent (initializeRobots count st).
Proof.
  unfold loop_consistent, initializeRobots.
  destruct (push_robots (Z.to_nat count) [] (random st)). auto.
Qed.

Lemma animate_loop (t : option num) (st : State) :
  1 <= frame_next st -> isRunning st = true -> loop_consistent (animate t st).
Proof.
  intros Hn Hr. unfold animate. rewrite Hr. cbn [negb].
  destruct (update_robots (goalPosition st) (obstacles st) (robots st) (random st)).
  unfold loop_consistent. cbn [frame_next isRunning frame_pending animationId].
  split; [lia|].
  exists (frame_next st). repeat split; [assumption|lia].
Qed.

Lemma startSimulation_loop (st : State) :
  loop_consistent st -> loop_consistent (startSimulation st).
Proof.
  intros H. unfold startSimulation.
  destruct (isRunning st) eqn:E; cbn [negb]; [assumption|].
  apply animate_loop; [|reflexivity]. apply H.
Qed.

Lemma stopSimulation_loop (st : State) :
  loop_consistent st -> loop_consistent (stopSimulation st).
Proof.
  intros [Hn H]. unfold stopSimulation.
  destruct (isRunning st) eqn:E; [|split; [assumption|rewrite E; assumption]].
  destruct H as (id & Hp & Ha & H1 & _).
  unfold loop_consistent. cbn [frame_next isRunning frame_pending].
  split; [assumption|].
  rewrite Ha, Hp. unfold cancelAnimationFrame.
  destruct id as [|id]; [lia|]. cbn [Nat.eqb]. rewrite Nat.eqb_refl. reflexivity.
Qed.

Lemma handle_loop (e : Event) (st : State) :
  loop_consistent st -> loop_consistent (handle e st).
Proof.
  intros H. destruct e as [t| | |count|ps]; cbn [handle].
  - unfold frame. destruct (frame_pending st) as [id|] eqn:Ep; [|assumption].
    destruct H as [Hn H]. destruct (isRunning st) eqn:E; [|congruence].
    apply animate_loop; [exact Hn|reflexivity].
  - apply startSimulation_loop. assumption.
  - apply stopSimulation_loop. assumption.
  - unfold addRobotBtn_click. destruct count as [count|]; [|assumption].
    destruct ((3 <=? count)%Z && (count <=? 7)%Z); [|assumption].
    pose proof (initializeRobots_loop count H) as K.
    destruct (isRunning (initializeRobots count st)); [|assumption].
    apply startSimulation_loop, stopSimulation_loop. assumption.
  - unfold onMouseClick. destruct ps; [assumption|].
    destruct H as [Hn H]. split; [assumption|].
    cbn [isRunning frame_pending animationId frame_next]. exact H.
Qed.

(** X7.  In every state the page can reach, a frame callback is pending
    exactly while the simulation runs, and it is the one [animationId]
    names: [stopSimulation] always cancels the loop, so that no callback
    is pending when [startSimulation] registers the next one. *)
Theorem one_animation_loop
    (es : list Event) (obs : list Obstacle) (g : Random) :
  loop_consistent (run es (initial obs g)).
Proof.
  assert (H0 : loop_consistent (initial obs g)).
  { unfold initial. apply initializeRobots_loop.
    unfold loop_consistent. cbn. split; [lia|reflexivity]. }
  unfold run. revert H0. generalize (initial obs g).
  induction es as [|e es IH]; intros st H; cbn [fold_left]; [assumption|].
  apply IH. apply handle_loop. assumption.
Qed.

Lemma startSimulation_runs (st : State) : isRunning (startSimulation st) = true.
Proof.
  unfold startSimulation. destruct (isRunning st) eqn:E; cbn [negb]; [assumption|].
  match goal with
  | |- context [animate ?t ?s] => destruct (animate_running_robots t s) as [-> _]
  end. reflexivity.
Qed.

(** X8.  Starting a running simulation and stopping a stopped one do
    nothing: a second [startSimulation] takes no extra step and
    registers no second loop. *)
Theorem start_and_stop_are_idempotent (st : State) :
  startSimulation (startSimulation st) = startSimulation st /\
  stopSimulation (stopSimulation st) = stopSimulation st.
Proof.
  split.
  - pose proof (startSimulation_runs st) as H.
    unfold startSimulation at 1. rewrite H. reflexivity.
  - unfold stopSimulation at 1.
    assert (H : isRunning (stopSimulation st) = false).
    { unfold stopSimulation. destruct (isRunning st) eqn:E; [reflexivity|exact E]. }
    rewrite H. reflexivity.
Qed.

(** X9.  The button, for a count from three to seven, replaces the
    population by that many new robots and leaves the simulation running
    or stopped as it was.  When it was stopped the robots are those of
    [initializeRobots]; when it was running the restart has already
    taken one step with them. *)
Theorem button_replaces_population (count : Z) (st : State) :
  (3 <= count <= 7)%Z ->
  List.length (robots (addRobotBtn_click (Some count) st)) = Z.to_nat count
  /\ isRunning (addRobotBtn_click (Some count) st) = isRunning st
  /\ (isRunning st = false ->
        robots (addRobotBtn_click (Some count) st) =
        robots (initializeRobots count st))
  /\ (isRunning st = true ->
        robots (addRobotBtn_click (Some count) st) =
        fst (update_robots (goalPosition st) (obstacles st)
               (robots (initializeRobots count st))
               (random (initializeRobots count st)))).
Proof.
  intros Hc. destruct (addRobotBtn_click_population st Hc) as [Hl Hr].
  split; [exact Hl|]. split; [exact Hr|].
  destruct Hc as [H3 H7]. apply Z.leb_le in H3, H7.
  pose proof (initializeRobots_isRunning count st) as Hi.
  pose proof (initializeRobots_goal count st) as Hg.
  unfold addRobotBtn_click. rewrite H3, H7. cbn [andb].
  split; intros E; rewrite E in Hi; rewrite Hi; [reflexivity|].
  unfold stopSimulation. rewrite Hi.
  unfold startSimulation. cbn [isRunning negb].
  unfold animate. cbn [isRunning negb goalPosition obstacles robots random].
  rewrite Hg.
  assert (Ho : obstacles (initializeRobots count st) = obstacles st).
  { unfold initializeRobots.
    destruct (push_robots (Z.to_nat count) [] (random st)). reflexivity. }
  rewrite Ho.
  destruct (update_robots (goalPosition st) (obstacles st)
              (robots (initializeRobots count st))
              (random (initializeRobots count st))).
  reflexivity.
Qed.

End Reachable.

(** ** Neighbourhoods *)

Section OutOfRange.

Context {N : Number}.
Local Open Scope num_scope.

Lemma forOf_from_unchanged {A S : Type} (l : list A) (j : nat)
    (body : nat -> A -> S -> S) (s : S) :
  (forall k a, nth_error l k = Some a -> body (j + k)%nat a s = s) ->
  forOf_from j l body s = s.
Proof.
  revert j. induction l as [|a l IH]; intros j H; cbn [forOf_from]; [reflexivity|].
  pose proof (H 0%nat a eq_refl) as H0. rewrite Nat.add_0_r in H0. rewrite H0.
  apply IH. intros k b Hk. rewrite Nat.add_succ_l, <- Nat.add_succ_r.
  apply H. exact Hk.
Qed.

(** X10.  Robots and obstacles outside the radii do nothing to a robot:
    when no other robot is within 3 or within 8 by the comparison of the
    code, and no obstacle within 4, its separation, cohesion, alignment
    and avoidance forces are all the zero vector.  A robot whose
    position has become NaN is such a robot to every other one. *)
Theorem out_of_range_no_force
    (self : nat) (this : Robot) (rs : list Robot) (obs : list Obstacle) :
  (forall j other, nth_error rs j = Some other -> j <> self ->
     (Vector3.distanceTo (position this) (position other) <? lit 3.0) = false) ->
  (forall j other, nth_error rs j = Some other -> j <> self ->
     (Vector3.distanceTo (position this) (position other) <? lit 8.0) = false) ->
  (forall k o, nth_error obs k = Some o ->
     (Vector3.distanceTo (position this) (obstacle_position o) <? lit 4.0) = false) ->
  separate self this rs = Vector3.new /\
  cohere self this rs = Vector3.new /\
  align self this rs = Vector3.new /\
  avoidObstacles this obs = Vector3.new.
Proof.
  intros H3 H8 H4. repeat split.
  - unfold separate, forOf. rewrite forOf_from_unchanged; [reflexivity|].
    intros k other Hk. cbn [Nat.add].
    destruct (Nat.eqb k self) eqn:E; cbn [negb]; [reflexivity|].
    apply Nat.eqb_neq in E. rewrite (H3 k other Hk E). reflexivity.
  - unfold cohere, forOf. rewrite forOf_from_unchanged; [reflexivity|].
    intros k other Hk. cbn [Nat.add].
    destruct (Nat.eqb k self) eqn:E; cbn [negb]; [reflexivity|].
    apply Nat.eqb_neq in E. rewrite (H8 k other Hk E). reflexivity.
  - unfold align, forOf. rewrite forOf_from_unchanged; [reflexivity|].
    intros k other Hk. cbn [Nat.add].
    destruct (Nat.eqb k self) eqn:E; cbn [negb]; [reflexivity|].
    apply Nat.eqb_neq in E. rewrite (H8 k other Hk E). reflexivity.
  - unfold avoidObstacles, forOf. rewrite forOf_from_unchanged; [reflexivity|].
    intros k o Hk. rewrite (H4 k o Hk). reflexivity.
Qed.

End OutOfRange.

(** ** The slot of a robot over a step *)

Section Slot.

Context {N : Number}.

(** After a step the slot of a robot holds its one update: the update of
    the specification applied to the state the robot had before the
    step. *)
Lemma update_robots_slot (goal : Vector3.t) (obs : list Obstacle)
    (rs : list Robot) (g : Random) (k : nat) (r : Robot) :
  nth_error rs k = Some r ->
  exists (rs' : list Robot) (i : num),
    nth_error (fst (update_robots goal obs rs g)) k =
      Some (spec_update goal obs k r rs' i).
Proof.
  intros Hr.
  assert (Hk : k < List.length rs) by (apply nth_error_Some; congruence).
  set (mid := update_from goal obs 0 k rs g).
  exists (fst mid), (flicker (snd mid)).
  unfold update_robots.
  replace (List.length rs) with (k + (1 + (List.length rs - k - 1))) by lia.
  rewrite update_from_app. fold mid. cbn [Nat.add update_from].
  assert (Hmid : nth_error (fst mid) k = Some r).
  { unfold mid. rewrite update_from_outside by lia. exact Hr. }
  pose proof (update_self goal obs k (fst mid) (snd mid) Hmid) as Hs.
  destruct (update goal obs k (fst mid) (snd mid)) as [rs1 g1].
  cbn [fst] in Hs. rewrite update_from_outside by lia. exact Hs.
Qed.

End Slot.

(** ** Binary64: NaN does not go away *)

Section NaNStays.

#[local] Existing Instance Float64.number.
Import Cases.

Lemma is_nan_Prim2SF (a : float) :
  PrimFloat.is_nan a = true <-> Prim2SF a = S754_nan.
Proof.
  unfold PrimFloat.is_nan. rewrite FloatAxioms.eqb_spec. unfold SFeqb.
  destruct (Prim2SF a) as [s|s| |s m e]; cbn [SFcompare].
  - split; [discriminate|discriminate].
  - destruct s; (split; [discriminate|discriminate]).
  - split; reflexivity.
  - destruct s; rewrite Z.compare_refl;
      change (PosDef.Pos.compare_cont Eq m m) with (Pos.compare m m);
      rewrite Pos.compare_refl; (split; [discriminate|discriminate]).
Qed.

Lemma is_nan_add_l (a b : float) :
  PrimFloat.is_nan a = true -> PrimFloat.is_nan (PrimFloat.add a b) = true.
Proof.
  rewrite !is_nan_Prim2SF, FloatAxioms.add_spec. intros ->. reflexivity.
Qed.

Lemma is_nan_add_r (a b : float) :
  PrimFloat.is_nan b = true -> PrimFloat.is_nan (PrimFloat.add a b) = true.
Proof.
  rewrite !is_nan_Prim2SF, FloatAxioms.add_spec. intros ->.
  unfold SF64add, SFadd. destruct (Prim2SF a); reflexivity.
Qed.

Lemma is_nan_mul_l (a b : float) :
  PrimFloat.is_nan a = true -> PrimFloat.is_nan (PrimFloat.mul a b) = true.
Proof.
  rewrite !is_nan_Prim2SF, FloatAxioms.mul_spec. intros ->. reflexivity.
Qed.

Lemma is_nan_sqrt (a : float) :
  PrimFloat.is_nan a = true -> PrimFloat.is_nan (PrimFloat.sqrt a) = true.
Proof.
  rewrite !is_nan_Prim2SF, FloatAxioms.sqrt_spec. intros ->. reflexivity.
Qed.

Lemma ltb_nan_r (a b : float) :
  PrimFloat.is_nan b = true -> PrimFloat.ltb a b = false.
Proof.
  rewrite is_nan_Prim2SF, FloatAxioms.ltb_spec. intros ->.
  unfold SFltb. destruct (Prim2SF a); reflexivity.
Qed.

(** A vector with a NaN among its horizontal coordinates has a NaN
    length, and the clamp leaves it as it is. *)
Lemma clampMagnitude_nan (v : Vector3.t) (m : float) :
  PrimFloat.is_nan (Vector3.x v) = true \/ PrimFloat.is_nan (Vector3.z v) = true ->
  clampMagnitude v m = v.
Proof.
  intros H. unfold clampMagnitude.
  change (@nltb Float64.number m (Vector3.length v))
    with (PrimFloat.ltb m (Vector3.length v)).
  rewrite ltb_nan_r; [reflexivity|].
  destruct v as [a b c]. cbn [Vector3.x Vector3.z] in H.
  unfold Vector3.length. cbn [Vector3.x Vector3.y Vector3.z].
  change (@nsqrt Float64.number) with PrimFloat.sqrt.
  change (@nadd Float64.number) with PrimFloat.add.
  change (@nmul Float64.number) with PrimFloat.mul.
  apply is_nan_sqrt. destruct H as [H|H].
  - apply is_nan_add_l, is_nan_add_l, is_nan_mul_l. exact H.
  - apply is_nan_add_r, is_nan_mul_l. exact H.
Qed.

Lemma keep_within_bounds_nan (p : Vector3.t) :
  (PrimFloat.is_nan (Vector3.x p) = true ->
   PrimFloat.is_nan (Vector3.x (keep_within_bounds p)) = true) /\
  (PrimFloat.is_nan (Vector3.z p) = true ->
   PrimFloat.is_nan (Vector3.z (keep_within_bounds p)) = true).
Proof.
  unfold keep_within_bounds. cbn [Vector3.x Vector3.z].
  split; intros H.
  - destruct (clamp_on_floor (Vector3.x p)) as [_ K]. apply K. exact H.
  - destruct (clamp_on_floor (Vector3.z p)) as [_ K]. apply K. exact H.
Qed.

Lemma spec_update_lost (goal : Vector3.t) (obs : list Obstacle) (self : nat)
    (this : Robot) (rs : list Robot) (i : float) :
  lost this -> lost (spec_update goal obs self this rs i).
Proof.
  unfold lost, spec_update. cbv zeta. cbn [position].
  destruct (keep_within_bounds_nan
              (Vector3.add (position this)
                 (spec_velocity this (separate self this rs) (cohere self this rs)
                    (align self this rs) (avoidObstacles this obs)
                    (Vector3.multiplyScalar (seek this goal) (goalWeight this)))))
    as [Kx Kz].
  intros [H|H]; [left; apply Kx|right; apply Kz];
    unfold Vector3.add; cbn [Vector3.x Vector3.z];
    apply is_nan_add_l; exact H.
Qed.

Lemma spec_update_wild (goal : Vector3.t) (obs : list Obstacle) (self : nat)
    (this : Robot) (rs : list Robot) (i : float) :
  wild this ->
  wild (spec_update goal obs self this rs i) /\
  lost (spec_update goal obs self this rs i).
Proof.
  intros H.
  assert (W : wild (spec_update goal obs self this rs i)).
  { unfold wild, spec_update. cbv zeta. cbn [velocity].
    unfold spec_velocity.
    match goal with
    | |- context [clampMagnitude ?v ?m] =>
      assert (Hv : PrimFloat.is_nan (Vector3.x v) = true \/
                   PrimFloat.is_nan (Vector3.z v) = true)
    end.
    { unfold Vector3.add. cbn [Vector3.x Vector3.z].
      destruct H as [H|H]; [left|right];
        repeat apply is_nan_add_l; exact H. }
    rewrite clampMagnitude_nan by exact Hv. exact Hv. }
  split; [exact W|].
  unfold wild, spec_update in W. cbv zeta in W. cbn [velocity] in W.
  unfold lost, spec_update. cbv zeta. cbn [position].
  match goal with
  | |- context [keep_within_bounds ?p] =>
    destruct (keep_within_bounds_nan p) as [Kx Kz]
  end.
  destruct W as [W|W]; [left; apply Kx|right; apply Kz];
    unfold Vector3.add; cbn [Vector3.x Vector3.z];
    apply is_nan_add_r; exact W.
Qed.

(** X11.  On binary64 NaN does not go away.  A robot with a NaN
    horizontal position coordinate before a step has one after it; a
    robot with a NaN horizontal velocity coordinate has one after the
    step too, and a NaN position coordinate with it.  No step brings
    such a robot back to the floor. *)
Theorem NaN_is_permanent
    (goal : Vector3.t) (obs : list Obstacle) (rs : list Robot) (g : Random)
    (k : nat) (r : Robot) :
  nth_error rs k = Some r ->
  exists r' : Robot,
    nth_error (fst (update_robots goal obs rs g)) k = Some r' /\
    (lost r -> lost r') /\
    (wild r -> wild r' /\ lost r').
Proof.
  intros Hr.
  destruct (update_robots_slot goal obs rs g k Hr) as (rs' & i & H).
  exists (spec_update goal obs k r rs' i).
  split; [exact H|]. split.
  - apply spec_update_lost.
  - apply spec_update_wild.
Qed.

End NaNStays.

(** ** The placement of the obstacles *)

Section PlacementFacts.

Context {N : Number}.

Lemma createObstacle_stands (type : ObstacleType) (p : Vector3.t) :
  In type obstacleTypes -> stands (createObstacle type p).
Proof.
  unfold obstacleTypes, stands, createObstacle. cbn [obstacle_position Vector3.y].
  intros [<-|[<-|[<-|[]]]]; auto.
Qed.

Lemma place_obstacles_count
    (count : nat) (obs obs' : list Obstacle) (g g' : Random) :
  place_obstacles count obs g = Some (obs', g') ->
  List.length obs' = List.length obs + count /\ g' = drawn g (3 * count).
Proof.
  revert obs g. induction count as [|count IH]; intros obs g H.
  - cbn [place_obstacles] in H. injection H as <- <-.
    rewrite drawn_0. split; [lia|reflexivity].
  - cbn [place_obstacles] in H. unfold Math_random in H.
    cbv zeta in H. cbn [source taken] in H.
    destruct (floor_index _ _) as [i|]; [|discriminate].
    destruct (nth_error obstacleTypes i) as [type|]; [|discriminate].
    apply IH in H. destruct H as (Hl & ->).
    rewrite length_app in Hl. cbn [List.length] in Hl.
    split; [lia|]. unfold drawn. cbn [source taken]. f_equal. lia.
Qed.

Lemma draw_drawn (g : Random) (a i : nat) : draw (drawn g a) i = draw g (a + i).
Proof. unfold draw, drawn. cbn [source taken]. f_equal. lia. Qed.

(** X15.  When the placement loop completes, it has added one obstacle
    per round behind the ones that were there and taken three draws per
    round from the generator.  The obstacle of round [k] is of the type
    that the first draw of the round picks from [obstacleTypes], lies at
    the x and z that the second and third draw give, and is set at the
    height of that type: half the size of a box, half the height of a
    cylinder, the radius of a sphere. *)
Theorem place_obstacles_adds_count
    (count : nat) (obs obs' : list Obstacle) (g g' : Random) :
  place_obstacles count obs g = Some (obs', g') ->
  exists new : list Obstacle,
    obs' = obs ++ new /\ List.length new = count /\ Forall stands new /\
    (forall k, k < count ->
       exists o : Obstacle, nth_error new k = Some o /\ placed_in_round g k o) /\
    g' = drawn g (3 * count).
Proof.
  revert obs g. induction count as [|count IH]; intros obs g H.
  - cbn [place_obstacles] in H. injection H as <- <-.
    exists []. rewrite app_nil_r, drawn_0.
    repeat split; auto. intros k Hk. lia.
  - cbn [place_obstacles] in H. unfold Math_random in H.
    cbv zeta in H. cbn [source taken] in H.
    destruct (floor_index _ _) as [i|] eqn:Ei; [|discriminate].
    destruct (nth_error obstacleTypes i) as [type|] eqn:Et; [|discriminate].
    apply IH in H. destruct H as (new & -> & Hl & Hs & Hk & ->).
    eexists (_ :: new). split; [rewrite <- app_assoc; reflexivity|].
    split; [cbn [List.length]; lia|]. split; [|split].
    + constructor; [|exact Hs].
      apply createObstacle_stands. eapply nth_error_In. exact Et.
    + intros [|k] Hlt.
      * eexists. split; [reflexivity|]. exists i, type.
        unfold draw. cbn [Nat.mul Nat.add]. rewrite Nat.add_0_r.
        split; [exact Ei|]. split; [exact Et|].
        unfold createObstacle, height_of.
        cbn [obstacle_position Vector3.x Vector3.z].
        replace (taken g + 1) with (Datatypes.S (taken g)) by lia.
        replace (taken g + 2) with (Datatypes.S (Datatypes.S (taken g))) by lia.
        reflexivity.
      * destruct (Hk k) as (o & Ho & i' & type' & Hi' & Ht' & Hp); [lia|].
        exists o. split; [exact Ho|]. exists i', type'.
        assert (E : {| source := source g;
                       taken := Datatypes.S (Datatypes.S (Datatypes.S (taken g))) |}
                    = drawn g 3)
          by (unfold drawn; f_equal; lia).
        rewrite E in Hi', Hp.
        repeat rewrite draw_drawn in Hi'. repeat rewrite draw_drawn in Hp.
        replace (3 * Datatypes.S k) with (3 + 3 * k) by lia.
        replace (3 + 3 * k + 1) with (3 + (3 * k + 1)) by lia.
        replace (3 + 3 * k + 2) with (3 + (3 * k + 2)) by lia.
        split; [exact Hi'|]. split; [exact Ht'|exact Hp].
    + unfold drawn. cbn [source taken]. f_equal. lia.
Qed.

End PlacementFacts.

(** ** Binary64: how a trail fills *)

Section TrailCount.

Context {N : Number} {L : NumberLe N}.

Lemma keep_swept_lifetimes (dt plife : num) (ps : list Particle) :
  map lifetime (keep_swept dt plife ps) = keep_lifetimes dt (map lifetime ps).
Proof.
  unfold keep_lifetimes. induction ps as [|p ps IH]; [reflexivity|].
  cbn [keep_swept map filter]. unfold swept. cbv zeta.
  change (lifetime (aged dt p)) with (nsub (lifetime p) dt).
  destruct (nleb (nsub (lifetime p) dt) (lit 0)); cbn [negb map]; rewrite IH;
    reflexivity.
Qed.

(** The lifetimes in a trail do not depend on the way of the robot nor
    on the generator. *)
Lemma Trail_updates_lifetimes (way : list Vector3.t) (t : ParticleTrail)
    (g : Random) :
  map lifetime (particles (fst (Trail_updates (every_frame way) t g))) =
  lifetimes_after (List.length way) (lit 0.016) (particleLifetime t)
    (maxParticles t) (map lifetime (particles t)).
Proof.
  revert t g. induction way as [|pos way IH]; intros t g; [reflexivity|].
  cbn [every_frame map Trail_updates lifetimes_after List.length] in *.
  pose proof (Trail_update_particles pos (lit 0.016) t g) as E.
  pose proof (Trail_update_limits pos (lit 0.016) t g) as [Hm Hl].
  destruct (Trail_update pos (lit 0.016) t g) as [t' g']. cbn [fst] in E, Hm, Hl.
  rewrite IH, Hm, Hl, E, keep_swept_lifetimes, length_map. f_equal. f_equal.
  destruct (Nat.ltb _ _); [|reflexivity].
  rewrite map_app. reflexivity.
Qed.

End TrailCount.

Section TrailOnBinary64.

#[local] Existing Instance Float64.number.
#[local] Existing Instance Float64_le.
Import Cases.

(** X19.  On binary64 a trail fills in its first thirty updates and then
    stalls, wherever the robot goes and whatever the generator returns:
    after [n <= 187] updates of 0.016 a new trail holds [min n 30]
    particles, and update 188, the first that removes one, leaves 29. *)
Theorem trail_fills_then_stalls_on_binary64
    (way : list Vector3.t) (pos0 : Vector3.t) (g : Random) :
  List.length way <= 188 ->
  List.length
    (particles (fst (Trail_updates (every_frame way) (ParticleTrail_new pos0) g)))
  = filled (List.length way).
Proof.
  intros Hn.
  rewrite <- (length_map lifetime), Trail_updates_lifetimes.
  change (trail_count (List.length way) = filled (List.length way)).
  assert (H : forallb (fun k => Nat.eqb (trail_count k) (filled k)) (seq 0 189) = true)
    by (vm_compute; reflexivity).
  rewrite forallb_forall in H. apply Nat.eqb_eq, H, in_seq. lia.
Qed.

End TrailOnBinary64.

(** * Rounding error of the binary64 operations *)

Unset Implicit Arguments.

(** ** Powers of two *)

Section PowersOfTwo.
Local Open Scope R_scope.

Lemma bpow_pos (e : Z) : 0 < bpow e.
Proof. apply powerRZ_lt. lra. Qed.

Lemma bpow_add (a b : Z) : bpow (a + b) = bpow a * bpow b.
Proof. apply powerRZ_add. lra. Qed.

Lemma bpow_0 : bpow 0 = 1.
Proof. reflexivity. Qed.

Lemma bpow_1 : bpow 1 = 2.
Proof. unfold bpow. simpl. lra. Qed.

Lemma bpow_opp (a : Z) : bpow (- a) = / bpow a.
Proof. apply powerRZ_neg'. Qed.

Lemma bpow_m1 : bpow (-1) = / 2.
Proof. unfold bpow. simpl. lra. Qed.

Lemma bpow_succ (a : Z) : bpow (a + 1) = 2 * bpow a.
Proof. rewrite bpow_add, bpow_1. ring. Qed.

Lemma bpow_pred (a : Z) : bpow (a - 1) = bpow a / 2.
Proof.
  replace (a - 1)%Z with (a + -1)%Z by lia. rewrite bpow_add, bpow_m1. lra.
Qed.

Lemma bpow_cancel (a : Z) : bpow a * bpow (- a) = 1.
Proof. rewrite <- bpow_add. replace (a + - a)%Z with 0%Z by lia. apply bpow_0. Qed.

Lemma bpow_IZR (n : Z) : (0 <= n)%Z -> bpow n = IZR (2 ^ n).
Proof.
  intros Hn. unfold bpow.
  rewrite <- (Z2Nat.id n) by assumption.
  rewrite <- pow_powerRZ. rewrite pow_IZR. reflexivity.
Qed.

Lemma bpow_le (a b : Z) : (a <= b)%Z -> bpow a <= bpow b.
Proof.
  intros H. replace b with (a + (b - a))%Z by lia. rewrite bpow_add.
  assert (1 <= bpow (b - a)).
  { rewrite bpow_IZR by lia. apply IZR_le.
    assert (0 < 2 ^ (b - a))%Z by (apply Z.pow_pos_nonneg; lia). lia. }
  pose proof (bpow_pos a). nra.
Qed.

Lemma bpow_lt (a b : Z) : (a < b)%Z -> bpow a < bpow b.
Proof.
  intros H. replace b with (a + 1 + (b - a - 1))%Z by lia.
  rewrite bpow_add, bpow_succ.
  assert (1 <= bpow (b - a - 1)).
  { rewrite bpow_IZR by lia. apply IZR_le.
    assert (0 < 2 ^ (b - a - 1))%Z by (apply Z.pow_pos_nonneg; lia). lia. }
  pose proof (bpow_pos a). nra.
Qed.

Lemma bpow_lt_inv (a b : Z) : bpow a < bpow b -> (a < b)%Z.
Proof.
  intros H. destruct (Z_lt_le_dec a b) as [|Hle]; [assumption|].
  apply bpow_le in Hle. lra.
Qed.

End PowersOfTwo.

(** ** The number of binary digits *)

Lemma digits2_pos_bounds (p : positive) :
  (2 ^ (Zpos (digits2_pos p) - 1) <= Zpos p < 2 ^ Zpos (digits2_pos p))%Z.
Proof.
  induction p as [p IH|p IH|]; cbn [digits2_pos].
  - rewrite Pos2Z.inj_succ.
    replace (Z.succ (Zpos (digits2_pos p)) - 1)%Z with (Zpos (digits2_pos p) - 1 + 1)%Z by lia.
    rewrite Z.pow_succ_r by lia.
    assert (0 <= Z.pos (digits2_pos p) - 1)%Z by lia.
    rewrite Z.pow_add_r by lia. lia.
  - rewrite Pos2Z.inj_succ.
    replace (Z.succ (Zpos (digits2_pos p)) - 1)%Z with (Zpos (digits2_pos p) - 1 + 1)%Z by lia.
    rewrite Z.pow_succ_r by lia.
    rewrite Z.pow_add_r by lia. lia.
  - simpl. lia.
Qed.

Lemma Zdigits2_bounds (m : Z) :
  (0 < m)%Z -> (2 ^ (Zdigits2 m - 1) <= m < 2 ^ Zdigits2 m)%Z /\ (0 < Zdigits2 m)%Z.
Proof.
  destruct m as [|p|p]; try lia. intros _. cbn [Zdigits2].
  split; [apply digits2_pos_bounds|lia].
Qed.

Lemma Zdigits2_le (m : Z) (k : Z) :
  (0 < m)%Z -> (0 <= k)%Z -> (m < 2 ^ k)%Z -> (Zdigits2 m <= k)%Z.
Proof.
  intros Hm Hk H. destruct (Zdigits2_bounds m Hm) as [[Hl _] Hd].
  assert (2 ^ (Zdigits2 m - 1) < 2 ^ k)%Z by lia.
  apply Z.pow_lt_mono_r_iff in H0; lia.
Qed.

Lemma Zdigits2_pow (k : Z) : (0 <= k)%Z -> Zdigits2 (2 ^ k) = (k + 1)%Z.
Proof.
  intros Hk.
  assert (Hp : (0 < 2 ^ k)%Z) by (apply Z.pow_pos_nonneg; lia).
  destruct (Zdigits2_bounds _ Hp) as [[Hl Hu] Hd].
  apply Z.pow_lt_mono_r_iff in Hu; [|lia|lia].
  apply Z.pow_le_mono_r_iff in Hl; lia.
Qed.

(** ** Shifting a mantissa and rounding it to nearest even *)

Section Shifting.
Local Open Scope R_scope.

Lemma inbetween_bounds (y : R) (m : Z) (l : location) :
  inbetween y m l -> IZR m <= y < IZR m + 1.
Proof. destruct l as [|[]]; simpl; lra. Qed.

(** One shift halves the value and keeps its location. *)
Lemma shr_1_spec (mrs : shr_record) (y : R) :
  (0 <= shr_m mrs)%Z ->
  inbetween y (shr_m mrs) (loc_of_shr_record mrs) ->
  (0 <= shr_m (shr_1 mrs))%Z /\
  inbetween (y * / 2) (shr_m (shr_1 mrs)) (loc_of_shr_record (shr_1 mrs)).
Proof.
  destruct mrs as [m r s]. cbn [shr_m]. intros Hm H.
  destruct m as [|p|p]; [| |lia].
  - destruct r, s; simpl in *; split; try lia; lra.
  - destruct p as [p|p|].
    + assert (E : IZR (Zpos p~1) = 2 * IZR (Zpos p) + 1).
      { rewrite Pos2Z.inj_xI, plus_IZR, mult_IZR. reflexivity. }
      destruct r, s; simpl in H |- *; rewrite E in H; split; try lia; lra.
    + assert (E : IZR (Zpos p~0) = 2 * IZR (Zpos p)).
      { rewrite Pos2Z.inj_xO, mult_IZR. reflexivity. }
      destruct r, s; simpl in H |- *; rewrite E in H; split; try lia; lra.
    + destruct r, s; simpl in H |- *; split; try lia; lra.
Qed.

Lemma iter_pos_shr_1 (p : positive) (mrs : shr_record) (y : R) :
  (0 <= shr_m mrs)%Z ->
  inbetween y (shr_m mrs) (loc_of_shr_record mrs) ->
  (0 <= shr_m (SpecFloat.iter_pos shr_1 p mrs))%Z /\
  inbetween (y * bpow (- Zpos p)) (shr_m (SpecFloat.iter_pos shr_1 p mrs))
            (loc_of_shr_record (SpecFloat.iter_pos shr_1 p mrs)).
Proof.
  revert mrs y. induction p as [p IH|p IH|]; intros mrs y Hm H; cbn [SpecFloat.iter_pos].
  - destruct (shr_1_spec mrs y Hm H) as [H1 H2].
    destruct (IH _ _ H1 H2) as [H3 H4].
    destruct (IH _ _ H3 H4) as [H5 H6].
    split; [exact H5|].
    replace (y * bpow (- Zpos p~1)) with (y * / 2 * bpow (- Zpos p) * bpow (- Zpos p)); [exact H6|].
    replace (- Zpos p~1)%Z with (-1 + (- Zpos p + - Zpos p))%Z by lia.
    rewrite !bpow_add, bpow_m1. ring.
  - destruct (IH _ _ Hm H) as [H3 H4].
    destruct (IH _ _ H3 H4) as [H5 H6].
    split; [exact H5|].
    replace (y * bpow (- Zpos p~0)) with (y * bpow (- Zpos p) * bpow (- Zpos p)); [exact H6|].
    replace (- Zpos p~0)%Z with (- Zpos p + - Zpos p)%Z by lia.
    rewrite !bpow_add. ring.
  - replace (bpow (- Z.pos 1)) with (/ 2) by (unfold bpow; simpl; lra).
    apply shr_1_spec; assumption.
Qed.

Lemma loc_of_shr_record_of_loc (m : Z) (l : location) :
  loc_of_shr_record (shr_record_of_loc m l) = l /\
  shr_m (shr_record_of_loc m l) = m.
Proof. destruct l as [|[]]; split; reflexivity. Qed.

(** The shift to the exponent [Z.max e (e + n)]. *)
Lemma shr_spec (m : Z) (l : location) (e n : Z) (y : R) :
  (0 <= m)%Z -> inbetween y m l ->
  let '(mrs, e') := shr (shr_record_of_loc m l) e n in
  e' = Z.max e (e + n) /\ (0 <= shr_m mrs)%Z /\
  inbetween (y * bpow (e - e')) (shr_m mrs) (loc_of_shr_record mrs).
Proof.
  intros Hm H.
  destruct (loc_of_shr_record_of_loc m l) as [El Em].
  unfold shr. destruct n as [|p|p].
  - split; [lia|]. rewrite El, Em. split; [assumption|].
    replace (e - e)%Z with 0%Z by lia. rewrite bpow_0, Rmult_1_r. assumption.
  - split; [lia|].
    replace (e - (e + Zpos p))%Z with (- Zpos p)%Z by lia.
    apply iter_pos_shr_1; rewrite ?Em, ?El; assumption.
  - split; [lia|]. rewrite El, Em. split; [assumption|].
    replace (e - e)%Z with 0%Z by lia. rewrite bpow_0, Rmult_1_r. assumption.
Qed.

(** Rounding to nearest even moves the value by at most a half. *)
Lemma round_nearest_even_spec (y : R) (m : Z) (l : location) :
  inbetween y m l ->
  Rabs (IZR (round_nearest_even m l) - y) <= / 2 /\
  (m <= round_nearest_even m l <= m + 1)%Z /\
  (l = loc_Exact -> round_nearest_even m l = m).
Proof.
  intros H. destruct l as [|[]]; cbn [round_nearest_even inbetween] in *.
  - subst y. rewrite Rminus_diag, Rabs_R0. split; [lra|]. split; [lia|reflexivity].
  - destruct (Z.even m); [|rewrite plus_IZR]; subst y;
      (split; [apply Rabs_le; lra|split; [lia|discriminate]]).
  - split; [apply Rabs_le; lra|split; [lia|discriminate]].
  - rewrite plus_IZR. split; [apply Rabs_le; lra|split; [lia|discriminate]].
Qed.

End Shifting.

(** ** [binary_round_aux]: rounding a mantissa with its location *)

Lemma fexp_64 (e : Z) : fexp prec emax e = fexp64 e.
Proof. reflexivity. Qed.

Ltac to_fexp64 :=
  repeat match goal with
         | |- context [fexp prec emax ?e] => change (fexp prec emax e) with (fexp64 e)
         end.

Section RoundingOnce.
Local Open Scope R_scope.

Lemma shr_nonpos (mrs : shr_record) (e n : Z) :
  (n <= 0)%Z -> shr mrs e n = (mrs, e).
Proof. destruct n; try reflexivity. lia. Qed.

Lemma IZR_lt_bpow (m k : Z) : (0 <= k)%Z -> IZR m < bpow k -> (m < 2 ^ k)%Z.
Proof. intros Hk H. rewrite bpow_IZR in H by assumption. apply lt_IZR. assumption. Qed.

(** [binary_round_aux] gives a multiple of [2^E] within half a unit of
    [x], as a zero, a finite double or an infinity. *)
Lemma binary_round_aux_spec (s : bool) (mx ex : Z) (lx : location) (x : R) :
  (0 <= mx)%Z -> inbetween (x * bpow (- ex)) mx lx ->
  let E := Z.max ex (fexp64 (Zdigits2 mx + ex)) in
  exists m2 : Z,
    (0 <= m2)%Z /\
    Rabs (IZR m2 * bpow E - x) <= bpow (E - 1) /\
    (lx = loc_Exact -> E = ex -> IZR m2 * bpow E = x) /\
    ((m2 = 0%Z /\ binary_round_aux prec emax s mx ex lx = S754_zero s) \/
     (exists (m3 : positive) (e3 : Z),
        binary_round_aux prec emax s mx ex lx = S754_finite s m3 e3 /\
        IZR (Zpos m3) * bpow e3 = IZR m2 * bpow E /\ (e3 <= 971)%Z) \/
     (binary_round_aux prec emax s mx ex lx = S754_infinity s /\ (971 <= E)%Z)).
Proof.
  intros Hmx Hx E.
  unfold binary_round_aux, shr_fexp. rewrite !fexp_64.
  pose proof (shr_spec mx lx ex (fexp64 (Zdigits2 mx + ex) - ex) _ Hmx Hx) as Hs.
  destruct (shr (shr_record_of_loc mx lx) ex (fexp64 (Zdigits2 mx + ex) - ex))
    as [mrs' e'].
  destruct Hs as (He' & Hm' & Hin).
  assert (HE : e' = E) by (unfold E; lia). clear He'. subst e'.
  assert (HEmin : (-1074 <= E)%Z) by (unfold E, fexp64; lia).
  replace (x * bpow (- ex) * bpow (ex - E)) with (x * bpow (- E)) in Hin.
  2:{ rewrite Rmult_assoc, <- bpow_add. f_equal. f_equal. lia. }
  set (m' := shr_m mrs') in *. set (l' := loc_of_shr_record mrs') in *.
  (* the mantissa after the shift has at most 53 bits *)
  assert (Hm53 : (m' < 2 ^ 53)%Z).
  { apply IZR_lt_bpow; [lia|].
    pose proof (inbetween_bounds _ _ _ Hin) as [Hlo _].
    pose proof (inbetween_bounds _ _ _ Hx) as [_ Hhi].
    eapply Rle_lt_trans; [exact Hlo|].
    assert (Hxlt : x < bpow (Z.max ex (Zdigits2 mx + ex))).
    { assert (x = x * bpow (- ex) * bpow ex) as ->.
      { rewrite Rmult_assoc, <- bpow_add.
        replace (- ex + ex)%Z with 0%Z by lia. rewrite bpow_0. ring. }
      pose proof (bpow_pos ex) as Hp.
      destruct (Z.eq_dec mx 0) as [->|Hne].
      - cbn [Zdigits2]. replace (Z.max ex (0 + ex)) with ex by lia.
        simpl in Hhi. nra.
      - assert (Hpos : (0 < mx)%Z) by lia.
        destruct (Zdigits2_bounds mx Hpos) as [[_ Hu] Hd].
        replace (Z.max ex (Zdigits2 mx + ex)) with (Zdigits2 mx + ex)%Z by lia.
        rewrite bpow_add.
        assert (IZR mx + 1 <= bpow (Zdigits2 mx)).
        { rewrite bpow_IZR by lia. rewrite <- plus_IZR. apply IZR_le. lia. }
        nra. }
    assert (x * bpow (- E) < bpow (Z.max ex (Zdigits2 mx + ex)) * bpow (- E)).
    { pose proof (bpow_pos (- E)). nra. }
    eapply Rlt_le_trans; [exact H|].
    rewrite <- bpow_add. apply bpow_le. unfold E, fexp64. lia. }
  destruct (round_nearest_even_spec _ _ _ Hin) as (Herr & Hrne & Hex).
  fold m' l' in Herr, Hrne, Hex |- *.
  set (m2 := round_nearest_even m' l') in *.
  exists m2. split; [lia|]. split.
  { replace (IZR m2 * bpow E - x) with ((IZR m2 - x * bpow (- E)) * bpow E).
    2:{ rewrite Rmult_minus_distr_r, Rmult_assoc, <- bpow_add.
        replace (- E + E)%Z with 0%Z by lia. rewrite bpow_0. ring. }
    rewrite Rabs_mult, (Rabs_pos_eq (bpow E)) by (left; apply bpow_pos).
    rewrite bpow_pred. pose proof (bpow_pos E). nra. }
  split.
  { intros -> HEex. rewrite HEex in *.
    cbn [inbetween] in Hx.
    pose proof (inbetween_bounds _ _ _ Hin) as [Hlo Hhi].
    rewrite Hx in Hlo, Hhi.
    assert (m' = mx).
    { apply le_IZR in Hlo. rewrite <- plus_IZR in Hhi. apply lt_IZR in Hhi. lia. }
    assert (l' = loc_Exact).
    { destruct l' as [|[]]; [reflexivity| | |]; cbn [inbetween] in Hin;
        rewrite Hx, H in Hin; lra. }
    rewrite Hex by assumption. rewrite H.
    rewrite <- Hx. rewrite Rmult_assoc, <- bpow_add.
    replace (- ex + ex)%Z with 0%Z by lia. rewrite bpow_0. ring. }
  (* the second shift *)
  change (shr_record_of_loc m2 loc_Exact)
    with {| shr_m := m2; shr_r := false; shr_s := false |}.
  destruct (Z.eq_dec m2 0) as [E0|Hne0].
  - left. split; [assumption|]. rewrite E0. cbn [Zdigits2]. to_fexp64.
    rewrite shr_nonpos by (unfold fexp64; lia). reflexivity.
  - right.
    assert (Hm2pos : (0 < m2)%Z) by lia.
    destruct (Z.eq_dec m2 (2 ^ 53)) as [E53|Hne53].
    + rewrite E53. rewrite Zdigits2_pow by lia. to_fexp64.
      replace (fexp64 (53 + 1 + E) - E)%Z with 1%Z by (unfold fexp64; lia).
      change (shr {| shr_m := 2 ^ 53; shr_r := false; shr_s := false |} E 1)
        with ({| shr_m := 2 ^ 52; shr_r := false; shr_s := false |}, (E + 1)%Z).
      cbn [shr_m]. change (2 ^ 52)%Z with (Zpos (2 ^ 52)%positive).
      change (emax - prec)%Z with 971%Z.
      destruct (Z.leb_spec (E + 1) 971).
      * left. exists (2 ^ 52)%positive, (E + 1)%Z.
        split; [reflexivity|]. split; [|assumption].
        rewrite bpow_succ.
        change (IZR (2 ^ 53)) with (2 * IZR (Zpos (2 ^ 52)%positive)). ring.
      * right. split; [reflexivity|lia].
    + assert (Hd : (Zdigits2 m2 <= 53)%Z) by (apply Zdigits2_le; lia).
      to_fexp64. rewrite shr_nonpos by (unfold fexp64; lia).
      cbn [shr_m]. destruct m2 as [|p|p]; try lia.
      change (emax - prec)%Z with 971%Z.
      destruct (Z.leb_spec E 971).
      * left. exists p, E. split; [reflexivity|]. split; [reflexivity|assumption].
      * right. split; [reflexivity|lia].
Qed.

End RoundingOnce.

(** ** The error of one rounding *)

Section RoundingError.
Local Open Scope R_scope.

Lemma u64_pos : 0 < u64.
Proof. apply bpow_pos. Qed.

Lemma eta64_pos : 0 < eta64.
Proof. apply bpow_pos. Qed.

Lemma bounded_spec (m : positive) (e : Z) :
  SpecFloat.bounded prec emax m e = true ->
  (Zpos (digits2_pos m) <= 53)%Z /\ (-1074 <= e <= 971)%Z /\
  ((-1074 < e)%Z -> Zpos (digits2_pos m) = 53%Z).
Proof.
  unfold SpecFloat.bounded, canonical_mantissa. rewrite andb_true_iff.
  intros [H1 H2]. apply Z.eqb_eq in H1. apply Z.leb_le in H2.
  change (fexp prec emax (Zpos (digits2_pos m) + e)) with
    (fexp64 (Zpos (digits2_pos m) + e)) in H1.
  change (emax - prec)%Z with 971%Z in H2.
  unfold fexp64 in H1. lia.
Qed.

Lemma finite_lt_bpow (m : positive) (e : Z) :
  SpecFloat.bounded prec emax m e = true -> IZR (Zpos m) * bpow e < bpow 1024.
Proof.
  intros H. destruct (bounded_spec m e H) as (Hd & He & _).
  destruct (digits2_pos_bounds m) as [_ Hu].
  assert (IZR (Zpos m) < bpow 53).
  { rewrite bpow_IZR by lia. apply IZR_lt.
    eapply Z.lt_le_trans; [exact Hu|]. apply Z.pow_le_mono_r; lia. }
  assert (bpow e <= bpow 971) by (apply bpow_le; lia).
  replace 1024%Z with (53 + 971)%Z by lia. rewrite bpow_add.
  pose proof (bpow_pos e). pose proof (bpow_pos 53). nra.
Qed.

Lemma pos_ge_bpow (m : positive) :
  bpow (Zpos (digits2_pos m) - 1) <= IZR (Zpos m).
Proof.
  destruct (digits2_pos_bounds m) as [Hl _].
  rewrite bpow_IZR by lia. apply IZR_le. assumption.
Qed.

Lemma Zpos_ge_bpow (m : Z) :
  (0 < m)%Z -> bpow (Zdigits2 m - 1) <= IZR m.
Proof.
  intros H. destruct (Zdigits2_bounds m H) as [[Hl _] Hd].
  rewrite bpow_IZR by lia. apply IZR_le. assumption.
Qed.

(** Rounding a positive real given by a mantissa, an exponent and a
    location. *)
Lemma round_mag (s : bool) (mx ex : Z) (lx : location) (X : R) :
  (0 <= mx)%Z -> 0 < X -> inbetween (X * bpow (- ex)) mx lx ->
  ((fexp64 (Zdigits2 mx + ex) < ex)%Z ->
   lx = loc_Exact \/ bpow (ex - 1) <= u64 * X + eta64) ->
  ((971 <= ex)%Z -> bpow 1023 <= X) ->
  rounds_to s X (binary_round_aux prec emax s mx ex lx).
Proof.
  intros Hmx HX Hin Hex Hov.
  destruct (binary_round_aux_spec s mx ex lx X Hmx Hin)
    as (m2 & Hm2 & Herr & Hexact & Hres).
  set (E := Z.max ex (fexp64 (Zdigits2 mx + ex))) in *.
  assert (Hlow : IZR mx * bpow ex <= X).
  { pose proof (inbetween_bounds _ _ _ Hin) as [Hlo _].
    pose proof (bpow_pos ex) as Hp.
    assert (X = X * bpow (- ex) * bpow ex) as ->.
    { rewrite Rmult_assoc, <- bpow_add.
      replace (- ex + ex)%Z with 0%Z by lia. rewrite bpow_0. ring. }
    nra. }
  pose proof u64_pos as Hu. pose proof eta64_pos as Heta.
  assert (Hfexp : (ex <= fexp64 (Zdigits2 mx + ex))%Z ->
                  bpow (fexp64 (Zdigits2 mx + ex) - 1) <= u64 * X + eta64).
  { intros Hle. unfold fexp64 in *.
    destruct (Z.max_spec (Zdigits2 mx + ex - 53) (-1074)) as [[_ ->]|[Hge ->]].
    - change (bpow (-1074 - 1)) with eta64. nra.
    - destruct (Z.eq_dec mx 0) as [->|Hne].
      + cbn [Zdigits2] in *. lia.
      + assert (Hpos : (0 < mx)%Z) by lia.
        pose proof (Zpos_ge_bpow mx Hpos) as Hb.
        replace (Zdigits2 mx + ex - 53 - 1)%Z
          with (-53 + ((Zdigits2 mx - 1) + ex))%Z by lia.
        rewrite !bpow_add. fold u64.
        pose proof (bpow_pos ex). pose proof (bpow_pos (Zdigits2 mx - 1)).
        assert (bpow (Zdigits2 mx - 1) * bpow ex <= X) by nra.
        nra. }
  assert (Herr' : Rabs (IZR m2 * bpow E - X) <= u64 * X + eta64).
  { destruct (Z_lt_le_dec (fexp64 (Zdigits2 mx + ex)) ex) as [Hlt|Hle].
    - assert (HE : E = ex) by (unfold E; lia).
      destruct (Hex Hlt) as [Hl|Hb].
      + rewrite (Hexact Hl HE). rewrite Rminus_diag, Rabs_R0. nra.
      + rewrite HE in *. lra.
    - assert (HE : E = fexp64 (Zdigits2 mx + ex)) by (unfold E; lia).
      rewrite HE in *. specialize (Hfexp Hle). lra. }
  destruct Hres as [[E0 ->]|[(m3 & e3 & -> & Hv & He3)|[-> HE]]].
  - left. exists 0. split; [lra|]. split; [simpl; ring|]. split; [reflexivity|].
    rewrite E0 in Herr'. rewrite Rmult_0_l in Herr'. exact Herr'.
  - left. exists (IZR m2 * bpow E).
    split; [pose proof (bpow_pos E); apply IZR_le in Hm2; nra|].
    split; [cbn [SF2R]; rewrite Hv; reflexivity|]. split; [reflexivity|exact Herr'].
  - right. split; [reflexivity|].
    destruct (Z_lt_le_dec (fexp64 (Zdigits2 mx + ex)) ex) as [Hlt|Hle].
    + apply Hov. unfold E in HE. lia.
    + assert (HE' : (971 <= fexp64 (Zdigits2 mx + ex))%Z) by (unfold E in HE; lia).
      unfold fexp64 in HE'.
      destruct (Z.eq_dec mx 0) as [->|Hne]; [cbn [Zdigits2] in *; unfold fexp64 in *; lia|].
      assert (Hpos : (0 < mx)%Z) by lia.
      pose proof (Zpos_ge_bpow mx Hpos) as Hb.
      assert (bpow 1023 <= bpow ((Zdigits2 mx - 1) + ex)) by (apply bpow_le; lia).
      rewrite bpow_add in H.
      pose proof (bpow_pos ex). pose proof (bpow_pos (Zdigits2 mx - 1)).
      nra.
Qed.

End RoundingError.

(** ** Multiplication *)

Section Product.
Local Open Scope R_scope.

Lemma Rabs_sgn (s : bool) : Rabs (sgn s) = 1.
Proof.
  destruct s; simpl.
  - rewrite Rabs_left by lra. lra.
  - apply Rabs_R1.
Qed.

Lemma rounds_to_op_result (s : bool) (X V : R) (r : spec_float) :
  0 < X -> V = sgn s * X -> rounds_to s X r -> op_result V r.
Proof.
  intros HX HV [(a & Ha & Hr & Hn & Herr)|[-> Hbig]].
  - left. split; [assumption|]. split.
    + unfold near. rewrite Hr, HV.
      replace (sgn s * a - sgn s * X) with (sgn s * (a - X)) by ring.
      rewrite !Rabs_mult.
      rewrite Rabs_sgn.
      rewrite (Rabs_pos_eq X) by lra. lra.
    + intros H0. rewrite Hr. destruct s; simpl in *; [nra|nra].
  - right. split.
    + exists s. split; [reflexivity|]. intros H0. destruct s; [simpl in *; nra|reflexivity].
    + rewrite HV, Rabs_mult.
      rewrite Rabs_sgn.
      rewrite (Rabs_pos_eq X) by lra. lra.
Qed.

Lemma op_result_exact (V : R) (r : spec_float) :
  is_num r = true -> SF2R r = V -> op_result V r.
Proof.
  intros Hn Hr. left. split; [assumption|]. split.
  - unfold near. rewrite Hr, Rminus_diag, Rabs_R0.
    pose proof u64_pos. pose proof eta64_pos. pose proof (Rabs_pos V). nra.
  - rewrite Hr. tauto.
Qed.

Lemma iter_xO_spec (m k : positive) :
  Zpos (Pos.iter xO m k) = (Zpos m * 2 ^ Zpos k)%Z /\
  Zpos (digits2_pos (Pos.iter xO m k)) = (Zpos (digits2_pos m) + Zpos k)%Z.
Proof.
  induction k as [|k IH] using Pos.peano_ind.
  - cbn [Pos.iter digits2_pos]. split; [lia|]. rewrite Pos2Z.inj_succ. lia.
  - rewrite Pos.iter_succ. cbn [digits2_pos]. destruct IH as [IH1 IH2].
    rewrite Pos2Z.inj_xO, IH1, !Pos2Z.inj_succ, IH2.
    rewrite Z.pow_succ_r by lia. split; lia.
Qed.

Lemma shl_align_spec (mx : positive) (ex ex' : Z) :
  let '(mz, ez) := shl_align mx ex ex' in
  ez = Z.min ex ex' /\
  (Zpos (digits2_pos mz) + ez = Zpos (digits2_pos mx) + ex)%Z /\
  Zpos mz = (Zpos mx * 2 ^ (ex - ez))%Z /\
  IZR (Zpos mz) * bpow ez = IZR (Zpos mx) * bpow ex.
Proof.
  unfold shl_align. destruct (ex' - ex)%Z as [|d|d] eqn:Ed.
  - split; [lia|]. split; [reflexivity|]. split; [|reflexivity].
    replace (ex - ex)%Z with 0%Z by lia. lia.
  - split; [lia|]. split; [reflexivity|]. split; [|reflexivity].
    replace (ex - ex)%Z with 0%Z by lia. lia.
  - destruct (iter_xO_spec mx d) as [H1 H2].
    split; [lia|]. split; [lia|].
    assert (Hd : Zpos d = (ex - ex')%Z) by lia.
    split; [rewrite H1, Hd; reflexivity|].
    rewrite H1, mult_IZR, <- bpow_IZR by lia. rewrite Rmult_assoc, <- bpow_add.
    f_equal. f_equal. lia.
Qed.

Lemma binary_round_spec (s : bool) (m : positive) (e : Z) :
  rounds_to s (IZR (Zpos m) * bpow e) (binary_round prec emax s m e).
Proof.
  unfold binary_round.
  change (fexp prec emax (Zpos (digits2_pos m) + e))
    with (fexp64 (Zpos (digits2_pos m) + e)).
  pose proof (shl_align_spec m e (fexp64 (Zpos (digits2_pos m) + e))) as H.
  destruct (shl_align m e (fexp64 (Zpos (digits2_pos m) + e))) as [mz ez].
  destruct H as (Hez & Hd & _ & Hv).
  rewrite <- Hv.
  assert (HX : 0 < IZR (Zpos mz) * bpow ez).
  { pose proof (bpow_pos ez). assert (0 < IZR (Zpos mz)) by (apply IZR_lt; lia). nra. }
  apply round_mag.
  - lia.
  - exact HX.
  - cbn [inbetween]. rewrite Rmult_assoc, bpow_cancel. ring.
  - intros _. left. reflexivity.
  - intros Hbig. cbn [Zdigits2] in *.
    assert (Hdig : (1024 <= Zpos (digits2_pos mz) + ez)%Z).
    { rewrite Hd. unfold fexp64 in Hez. lia. }
    pose proof (pos_ge_bpow mz) as Hb.
    assert (bpow 1023 <= bpow ((Zpos (digits2_pos mz) - 1) + ez)) by (apply bpow_le; lia).
    rewrite bpow_add in H.
    pose proof (bpow_pos ez). pose proof (bpow_pos (Zpos (digits2_pos mz) - 1)).
    nra.
Qed.

Lemma SF2R_finite_abs (s : bool) (m : positive) (e : Z) :
  SF2R (S754_finite s m e) = sgn s * (IZR (Zpos m) * bpow e) /\
  0 < IZR (Zpos m) * bpow e.
Proof.
  split; [reflexivity|].
  pose proof (bpow_pos e). assert (0 < IZR (Zpos m)) by (apply IZR_lt; lia). nra.
Qed.

Lemma sgn_xorb (a b : bool) : sgn (xorb a b) = sgn a * sgn b.
Proof. destruct a, b; simpl; ring. Qed.

(** The product of two numbers is the rounded product. *)
Lemma SFmul_spec (x y : spec_float) :
  valid_num x -> valid_num y ->
  op_result (SF2R x * SF2R y) (SFmul prec emax x y).
Proof.
  intros [Vx Nx] [Vy Ny].
  destruct x as [sx|sx| |sx mx ex]; try discriminate;
    destruct y as [sy|sy| |sy my ey]; try discriminate;
    try (apply op_result_exact; [reflexivity|simpl; ring]).
  unfold valid_binary in Vx, Vy. cbn [SpecFloat.valid_binary] in Vx, Vy.
  destruct (bounded_spec _ _ Vx) as (Hdx & Hex & Hnx).
  destruct (bounded_spec _ _ Vy) as (Hdy & Hey & Hny).
  destruct (SF2R_finite_abs sx mx ex) as [Ex Px].
  destruct (SF2R_finite_abs sy my ey) as [Ey Py].
  cbn [SFmul].
  apply rounds_to_op_result with (s := xorb sx sy)
    (X := IZR (Zpos mx) * bpow ex * (IZR (Zpos my) * bpow ey)).
  - nra.
  - rewrite Ex, Ey, sgn_xorb. ring.
  - assert (EX : IZR (Zpos mx) * bpow ex * (IZR (Zpos my) * bpow ey) =
                 IZR (Zpos (mx * my)) * bpow (ex + ey)).
    { rewrite Pos2Z.inj_mul, mult_IZR, bpow_add. ring. }
    rewrite EX. apply round_mag.
    + lia.
    + rewrite <- EX. nra.
    + cbn [inbetween]. rewrite Rmult_assoc, bpow_cancel. ring.
    + intros _. left. reflexivity.
    + intros Hbig. rewrite <- EX.
      assert (Zpos (digits2_pos mx) = 53%Z) by (apply Hnx; lia).
      assert (Zpos (digits2_pos my) = 53%Z) by (apply Hny; lia).
      pose proof (pos_ge_bpow mx) as Hbx. pose proof (pos_ge_bpow my) as Hby.
      rewrite H in Hbx. rewrite H0 in Hby.
      change (53 - 1)%Z with 52%Z in *.
      assert (bpow 1023 <= bpow (52 + ex) * bpow (52 + ey)).
      { rewrite <- bpow_add. apply bpow_le. lia. }
      rewrite !bpow_add in H1.
      pose proof (bpow_pos ex). pose proof (bpow_pos ey). pose proof (bpow_pos 52).
      assert (bpow 52 * bpow ex <= IZR (Zpos mx) * bpow ex) by nra.
      assert (bpow 52 * bpow ey <= IZR (Zpos my) * bpow ey) by nra.
      assert (0 < bpow 52 * bpow ex) by nra.
      assert (0 < bpow 52 * bpow ey) by nra.
      nra.
Qed.

End Product.

(** ** Addition and division *)

Section SumAndQuotient.
Local Open Scope R_scope.

Lemma cond_Zopp_IZR (s : bool) (m : Z) : IZR (cond_Zopp s m) = sgn s * IZR m.
Proof. destruct s; simpl; [rewrite opp_IZR|]; ring. Qed.

(** The sum of two numbers is the rounded sum. *)
Lemma SFadd_spec (x y : spec_float) :
  valid_num x -> valid_num y ->
  op_result (SF2R x + SF2R y) (SFadd prec emax x y).
Proof.
  intros [Vx Nx] [Vy Ny].
  destruct x as [sx|sx| |sx mx ex]; try discriminate;
    destruct y as [sy|sy| |sy my ey]; try discriminate.
  - destruct sx, sy; apply op_result_exact; try reflexivity; simpl; ring.
  - apply op_result_exact; [reflexivity|simpl; ring].
  - apply op_result_exact; [reflexivity|simpl; ring].
  - cbn [SFadd]. cbv zeta.
    pose proof (shl_align_spec mx ex (Z.min ex ey)) as Hx.
    pose proof (shl_align_spec my ey (Z.min ex ey)) as Hy.
    destruct (shl_align mx ex (Z.min ex ey)) as [mx' ex'].
    destruct (shl_align my ey (Z.min ex ey)) as [my' ey'].
    cbn [fst].
    destruct Hx as (Hex' & _ & _ & Hvx). destruct Hy as (Hey' & _ & _ & Hvy).
    assert (ex' = Z.min ex ey) by lia. assert (ey' = Z.min ex ey) by lia.
    subst ex' ey'.
    set (ez := Z.min ex ey) in *.
    set (zsum := (cond_Zopp sx (Zpos mx') + cond_Zopp sy (Zpos my'))%Z).
    assert (HV : SF2R (S754_finite sx mx ex) + SF2R (S754_finite sy my ey) =
                 IZR zsum * bpow ez).
    { unfold zsum. rewrite plus_IZR, !cond_Zopp_IZR. cbn [SF2R].
      rewrite H in Hvx. rewrite H0 in Hvy.
      rewrite <- Hvx, <- Hvy. ring. }
    rewrite HV. unfold binary_normalize.
    destruct zsum as [|m|m].
    + apply op_result_exact; [reflexivity|simpl; ring].
    + apply rounds_to_op_result with (s := false) (X := IZR (Zpos m) * bpow ez).
      * pose proof (bpow_pos ez). assert (0 < IZR (Zpos m)) by (apply IZR_lt; lia). nra.
      * simpl. ring.
      * apply binary_round_spec.
    + apply rounds_to_op_result with (s := true) (X := IZR (Zpos m) * bpow ez).
      * pose proof (bpow_pos ez). assert (0 < IZR (Zpos m)) by (apply IZR_lt; lia). nra.
      * change (Zneg m) with (- Zpos m)%Z. rewrite opp_IZR. simpl. ring.
      * apply binary_round_spec.
Qed.

(** The location of a remainder [k] in a division by [n]. *)
Lemma new_location_spec (n k q : Z) :
  (0 < n)%Z -> (0 <= k < n)%Z ->
  inbetween (IZR q + IZR k / IZR n) q (new_location n k).
Proof.
  intros Hn Hk.
  assert (Hn' : 0 < IZR n) by (apply IZR_lt; lia).
  assert (Hk0 : 0 <= IZR k) by (apply IZR_le; lia).
  assert (Hdiv : forall c : R, (IZR k / IZR n < c <-> IZR k < c * IZR n) /\
                               (c < IZR k / IZR n <-> c * IZR n < IZR k) /\
                               (IZR k / IZR n = c <-> IZR k = c * IZR n)).
  { intros c. unfold Rdiv.
    assert (Hi : 0 < / IZR n) by (apply Rinv_0_lt_compat; assumption).
    assert (Hc : IZR k * / IZR n * IZR n = IZR k) by (field; lra).
    repeat split; intros H.
    - rewrite <- Hc. nra.
    - assert (IZR k * / IZR n < c * IZR n * / IZR n) by nra.
      replace (c * IZR n * / IZR n) with c in H0 by (field; lra). exact H0.
    - rewrite <- Hc. nra.
    - assert (c * IZR n * / IZR n < IZR k * / IZR n) by nra.
      replace (c * IZR n * / IZR n) with c in H0 by (field; lra). exact H0.
    - rewrite <- Hc, H. reflexivity.
    - rewrite H. field. lra. }
  unfold new_location.
  destruct (Z.even n) eqn:Ev.
  - unfold new_location_even. destruct (Z.eqb_spec k 0) as [->|Hne].
    + cbn [inbetween]. unfold Rdiv. rewrite Rmult_0_l. ring.
    + assert (0 < IZR k) by (apply IZR_lt; lia).
      destruct (Z.compare_spec (2 * k) n) as [He|Hl|Hg]; cbn [inbetween].
      * f_equal. apply (Hdiv (/ 2)). rewrite <- He, mult_IZR. lra.
      * apply IZR_lt in Hl. rewrite mult_IZR in Hl.
        split.
        -- assert (0 < IZR k / IZR n) by (apply (Hdiv 0); lra). lra.
        -- assert (IZR k / IZR n < / 2) by (apply (Hdiv (/ 2)); lra). lra.
      * apply IZR_lt in Hg. rewrite mult_IZR in Hg.
        split.
        -- assert (/ 2 < IZR k / IZR n) by (apply (Hdiv (/ 2)); lra). lra.
        -- assert (IZR k / IZR n < 1).
           { apply (Hdiv 1). destruct Hk as [_ Hk]. apply IZR_lt in Hk. lra. }
           lra.
  - unfold new_location_odd. destruct (Z.eqb_spec k 0) as [->|Hne].
    + cbn [inbetween]. unfold Rdiv. rewrite Rmult_0_l. ring.
    + assert (0 < IZR k) by (apply IZR_lt; lia).
      assert (Hodd : (2 * k <> n)%Z).
      { intros <-. rewrite Z.even_mul in Ev. discriminate. }
      assert (Hlt1 : IZR k / IZR n < 1).
      { apply (Hdiv 1). destruct Hk as [_ Hk]. apply IZR_lt in Hk. lra. }
      destruct (Z.compare_spec (2 * k + 1) n) as [He|Hl|Hg]; cbn [inbetween].
      * assert (Hl : (2 * k < n)%Z) by lia.
        apply IZR_lt in Hl. rewrite mult_IZR in Hl.
        split.
        -- assert (0 < IZR k / IZR n) by (apply (Hdiv 0); lra). lra.
        -- assert (IZR k / IZR n < / 2) by (apply (Hdiv (/ 2)); lra). lra.
      * assert (Hl' : (2 * k < n)%Z) by lia.
        apply IZR_lt in Hl'. rewrite mult_IZR in Hl'.
        split.
        -- assert (0 < IZR k / IZR n) by (apply (Hdiv 0); lra). lra.
        -- assert (IZR k / IZR n < / 2) by (apply (Hdiv (/ 2)); lra). lra.
      * assert (Hg' : (n < 2 * k)%Z) by lia.
        apply IZR_lt in Hg'. rewrite mult_IZR in Hg'.
        split.
        -- assert (/ 2 < IZR k / IZR n) by (apply (Hdiv (/ 2)); lra). lra.
        -- lra.
Qed.

(** The quotient by a number other than zero is the rounded quotient. *)
Lemma SFdiv_spec (x y : spec_float) :
  valid_num x -> valid_num y -> SF2R y <> 0 ->
  op_result (SF2R x / SF2R y) (SFdiv prec emax x y).
Proof.
  intros [Vx Nx] [Vy Ny] Hy0.
  destruct y as [sy|sy| |sy my ey]; try discriminate; [simpl in Hy0; lra|].
  destruct x as [sx|sx| |sx mx ex]; try discriminate.
  - apply op_result_exact; [reflexivity|]. simpl. unfold Rdiv. ring.
  - unfold valid_binary in Vx, Vy. cbn [SpecFloat.valid_binary] in Vx, Vy.
    destruct (bounded_spec _ _ Vx) as (Hdx & Hex & Hnx).
    destruct (bounded_spec _ _ Vy) as (Hdy & Hey & Hny).
    destruct (SF2R_finite_abs sx mx ex) as [Ex Px].
    destruct (SF2R_finite_abs sy my ey) as [Ey Py].
    set (X := IZR (Zpos mx) * bpow ex / (IZR (Zpos my) * bpow ey)).
    assert (HXpos : 0 < X) by (apply Rdiv_lt_0_compat; assumption).
    cbn [SFdiv]. unfold SFdiv_core_binary. cbn [Zdigits2].
    change (fexp prec emax (Zpos (digits2_pos mx) + ex - (Zpos (digits2_pos my) + ey)))
      with (fexp64 (Zpos (digits2_pos mx) + ex - (Zpos (digits2_pos my) + ey))).
    set (D := (Zpos (digits2_pos mx) + ex - (Zpos (digits2_pos my) + ey))%Z).
    set (e' := Z.min (fexp64 D) (ex - ey)).
    set (s := (ex - ey - e')%Z).
    assert (Hs : (0 <= s)%Z) by (unfold s, e'; lia).
    set (m' := match s with
               | 0%Z => Zpos mx
               | Zpos _ => Z.shiftl (Zpos mx) s
               | Zneg _ => 0%Z
               end).
    assert (Hm' : m' = (Zpos mx * 2 ^ s)%Z).
    { unfold m'. destruct s as [|p|p] eqn:Es; [lia| |lia].
      rewrite Z.shiftl_mul_pow2 by lia. reflexivity. }
    pose proof (Z_div_mod m' (Zpos my) ltac:(lia)) as Hdm.
    destruct (Z.div_eucl m' (Zpos my)) as [q r]. destruct Hdm as [Hq Hr].
    assert (Hm'pos : (0 < m')%Z).
    { rewrite Hm'. assert (0 < 2 ^ s)%Z by (apply Z.pow_pos_nonneg; lia). lia. }
    assert (Hq0 : (0 <= q)%Z) by nia.
    (* the magnitude of the quotient *)
    assert (HXlow : bpow (D - 1) <= X).
    { unfold X, D.
      pose proof (pos_ge_bpow mx) as Hbx.
      destruct (digits2_pos_bounds my) as [_ Hby].
      assert (Hby' : IZR (Zpos my) <= bpow (Zpos (digits2_pos my))).
      { rewrite bpow_IZR by lia. apply IZR_le. lia. }
      replace (Zpos (digits2_pos mx) + ex - (Zpos (digits2_pos my) + ey) - 1)%Z
        with ((Zpos (digits2_pos mx) - 1 + ex) + - (Zpos (digits2_pos my) + ey))%Z by lia.
      rewrite bpow_add, bpow_opp. rewrite (bpow_add _ ex), (bpow_add _ ey).
      pose proof (bpow_pos ex). pose proof (bpow_pos ey).
      pose proof (bpow_pos (Zpos (digits2_pos mx) - 1)).
      pose proof (bpow_pos (Zpos (digits2_pos my))).
      unfold Rdiv. apply Rmult_le_compat; try nra.
      - left. apply Rinv_0_lt_compat. nra.
      - apply Rinv_le_contravar; nra. }
    apply rounds_to_op_result with (s := xorb sx sy) (X := X).
    + exact HXpos.
    + rewrite Ex, Ey. unfold X.
      assert (IZR (Zpos my) <> 0) by (apply Rgt_not_eq, IZR_lt; lia).
      assert (bpow ey <> 0) by (apply Rgt_not_eq, bpow_pos).
      destruct sx, sy; simpl; field; auto.
    + apply round_mag.
      * exact Hq0.
      * exact HXpos.
      * assert (EX : X * bpow (- e') = IZR q + IZR r / IZR (Zpos my)).
        { assert (IZR m' = IZR (Zpos my) * IZR q + IZR r)
            by (rewrite Hq, plus_IZR, mult_IZR; reflexivity).
          assert (IZR m' = IZR (Zpos mx) * bpow s)
            by (rewrite Hm', mult_IZR, <- bpow_IZR by lia; reflexivity).
          assert (Hmy : 0 < IZR (Zpos my)) by (apply IZR_lt; lia).
          assert (Hbs : bpow ex * bpow (- e') = bpow s * bpow ey).
          { rewrite <- !bpow_add. f_equal. unfold s. lia. }
          unfold X. pose proof (bpow_pos ey).
          replace (IZR (Zpos mx) * bpow ex / (IZR (Zpos my) * bpow ey) * bpow (- e'))
            with (IZR (Zpos mx) * (bpow ex * bpow (- e')) / (IZR (Zpos my) * bpow ey))
            by (field; lra).
          rewrite Hbs. replace (IZR (Zpos mx) * (bpow s * bpow ey))
            with (IZR m' * bpow ey) by (rewrite H0; ring).
          rewrite H. field. lra. }
        rewrite EX. apply new_location_spec; lia.
      * intros _. right.
        assert (He' : (e' <= fexp64 D)%Z) by (unfold e'; lia).
        unfold fexp64 in He'.
        pose proof u64_pos. pose proof eta64_pos.
        destruct (Z_le_gt_dec (e' - 1) (-1075)) as [Hsmall|Hlarge].
        -- assert (bpow (e' - 1) <= eta64) by (apply bpow_le; lia). nra.
        -- assert (bpow (e' - 1) <= bpow (-53 + (D - 1))) by (apply bpow_le; lia).
           rewrite bpow_add in H1. fold u64 in H1. nra.
      * intros Hbig.
        assert (He' : (e' <= fexp64 D)%Z) by (unfold e'; lia).
        unfold fexp64 in He'.
        assert (bpow 1023 <= bpow (D - 1)) by (apply bpow_le; lia). lra.
Qed.

End SumAndQuotient.

(** ** Square root *)

Section SquareRoot.
Local Open Scope R_scope.

Lemma sqrt_bpow2 (e : Z) : sqrt (bpow (2 * e)) = bpow e.
Proof.
  replace (2 * e)%Z with (e + e)%Z by lia. rewrite bpow_add.
  apply sqrt_square. left. apply bpow_pos.
Qed.

(** The square root of a number that is not negative is the rounded
    square root. *)
Lemma SFsqrt_spec (x : spec_float) :
  valid_num x -> (forall m e, x <> S754_finite true m e) ->
  let r := SFsqrt prec emax x in
  is_num r = true /\ near (sqrt (SF2R x)) (SF2R r) /\ 0 <= SF2R r.
Proof.
  intros [Vx Nx] Hpos.
  pose proof u64_pos as Hu. pose proof eta64_pos as Heta.
  destruct x as [sx|sx| |sx mx ex]; try discriminate.
  - cbn. split; [reflexivity|]. split; [|lra].
    unfold near. rewrite sqrt_0, Rminus_diag, Rabs_R0. lra.
  - destruct sx; [exfalso; apply (Hpos mx ex); reflexivity|].
    unfold valid_binary in Vx. cbn [SpecFloat.valid_binary] in Vx.
    destruct (bounded_spec _ _ Vx) as (Hdx & Hex & Hnx).
    pose proof (finite_lt_bpow _ _ Vx) as Hlt.
    destruct (SF2R_finite_abs false mx ex) as [Ex Px].
    set (V := IZR (Zpos mx) * bpow ex) in *.
    assert (EV : SF2R (S754_finite false mx ex) = V) by (rewrite Ex; simpl; ring).
    rewrite EV. set (X := sqrt V).
    assert (HX : 0 < X) by (apply sqrt_lt_R0; assumption).
    assert (HXX : X * X = V) by (apply sqrt_sqrt; lra).
    cbn [SFsqrt]. unfold SFsqrt_core_binary. cbn [Zdigits2].
    change (fexp prec emax (Z.div2 (Zpos (digits2_pos mx) + ex + 1)))
      with (fexp64 (Z.div2 (Zpos (digits2_pos mx) + ex + 1))).
    set (k := (Zpos (digits2_pos mx) + ex + 1)%Z).
    set (e' := Z.min (fexp64 (Z.div2 k)) (Z.div2 ex)).
    assert (Hdiv2k : (2 * Z.div2 k <= k)%Z) by (rewrite Z.div2_div; apply Z.mul_div_le; lia).
    assert (Hdiv2e : (2 * Z.div2 ex <= ex)%Z) by (rewrite Z.div2_div; apply Z.mul_div_le; lia).
    set (s := (ex - 2 * e')%Z).
    assert (Hs : (0 <= s)%Z) by (unfold s, e'; lia).
    set (m' := match s with
               | 0%Z => Zpos mx
               | Zpos _ => Z.shiftl (Zpos mx) s
               | Zneg _ => 0%Z
               end).
    assert (Hm' : m' = (Zpos mx * 2 ^ s)%Z).
    { unfold m'. destruct s as [|p|p] eqn:Es; [lia| |lia].
      rewrite Z.shiftl_mul_pow2 by lia. reflexivity. }
    assert (Hm'pos : (0 < m')%Z).
    { rewrite Hm'. assert (0 < 2 ^ s)%Z by (apply Z.pow_pos_nonneg; lia). lia. }
    pose proof (Z.sqrtrem_spec m' ltac:(lia)) as Hsq.
    destruct (Z.sqrtrem m') as [q r]. destruct Hsq as [Hq Hr].
    assert (Hq0 : (0 <= q)%Z) by lia.
    set (t := sqrt (IZR m')).
    assert (Ht0 : 0 <= t) by apply sqrt_pos.
    assert (Htt : t * t = IZR q * IZR q + IZR r).
    { unfold t. rewrite sqrt_sqrt by (apply IZR_le; lia).
      rewrite Hq, plus_IZR, mult_IZR. reflexivity. }
    assert (EX : X * bpow (- e') = t).
    { unfold X, t.
      assert (V = IZR m' * bpow (2 * e')) as ->.
      { unfold V. rewrite Hm', mult_IZR, <- bpow_IZR by lia.
        rewrite Rmult_assoc, <- bpow_add. f_equal. f_equal. unfold s. lia. }
      rewrite sqrt_mult; [|apply IZR_le; lia|left; apply bpow_pos].
      rewrite sqrt_bpow2, Rmult_assoc, bpow_cancel. ring. }
    assert (Hq0' : 0 <= IZR q) by (apply IZR_le; assumption).
    assert (Hr0' : 0 <= IZR r) by (apply IZR_le; lia).
    assert (Hr2 : IZR r <= 2 * IZR q).
    { rewrite <- mult_IZR. apply IZR_le. lia. }
    assert (Hround : rounds_to false X
              (binary_round_aux prec emax false q e'
                 (if (r =? 0)%Z then loc_Exact
                  else loc_Inexact (if (r <=? q)%Z then Lt else Gt)))).
    { apply round_mag.
      - exact Hq0.
      - exact HX.
      - rewrite EX. destruct (Z.eqb_spec r 0) as [->|Hne].
        + cbn [inbetween]. assert (t * t = IZR q * IZR q) by lra.
          assert (q <> 0)%Z by (intros ->; lia).
          assert (1 <= IZR q) by (apply IZR_le; lia).
          apply Rle_antisym; nra.
        + assert (1 <= IZR r) by (apply IZR_le; lia).
          destruct (Z.leb_spec r q) as [Hle|Hgt]; cbn [inbetween].
          * apply IZR_le in Hle. split; nra.
          * assert (IZR q + 1 <= IZR r) by (rewrite <- plus_IZR; apply IZR_le; lia).
            split; nra.
      - intros _. right.
        assert (He' : (e' <= fexp64 (Z.div2 k))%Z) by (unfold e'; lia).
        unfold fexp64 in He'.
        destruct (Z_le_gt_dec (e' - 1) (-1075)) as [Hsmall|Hlarge].
        + assert (bpow (e' - 1) <= eta64) by (apply bpow_le; lia). nra.
        + assert (bpow (e' - 1) <= bpow (-53 + (Z.div2 k - 1))) by (apply bpow_le; lia).
          rewrite bpow_add in H. fold u64 in H.
          assert (bpow (Z.div2 k - 1) <= X).
          { rewrite <- (sqrt_bpow2 (Z.div2 k - 1)). unfold X.
            apply sqrt_le_1_alt.
            pose proof (pos_ge_bpow mx) as Hb.
            assert (bpow (2 * (Z.div2 k - 1)) <= bpow ((Zpos (digits2_pos mx) - 1) + ex))
              by (apply bpow_le; unfold k in *; lia).
            rewrite bpow_add in H0. unfold V.
            pose proof (bpow_pos ex). nra. }
          pose proof (bpow_pos (Z.div2 k - 1)). nra.
      - intros Hbig. unfold e' in Hbig. lia. }
    destruct Hround as [(a & Ha & Hr' & Hn & Herr)|[_ Hbig]].
    + split; [exact Hn|]. rewrite Hr'. simpl.
      split; [|lra]. unfold near.
      rewrite Rmult_1_l, (Rabs_pos_eq X) by lra. exact Herr.
    + exfalso.
      assert (bpow 1023 * bpow 1023 <= X * X).
      { pose proof (bpow_pos 1023). nra. }
      rewrite <- bpow_add in H. rewrite HXX in H.
      assert (bpow 1024 < bpow (1023 + 1023)) by (apply bpow_lt; lia).
      unfold V in *. lra.
Qed.

End SquareRoot.

(** ** Comparison *)

Section Comparison.
Local Open Scope R_scope.

Lemma cmp_mag_lt (m1 : positive) (e1 : Z) (m2 : positive) (e2 : Z) :
  SpecFloat.bounded prec emax m1 e1 = true ->
  SpecFloat.bounded prec emax m2 e2 = true ->
  (e1 < e2)%Z ->
  IZR (Zpos m1) * bpow e1 < IZR (Zpos m2) * bpow e2.
Proof.
  intros H1 H2 He.
  destruct (bounded_spec _ _ H1) as (Hd1 & He1 & _).
  destruct (bounded_spec _ _ H2) as (Hd2 & He2 & Hn2).
  assert (Hd : Zpos (digits2_pos m2) = 53%Z) by (apply Hn2; lia).
  pose proof (pos_ge_bpow m2) as Hb2. rewrite Hd in Hb2.
  change (53 - 1)%Z with 52%Z in Hb2.
  destruct (digits2_pos_bounds m1) as [_ Hu1].
  assert (IZR (Zpos m1) < bpow 53).
  { rewrite bpow_IZR by lia. apply IZR_lt.
    eapply Z.lt_le_trans; [exact Hu1|]. apply Z.pow_le_mono_r; lia. }
  assert (bpow (53 + e1) <= bpow (52 + e2)) by (apply bpow_le; lia).
  rewrite !bpow_add in H0.
  pose proof (bpow_pos e1). pose proof (bpow_pos e2).
  pose proof (bpow_pos 52). pose proof (bpow_pos 53).
  assert (IZR (Zpos m1) * bpow e1 < bpow 53 * bpow e1) by nra.
  assert (bpow 52 * bpow e2 <= IZR (Zpos m2) * bpow e2) by nra.
  lra.
Qed.

Lemma cmp_mag (m1 : positive) (e1 : Z) (m2 : positive) (e2 : Z) :
  SpecFloat.bounded prec emax m1 e1 = true ->
  SpecFloat.bounded prec emax m2 e2 = true ->
  cmp_holds (match Z.compare e1 e2 with
             | Lt => Lt
             | Gt => Gt
             | Eq => Pos.compare_cont Eq m1 m2
             end)
            (IZR (Zpos m1) * bpow e1) (IZR (Zpos m2) * bpow e2).
Proof.
  intros H1 H2. destruct (Z.compare_spec e1 e2) as [->|Hl|Hg].
  - change (Pos.compare_cont Eq m1 m2) with (Pos.compare m1 m2).
    pose proof (bpow_pos e2).
    destruct (Pos.compare_spec m1 m2) as [->|Hl|Hg]; cbn [cmp_holds].
    + reflexivity.
    + assert (IZR (Zpos m1) < IZR (Zpos m2)) by (apply IZR_lt; lia). nra.
    + assert (IZR (Zpos m2) < IZR (Zpos m1)) by (apply IZR_lt; lia). nra.
  - cbn [cmp_holds]. apply cmp_mag_lt; assumption.
  - cbn [cmp_holds]. apply cmp_mag_lt; assumption.
Qed.

Lemma cmp_holds_opp (c : comparison) (a b : R) :
  cmp_holds c a b -> cmp_holds (CompOpp c) (- a) (- b).
Proof. destruct c; simpl; lra. Qed.

(** Two numbers compare as the reals they are. *)
Lemma SFcompare_spec (x y : spec_float) :
  valid_num x -> valid_num y ->
  exists c : comparison,
    SFcompare x y = Some c /\ cmp_holds c (SF2R x) (SF2R y).
Proof.
  intros [Vx Nx] [Vy Ny].
  destruct x as [sx|sx| |sx mx ex]; try discriminate;
    destruct y as [sy|sy| |sy my ey]; try discriminate; cbn [SFcompare].
  - exists Eq. split; reflexivity.
  - destruct (SF2R_finite_abs sy my ey) as [Ey Py].
    exists (if sy then Gt else Lt). split; [reflexivity|].
    rewrite Ey. destruct sy; simpl; lra.
  - destruct (SF2R_finite_abs sx mx ex) as [Ex Px].
    exists (if sx then Lt else Gt). split; [reflexivity|].
    rewrite Ex. destruct sx; simpl; lra.
  - unfold valid_binary in Vx, Vy. cbn [SpecFloat.valid_binary] in Vx, Vy.
    destruct (SF2R_finite_abs sx mx ex) as [Ex Px].
    destruct (SF2R_finite_abs sy my ey) as [Ey Py].
    pose proof (cmp_mag mx ex my ey Vx Vy) as H.
    eexists. split; [reflexivity|]. rewrite Ex, Ey.
    destruct sx, sy; cbn [sgn cmp_holds].
    + destruct (Z.compare ex ey); cbn [CompOpp cmp_holds] in *;
        try (apply cmp_holds_opp in H; cbn [CompOpp] in H);
        try lra.
      destruct (Pos.compare_cont Eq mx my); cbn [CompOpp cmp_holds] in *; lra.
    + lra.
    + lra.
    + replace (1 * (IZR (Zpos mx) * bpow ex)) with (IZR (Zpos mx) * bpow ex) by ring.
      replace (1 * (IZR (Zpos my) * bpow ey)) with (IZR (Zpos my) * bpow ey) by ring.
      exact H.
Qed.

End Comparison.

(** ** The error of a length and of a rescaled vector, over the reals *)

Section ErrorBounds.
Local Open Scope R_scope.

Lemma u64_val : u64 = / 9007199254740992.
Proof. unfold u64, bpow. simpl. lra. Qed.

Lemma u64_small : u64 <= / 1000.
Proof. rewrite u64_val. lra. Qed.

Lemma tiny64_pos : 0 < tiny64.
Proof. apply bpow_pos. Qed.

Lemma eta_le_tiny : eta64 <= tiny64.
Proof. apply bpow_le. lia. Qed.

Lemma tiny_sq : 32 * eta64 = tiny64 * tiny64.
Proof.
  unfold tiny64, eta64. rewrite <- bpow_add.
  replace (-535 + -535)%Z with (5 + -1075)%Z by lia.
  rewrite bpow_add. f_equal. unfold bpow. simpl. lra.
Qed.

Lemma eta_le_u : 6 * eta64 <= u64 * u64 / 64.
Proof.
  assert (8 * eta64 <= u64 * u64 / 64).
  { unfold eta64, u64.
    assert (bpow (-6) = / 64) by (unfold bpow; simpl; lra).
    assert (bpow 3 = 8) by (unfold bpow; simpl; lra).
    unfold Rdiv. rewrite <- H, <- H0, <- !bpow_add. apply bpow_le. lia. }
  pose proof eta64_pos. lra.
Qed.

Lemma tiny_le_u : 64 * tiny64 <= u64 * u64.
Proof.
  unfold tiny64, u64.
  assert (bpow 6 = 64) by (unfold bpow; simpl; lra).
  rewrite <- H, <- !bpow_add. apply bpow_le. lia.
Qed.

Lemma eta_bpow1024 : eta64 * bpow 1024 = 4 * u64.
Proof.
  unfold eta64, u64. rewrite <- bpow_add.
  replace (-1075 + 1024)%Z with (2 + -53)%Z by lia.
  rewrite bpow_add. f_equal. unfold bpow. simpl. lra.
Qed.

Lemma Rabs_le_both (a b : R) : Rabs a <= b -> - b <= a <= b.
Proof. unfold Rabs. destruct (Rcase_abs a); lra. Qed.

Lemma near_lower (x r : R) : 0 <= x -> near x r -> (1 - u64) * x - eta64 <= r.
Proof.
  unfold near. intros Hx H. rewrite (Rabs_pos_eq x) in H by assumption.
  apply Rabs_le_both in H. lra.
Qed.

Lemma near_upper (x r : R) : 0 <= x -> near x r -> r <= (1 + u64) * x + eta64.
Proof.
  unfold near. intros Hx H. rewrite (Rabs_pos_eq x) in H by assumption.
  apply Rabs_le_both in H. lra.
Qed.

Lemma near_abs (x r : R) : near x r -> Rabs r <= (1 + u64) * Rabs x + eta64.
Proof.
  unfold near. intros H.
  pose proof (Rabs_triang (r - x) x) as T.
  replace (r - x + x) with r in T by ring. lra.
Qed.

Lemma sq_le_le (a b : R) : 0 <= a -> 0 <= b -> a * a <= b * b -> a <= b.
Proof. intros Ha Hb H. destruct (Rle_lt_dec a b); [assumption|nra]. Qed.

Lemma norm3_pos (a b c : R) : 0 <= norm3 a b c.
Proof. apply sqrt_pos. Qed.

Lemma norm3_sq (a b c : R) : norm3 a b c * norm3 a b c = a * a + b * b + c * c.
Proof. apply sqrt_sqrt. nra. Qed.

Lemma abs_le_norm3 (a b c : R) :
  Rabs a <= norm3 a b c /\ Rabs b <= norm3 a b c /\ Rabs c <= norm3 a b c.
Proof.
  pose proof (norm3_pos a b c) as Hn. pose proof (norm3_sq a b c) as Hs.
  repeat split; apply sq_le_le; try apply Rabs_pos; try assumption;
    rewrite <- Rabs_mult, Rabs_pos_eq; nra.
Qed.

(** The computed length of a vector is not much below its norm. *)
Lemma length_lower (ax ay az qx qy qz s1 s2 L : R) :
  0 <= qx -> 0 <= qy -> 0 <= qz -> 0 <= s1 -> 0 <= s2 -> 0 <= L ->
  near (ax * ax) qx -> near (ay * ay) qy -> near (az * az) qz ->
  near (qx + qy) s1 -> near (s1 + qz) s2 -> near (sqrt s2) L ->
  norm3 ax ay az * ((1 - u64) * (1 - u64) * (1 - u64)) <= L + tiny64.
Proof.
  intros Hqx Hqy Hqz Hs1 Hs2 HL Nx Ny Nz N1 N2 NL.
  pose proof u64_pos as Hu. pose proof u64_small as Hus.
  pose proof eta64_pos as He. pose proof tiny64_pos as Ht.
  pose proof eta_le_tiny as Het. pose proof tiny_sq as Hts.
  apply near_lower in Nx; [|nra]. apply near_lower in Ny; [|nra].
  apply near_lower in Nz; [|nra]. apply near_lower in N1; [|nra].
  apply near_lower in N2; [|nra].
  apply near_lower in NL; [|apply sqrt_pos].
  set (t := sqrt s2) in *.
  assert (Ht0 : 0 <= t) by apply sqrt_pos.
  assert (Htt : t * t = s2) by (apply sqrt_sqrt; assumption).
  set (S := ax * ax + ay * ay + az * az).
  assert (HS : 0 <= S) by (unfold S; nra).
  set (w := 1 - u64) in *.
  assert (Hw : 0 < w <= 1) by (unfold w; lra).
  assert (Hw2 : 0 < w * w <= 1) by nra.
  assert (Hw3 : 0 < w * w * w <= 1) by nra.
  (* the sum of the squares *)
  assert (H1 : w * w * w * S - 5 * eta64 <= s2).
  { assert (w * (ax * ax) + w * (ay * ay) - 2 * eta64 <= qx + qy) by lra.
    assert (w * (w * (ax * ax) + w * (ay * ay) - 2 * eta64) - eta64 <= s1) by nra.
    assert (w * (w * (w * (ax * ax) + w * (ay * ay) - 2 * eta64) - eta64 + (w * (az * az) - eta64)) - eta64 <= s2) by nra.
    unfold S.
    assert (w * w * eta64 <= eta64) by nra.
    assert (w * eta64 <= eta64) by nra.
    assert (w * w * (az * az) >= w * w * w * (az * az)) by nra.
    nra. }
  pose proof (norm3_pos ax ay az) as Hn. pose proof (norm3_sq ax ay az) as Hnn.
  fold S in Hnn. set (N := norm3 ax ay az) in *.
  apply sq_le_le; [nra|lra|].
  (* N^2 w^6 <= (w t)^2 + 5 eta <= (L + eta)^2 + 5 eta <= (L + tiny)^2 *)
  assert (H2 : N * (w * w * w) * (N * (w * w * w)) <= (w * w * w) * (s2 + 5 * eta64)).
  { replace (N * (w * w * w) * (N * (w * w * w))) with ((w * w * w) * ((w * w * w) * (N * N))) by ring.
    rewrite Hnn. apply Rmult_le_compat_l; [lra|]. lra. }
  assert (H3 : (w * w * w) * (s2 + 5 * eta64) <= (w * t) * (w * t) + 5 * eta64).
  { rewrite <- Htt.
    assert (w * w * w * (t * t) <= w * w * (t * t)) by nra.
    assert (w * w * w * (5 * eta64) <= 5 * eta64) by nra.
    nra. }
  assert (H4 : w * t <= L + eta64) by lra.
  assert (Hwt : 0 <= w * t) by (apply Rmult_le_pos; lra).
  assert (H5 : (w * t) * (w * t) <= (L + eta64) * (L + eta64))
    by (apply Rmult_le_compat; assumption).
  assert (H6 : (L + eta64) * (L + eta64) + 5 * eta64 <= (L + tiny64) * (L + tiny64)).
  { assert (eta64 * eta64 <= eta64).
    { assert (eta64 <= 1) by (unfold eta64; change 1 with (bpow 0); apply bpow_le; lia). nra. }
    nra. }
  lra.
Qed.

Lemma sq_abs (v : R) : v * v = Rabs v * Rabs v.
Proof. unfold Rabs. destruct (Rcase_abs v); ring. Qed.

Lemma sq_mono (a b : R) : 0 <= a <= b -> a * a <= b * b.
Proof. intros [H0 H1]. apply Rmult_le_compat; lra. Qed.

Lemma coord_sq (K N c a v : R) :
  0 <= K -> 0 <= c -> 0 <= N ->
  Rabs v <= K * Rabs a + c -> Rabs a <= N ->
  v * v <= K * K * (a * a) + 2 * (K * N * c) + c * c.
Proof.
  intros HK Hc HN Hv Ha. rewrite (sq_abs v), (sq_abs a).
  pose proof (Rabs_pos a) as A0. pose proof (Rabs_pos v) as V0.
  set (A := Rabs a) in *. set (V := Rabs v) in *.
  assert (HKA : 0 <= K * A) by (apply Rmult_le_pos; assumption).
  assert (H1 : V * V <= (K * A + c) * (K * A + c)) by (apply sq_mono; lra).
  assert (HKc : 0 <= K * c) by (apply Rmult_le_pos; assumption).
  assert (H2 : K * c * A <= K * c * N) by (apply Rmult_le_compat_l; assumption).
  replace ((K * A + c) * (K * A + c))
    with (K * K * (A * A) + 2 * (K * c * A) + c * c) in H1 by ring.
  replace (K * N * c) with (K * c * N) by ring. lra.
Qed.

Lemma norm3_affine (K N c ax ay az wx wy wz : R) :
  0 <= K -> 0 <= c -> N = norm3 ax ay az ->
  Rabs wx <= K * Rabs ax + c -> Rabs wy <= K * Rabs ay + c ->
  Rabs wz <= K * Rabs az + c ->
  norm3 wx wy wz <= K * N + 3 * c.
Proof.
  intros HK Hc HN Hx Hy Hz.
  assert (HN0 : 0 <= N) by (rewrite HN; apply norm3_pos).
  destruct (abs_le_norm3 ax ay az) as (Hax & Hay & Haz). rewrite <- HN in *.
  pose proof (norm3_sq ax ay az) as HS. rewrite <- HN in HS.
  assert (HKN : 0 <= K * N) by (apply Rmult_le_pos; assumption).
  apply sq_le_le; [apply norm3_pos|lra|]. rewrite norm3_sq.
  pose proof (coord_sq K N c ax wx HK Hc HN0 Hx Hax) as Sx.
  pose proof (coord_sq K N c ay wy HK Hc HN0 Hy Hay) as Sy.
  pose proof (coord_sq K N c az wz HK Hc HN0 Hz Haz) as Sz.
  assert (HKNc : 0 <= K * N * c) by (apply Rmult_le_pos; assumption).
  assert (Hcc : 0 <= c * c) by (apply Rmult_le_pos; assumption).
  replace ((K * N + 3 * c) * (K * N + 3 * c))
    with (K * K * (N * N) + 6 * (K * N * c) + 9 * (c * c)) by ring.
  rewrite HS.
  replace (K * K * (ax * ax + ay * ay + az * az))
    with (K * K * (ax * ax) + K * K * (ay * ay) + K * K * (az * az)) by ring.
  lra.
Qed.

Lemma poly_bound (u : R) :
  0 < u <= / 1000 ->
  (1 + u) * (1 + u) * (1 + 5 * u) * (1 + u * u) + u * u
  <= (1 + 16 * u) * ((1 - u) * (1 - u) * (1 - u)).
Proof.
  intros [H0 H1].
  assert (U2 : 0 <= u * u <= u * / 1000) by nra.
  assert (U3 : 0 <= u * u * u <= u * u * / 1000) by nra.
  assert (U4 : 0 <= u * u * u * u <= u * u * u * / 1000) by nra.
  assert (U5 : 0 <= u * u * u * u * u <= u * u * u * u * / 1000) by nra.
  nra.
Qed.

(** The rescaled vector is not much longer than the bound. *)
Lemma rescale_upper (M L N ax ay az inv nx ny nz wx wy wz : R) :
  / 64 <= M <= / 2 -> M < L -> L < bpow 1024 ->
  N = norm3 ax ay az ->
  N * ((1 - u64) * (1 - u64) * (1 - u64)) <= L + tiny64 ->
  near (1 / L) inv ->
  near (ax * inv) nx -> near (ay * inv) ny -> near (az * inv) nz ->
  near (nx * M) wx -> near (ny * M) wy -> near (nz * M) wz ->
  norm3 wx wy wz <= M * (1 + 16 * u64).
Proof.
  intros HM HML HL HN HNL Ninv Nnx Nny Nnz Nwx Nwy Nwz.
  pose proof u64_pos as Hu. pose proof u64_small as Hus.
  pose proof eta64_pos as He. pose proof tiny64_pos as Ht.
  pose proof eta_le_u as Heu. pose proof tiny_le_u as Htu.
  pose proof eta_bpow1024 as Hb.
  assert (HL0 : 0 < L) by lra.
  assert (HiL : 0 < / L) by (apply Rinv_0_lt_compat; assumption).
  assert (HLi : L * / L = 1) by (field; lra).
  (* the reciprocal *)
  assert (Hinv : Rabs inv <= (1 + 5 * u64) * / L).
  { apply near_abs in Ninv. unfold Rdiv in Ninv. rewrite Rmult_1_l in Ninv.
    rewrite (Rabs_pos_eq (/ L)) in Ninv by lra.
    assert (eta64 <= 4 * u64 * / L).
    { assert (eta64 * L <= 4 * u64) by nra.
      assert (eta64 * L * / L <= 4 * u64 * / L) by nra.
      replace (eta64 * L * / L) with eta64 in H0 by (field; lra). exact H0. }
    lra. }
  (* the norm over the length *)
  assert (HNpos : 0 <= N) by (rewrite HN; apply norm3_pos).
  set (w := 1 - u64) in *.
  assert (Hw : 0 < w <= 1) by (unfold w; lra).
  assert (Hw3 : 0 < w * w * w)
    by (apply Rmult_lt_0_compat; [apply Rmult_lt_0_compat|]; lra).
  assert (HNL' : N * (w * w * w) * / L <= 1 + u64 * u64).
  { assert (N * (w * w * w) * / L <= (L + tiny64) * / L) by nra.
    assert (tiny64 * / L <= u64 * u64).
    { assert (/ L <= / M) by (apply Rinv_le_contravar; lra).
      assert (/ M <= 64).
      { replace 64 with (/ / 64) by lra. apply Rinv_le_contravar; lra. }
      nra. }
    nra. }
  (* every coordinate *)
  set (K := (1 + u64) * (1 + u64) * (1 + 5 * u64) * M * / L).
  set (c2 := 2 * eta64).
  assert (HK : 0 <= K) by (unfold K; repeat apply Rmult_le_pos; lra).
  assert (Hcoord : forall a n v : R, near (a * inv) n -> near (n * M) v ->
                                    Rabs v <= K * Rabs a + c2).
  { intros a n v Hn Hv. apply near_abs in Hn. apply near_abs in Hv.
    rewrite Rabs_mult in Hn. rewrite Rabs_mult, (Rabs_pos_eq M) in Hv by lra.
    pose proof (Rabs_pos a) as Ha0. pose proof (Rabs_pos n) as Hn0.
    set (B := (1 + u64) * (Rabs a * ((1 + 5 * u64) * / L)) + eta64).
    assert (HB : Rabs n <= B).
    { unfold B.
      assert (Rabs a * Rabs inv <= Rabs a * ((1 + 5 * u64) * / L))
        by (apply Rmult_le_compat_l; assumption).
      assert ((1 + u64) * (Rabs a * Rabs inv) <=
              (1 + u64) * (Rabs a * ((1 + 5 * u64) * / L)))
        by (apply Rmult_le_compat_l; lra).
      lra. }
    assert (HBM : Rabs n * M <= B * M) by (apply Rmult_le_compat_r; lra).
    assert (HBM' : (1 + u64) * (Rabs n * M) <= (1 + u64) * (B * M))
      by (apply Rmult_le_compat_l; lra).
    assert (HM1 : (1 + u64) * M <= 1) by nra.
    assert (HeM : eta64 * ((1 + u64) * M) <= eta64 * 1)
      by (apply Rmult_le_compat_l; lra).
    replace (K * Rabs a + c2)
      with ((1 + u64) * ((B - eta64) * M) + 2 * eta64)
      by (unfold K, B, c2; ring).
    replace ((1 + u64) * (B * M))
      with ((1 + u64) * ((B - eta64) * M) + eta64 * ((1 + u64) * M)) in HBM' by ring.
    lra. }
  pose proof (Hcoord _ _ _ Nnx Nwx) as Hx.
  pose proof (Hcoord _ _ _ Nny Nwy) as Hy.
  pose proof (Hcoord _ _ _ Nnz Nwz) as Hz.
  assert (Hc2 : 0 <= c2) by (unfold c2; lra).
  pose proof (norm3_affine K N c2 ax ay az wx wy wz HK Hc2 HN Hx Hy Hz) as Hsum.
  (* putting it together *)
  set (P := (1 + u64) * (1 + u64) * (1 + 5 * u64)) in *.
  assert (HP : 0 <= P * M) by (unfold P; repeat apply Rmult_le_pos; lra).
  assert (HKN : K * N * (w * w * w) <= P * M * (1 + u64 * u64)).
  { unfold K.
    replace (P * M * / L * N * (w * w * w))
      with (P * M * (N * (w * w * w) * / L)) by ring.
    apply Rmult_le_compat_l; [exact HP|exact HNL']. }
  assert (Hw31 : w * w * w <= 1).
  { assert (w * w <= 1) by (replace 1 with (1 * 1) by ring; apply Rmult_le_compat; lra).
    replace 1 with (1 * 1) by ring. apply Rmult_le_compat; try lra.
    apply Rmult_le_pos; lra. }
  assert (H3c : 3 * c2 * (w * w * w) <= M * (u64 * u64)).
  { assert (3 * c2 * (w * w * w) <= 3 * c2 * 1)
      by (apply Rmult_le_compat_l; unfold c2; lra).
    assert (u64 * u64 / 64 <= M * (u64 * u64)).
    { assert (0 <= u64 * u64) by (apply Rmult_le_pos; lra).
      unfold Rdiv. rewrite Rmult_comm. apply Rmult_le_compat_r; lra. }
    unfold c2 in *. lra. }
  pose proof (poly_bound u64 (conj Hu Hus)) as Hpoly. fold w in Hpoly. fold P in Hpoly.
  assert (HMpoly : M * (P * (1 + u64 * u64) + u64 * u64)
                   <= M * ((1 + 16 * u64) * (w * w * w)))
    by (apply Rmult_le_compat_l; lra).
  assert (Hfin : (K * N + 3 * c2) * (w * w * w) <= M * (1 + 16 * u64) * (w * w * w)).
  { replace ((K * N + 3 * c2) * (w * w * w))
      with (K * N * (w * w * w) + 3 * c2 * (w * w * w)) by ring.
    replace (M * (1 + 16 * u64) * (w * w * w))
      with (M * ((1 + 16 * u64) * (w * w * w))) by ring.
    replace (M * (P * (1 + u64 * u64) + u64 * u64))
      with (P * M * (1 + u64 * u64) + M * (u64 * u64)) in HMpoly by ring.
    lra. }
  assert (K * N + 3 * c2 <= M * (1 + 16 * u64)).
  { apply Rmult_le_reg_r with (w * w * w); assumption. }
  lra.
Qed.

(** A vector whose computed length is at most the bound. *)
Lemma short_upper (M L N : R) :
  / 64 <= M <= / 2 -> 0 <= L <= M -> 0 <= N ->
  N * ((1 - u64) * (1 - u64) * (1 - u64)) <= L + tiny64 ->
  N <= M * (1 + 16 * u64).
Proof.
  intros HM HL HN H.
  pose proof u64_pos as Hu. pose proof u64_small as Hus.
  pose proof tiny64_pos as Ht. pose proof tiny_le_u as Htu.
  set (w := 1 - u64) in *.
  assert (Hw : 0 < w <= 1) by (unfold w; lra).
  assert (Hw3 : 0 < w * w * w)
    by (apply Rmult_lt_0_compat; [apply Rmult_lt_0_compat|]; lra).
  apply Rmult_le_reg_r with (w * w * w); [assumption|].
  assert (tiny64 <= M * (u64 * u64)) by nra.
  assert (1 + u64 * u64 <= (1 + 16 * u64) * (w * w * w)) by (unfold w; nra).
  nra.
Qed.

(** The quotients and products on the way stay small. *)
Lemma quotient_small (M L N a inv : R) :
  / 64 <= M <= / 2 -> M < L -> L < bpow 1024 -> 0 <= N ->
  N * ((1 - u64) * (1 - u64) * (1 - u64)) <= L + tiny64 ->
  near (1 / L) inv -> Rabs a <= N ->
  Rabs (a * inv) <= 4.
Proof.
  intros HM HML HL HN HNL Ninv Ha.
  pose proof u64_pos as Hu. pose proof u64_small as Hus.
  pose proof eta64_pos as He. pose proof tiny64_pos as Ht.
  pose proof tiny_le_u as Htu. pose proof eta_bpow1024 as Hb.
  assert (HL0 : 0 < L) by lra.
  assert (HiL : 0 < / L) by (apply Rinv_0_lt_compat; assumption).
  assert (Hinv : Rabs inv <= (1 + 5 * u64) * / L).
  { apply near_abs in Ninv. unfold Rdiv in Ninv. rewrite Rmult_1_l in Ninv.
    rewrite (Rabs_pos_eq (/ L)) in Ninv by lra.
    assert (eta64 <= 4 * u64 * / L).
    { assert (eta64 * L <= 4 * u64) by nra.
      assert (eta64 * L * / L <= 4 * u64 * / L) by nra.
      replace (eta64 * L * / L) with eta64 in H0 by (field; lra). exact H0. }
    lra. }
  set (w := 1 - u64) in *.
  assert (Hw : 0 < w <= 1) by (unfold w; lra).
  assert (Hw3 : 0 < w * w * w)
    by (apply Rmult_lt_0_compat; [apply Rmult_lt_0_compat|]; lra).
  assert (Hw3' : 99 / 100 <= w * w * w).
  { unfold w.
    assert (0 <= u64 * u64) by (apply Rmult_le_pos; lra).
    assert (u64 * u64 * u64 <= u64 * u64 * / 1000) by (apply Rmult_le_compat_l; lra).
    assert (u64 * u64 <= u64 * / 1000) by (apply Rmult_le_compat_l; lra).
    replace ((1 - u64) * (1 - u64) * (1 - u64))
      with (1 - 3 * u64 + 3 * (u64 * u64) - u64 * u64 * u64) by ring.
    lra. }
  assert (HtL : tiny64 <= L) by nra.
  assert (HNL2 : N * (99 / 100) <= 2 * L).
  { assert (N * (99 / 100) <= N * (w * w * w)) by (apply Rmult_le_compat_l; lra). lra. }
  rewrite Rabs_mult.
  pose proof (Rabs_pos a) as Ha0. pose proof (Rabs_pos inv) as Hi0.
  assert (H1 : Rabs a * Rabs inv <= N * ((1 + 5 * u64) * / L)).
  { apply Rmult_le_compat; assumption. }
  assert (H2 : N * / L <= 200 / 99).
  { assert (N * (99 / 100) * / L <= 2 * L * / L) by (apply Rmult_le_compat_r; lra).
    replace (2 * L * / L) with 2 in H by (field; lra). lra. }
  assert (H3 : N * ((1 + 5 * u64) * / L) = (1 + 5 * u64) * (N * / L)) by ring.
  assert (H4 : (1 + 5 * u64) * (N * / L) <= (1 + 5 * u64) * (200 / 99))
    by (apply Rmult_le_compat_l; lra).
  assert (H5 : 0 <= N * / L) by (apply Rmult_le_pos; lra).
  assert (H6 : (1 + 5 * u64) * (200 / 99) <= 4) by lra.
  lra.
Qed.

Lemma product_small (n v M : R) :
  / 64 <= M <= / 2 -> Rabs v <= 4 -> near v n -> Rabs (n * M) <= 4.
Proof.
  intros HM Hv Hn. apply near_abs in Hn.
  pose proof u64_pos as Hu. pose proof u64_small as Hus.
  pose proof eta64_pos as He.
  assert (eta64 <= 1) by (unfold eta64; change 1 with (bpow 0); apply bpow_le; lia).
  rewrite Rabs_mult, (Rabs_pos_eq M) by lra.
  pose proof (Rabs_pos n). pose proof (Rabs_pos v).
  assert (Rabs n <= 6) by nra.
  nra.
Qed.

End ErrorBounds.

(** ** The operations on doubles *)

Section OnDoubles.
Local Open Scope R_scope.

Lemma fnum_valid (f : float) : fnum f -> valid_num (Prim2SF f).
Proof. intros H. split; [apply FloatAxioms.Prim2SF_valid|exact H]. Qed.

Lemma not_nan_Prim2SF (a : float) :
  PrimFloat.is_nan a = false -> Prim2SF a <> S754_nan.
Proof.
  intros H E. apply is_nan_Prim2SF in E. congruence.
Qed.

Lemma fnum_not_nan (a : float) : fnum a -> PrimFloat.is_nan a = false.
Proof.
  intros H. destruct (PrimFloat.is_nan a) eqn:E; [|reflexivity].
  apply is_nan_Prim2SF in E. unfold fnum in H. rewrite E in H. discriminate.
Qed.

Lemma F2R_zero (a : float) (s : bool) : Prim2SF a = S754_zero s -> F2R a = 0 /\ fnum a.
Proof. intros E. unfold F2R, fnum. rewrite E. split; reflexivity. Qed.

Lemma op_result_pinf (V : R) (r : float) :
  0 <= V -> op_result V (Prim2SF r) ->
  pinf r \/ (fnum r /\ 0 <= F2R r /\ near V (F2R r)).
Proof.
  intros HV [(Hn & Hnear & Hs)|[(s & Hr & Hsgn) _]].
  - right. split; [exact Hn|]. split; [apply Hs; exact HV|exact Hnear].
  - left. unfold pinf. rewrite Hr, (Hsgn HV). reflexivity.
Qed.

Lemma op_result_small (V : R) (r : float) :
  Rabs V < bpow 1023 -> op_result V (Prim2SF r) ->
  fnum r /\ near V (F2R r) /\ (0 <= V -> 0 <= F2R r).
Proof.
  intros HV [H|[_ Hbig]]; [exact H|lra].
Qed.

(** The square of a float that is not NaN. *)
Lemma fsq_cases (a : float) :
  PrimFloat.is_nan a = false ->
  pinf (PrimFloat.mul a a) \/
  (fnum a /\ fnum (PrimFloat.mul a a) /\ 0 <= F2R (PrimFloat.mul a a) /\
   near (F2R a * F2R a) (F2R (PrimFloat.mul a a))).
Proof.
  intros Hnan. apply not_nan_Prim2SF in Hnan.
  pose proof (FloatAxioms.mul_spec a a) as Hm. unfold SF64mul in Hm.
  destruct (Prim2SF a) as [s|s| |s m e] eqn:Ea; [| |congruence|].
  - right. assert (fnum a) by (unfold fnum; rewrite Ea; reflexivity).
    cbn [SFmul] in Hm. destruct (F2R_zero _ _ Hm) as [E0 Hn].
    split; [assumption|]. split; [assumption|]. rewrite E0. split; [lra|].
    unfold F2R at 1 2. rewrite Ea. cbn [SF2R]. unfold near.
    rewrite Rmult_0_l, Rminus_diag, Rabs_R0.
    pose proof u64_pos. pose proof eta64_pos. lra.
  - left. unfold pinf. rewrite Hm. cbn [SFmul]. destruct s; reflexivity.
  - assert (Hf : fnum a) by (unfold fnum; rewrite Ea; reflexivity).
    pose proof (SFmul_spec _ _ (fnum_valid a Hf) (fnum_valid a Hf)) as H.
    rewrite Ea in H. rewrite <- Hm in H.
    apply op_result_pinf in H.
    + destruct H as [H|(H1 & H2 & H3)]; [left; exact H|right].
      split; [exact Hf|]. split; [exact H1|]. split; [exact H2|].
      unfold F2R at 1 2. rewrite Ea. exact H3.
    + set (v := SF2R (S754_finite s m e)). nra.
Qed.

Lemma fsq_nonneg (a : float) :
  PrimFloat.is_nan a = false -> nonneg (PrimFloat.mul a a).
Proof.
  intros H. destruct (fsq_cases a H) as [Hp|(_ & Hn & H0 & _)].
  - left. exact Hp.
  - right. split; assumption.
Qed.

Lemma fadd_cases (p q : float) :
  nonneg p -> nonneg q ->
  pinf (PrimFloat.add p q) \/
  (fnum p /\ fnum q /\ fnum (PrimFloat.add p q) /\ 0 <= F2R (PrimFloat.add p q) /\
   near (F2R p + F2R q) (F2R (PrimFloat.add p q))).
Proof.
  intros Hp Hq.
  pose proof (FloatAxioms.add_spec p q) as Ha. unfold SF64add in Ha.
  destruct Hp as [Hp|[Hp Hp0]].
  - left. unfold pinf in *. rewrite Ha, Hp.
    destruct Hq as [Hq|[Hq _]].
    + unfold pinf in Hq. rewrite Hq. reflexivity.
    + unfold fnum in Hq. destruct (Prim2SF q); try discriminate; reflexivity.
  - destruct Hq as [Hq|[Hq Hq0]].
    + left. unfold pinf in *. rewrite Ha, Hq.
      unfold fnum in Hp. destruct (Prim2SF p); try discriminate; reflexivity.
    + pose proof (SFadd_spec _ _ (fnum_valid p Hp) (fnum_valid q Hq)) as H.
      rewrite <- Ha in H. fold (F2R p) (F2R q) in H.
      apply op_result_pinf in H; [|lra].
      destruct H as [H|(H1 & H2 & H3)]; [left; exact H|right].
      repeat split; assumption.
Qed.

Lemma fadd_nonneg (p q : float) :
  nonneg p -> nonneg q -> nonneg (PrimFloat.add p q).
Proof.
  intros Hp Hq. destruct (fadd_cases p q Hp Hq) as [H|(_ & _ & Hn & H0 & _)].
  - left. exact H.
  - right. split; assumption.
Qed.

Lemma fsqrt_cases (p : float) :
  nonneg p ->
  pinf (PrimFloat.sqrt p) \/
  (fnum p /\ fnum (PrimFloat.sqrt p) /\ 0 <= F2R (PrimFloat.sqrt p) /\
   near (sqrt (F2R p)) (F2R (PrimFloat.sqrt p))).
Proof.
  intros Hp.
  pose proof (FloatAxioms.sqrt_spec p) as Hs. unfold SF64sqrt in Hs.
  destruct Hp as [Hp|[Hp Hp0]].
  - left. unfold pinf in *. rewrite Hs, Hp. reflexivity.
  - right.
    assert (Hpos : forall m e, Prim2SF p <> S754_finite true m e).
    { intros m e E. unfold F2R in Hp0. rewrite E in Hp0.
      destruct (SF2R_finite_abs true m e) as [E1 P1]. rewrite E1 in Hp0.
      simpl in Hp0. lra. }
    pose proof (SFsqrt_spec _ (fnum_valid p Hp) Hpos) as H. cbv zeta in H.
    rewrite <- Hs in H. destruct H as (H1 & H2 & H3).
    repeat split; assumption.
Qed.

(** The computed length of a vector without NaN. *)
Lemma flen_cases (x y z : float) :
  PrimFloat.is_nan x = false -> PrimFloat.is_nan y = false ->
  PrimFloat.is_nan z = false ->
  pinf (flen x y z) \/
  (fnum x /\ fnum y /\ fnum z /\ fnum (flen x y z) /\ 0 <= F2R (flen x y z) /\
   norm3 (F2R x) (F2R y) (F2R z) * ((1 - u64) * (1 - u64) * (1 - u64))
   <= F2R (flen x y z) + tiny64).
Proof.
  intros Hx Hy Hz. unfold flen.
  pose proof (fsq_nonneg x Hx) as Nx. pose proof (fsq_nonneg y Hy) as Ny.
  pose proof (fsq_nonneg z Hz) as Nz.
  pose proof (fadd_nonneg _ _ Nx Ny) as N1.
  pose proof (fadd_nonneg _ _ N1 Nz) as N2.
  destruct (fsqrt_cases _ N2) as [H|(F2 & FL & L0 & HL)]; [left; exact H|right].
  destruct (fadd_cases _ _ N1 Nz) as [H|(F1 & Fz & _ & S20 & H2)].
  { exfalso. unfold pinf in H. unfold fnum in F2. rewrite H in F2. discriminate. }
  destruct (fadd_cases _ _ Nx Ny) as [H|(Fx & Fy & _ & S10 & H1)].
  { exfalso. unfold pinf in H. unfold fnum in F1. rewrite H in F1. discriminate. }
  destruct (fsq_cases x Hx) as [H|(Fx' & _ & Qx0 & Qx)].
  { exfalso. unfold pinf in H. unfold fnum in Fx. rewrite H in Fx. discriminate. }
  destruct (fsq_cases y Hy) as [H|(Fy' & _ & Qy0 & Qy)].
  { exfalso. unfold pinf in H. unfold fnum in Fy. rewrite H in Fy. discriminate. }
  destruct (fsq_cases z Hz) as [H|(Fz' & _ & Qz0 & Qz)].
  { exfalso. unfold pinf in H. unfold fnum in Fz. rewrite H in Fz. discriminate. }
  repeat (split; [assumption|]).
  apply (length_lower (F2R x) (F2R y) (F2R z)
           (F2R (PrimFloat.mul x x)) (F2R (PrimFloat.mul y y)) (F2R (PrimFloat.mul z z))
           (F2R (PrimFloat.add (PrimFloat.mul x x) (PrimFloat.mul y y)))
           (F2R (PrimFloat.add (PrimFloat.add (PrimFloat.mul x x) (PrimFloat.mul y y))
                               (PrimFloat.mul z z))));
    assumption.
Qed.

End OnDoubles.

(** ** A vector limited to a magnitude, on binary64 *)

Section Limit64.
Local Open Scope R_scope.

Lemma F2R_one : fnum PrimFloat.one /\ F2R PrimFloat.one = 1.
Proof.
  assert (E : Prim2SF PrimFloat.one = S754_finite false 4503599627370496 (-52))
    by (vm_compute; reflexivity).
  unfold fnum, F2R. rewrite E. split; [reflexivity|].
  cbn [SF2R sgn]. unfold bpow. simpl. lra.
Qed.

Lemma bpow_1023_big : 64 < bpow 1023.
Proof.
  assert (bpow 6 = 64) by (unfold bpow; simpl; lra).
  rewrite <- H. apply bpow_lt. lia.
Qed.

Lemma fnum_lt_bpow (a : float) : fnum a -> F2R a < bpow 1024.
Proof.
  intros H. pose proof (FloatAxioms.Prim2SF_valid a) as V.
  unfold fnum, F2R in *. destruct (Prim2SF a) as [s|s| |s m e]; try discriminate.
  - cbn [SF2R]. apply bpow_pos.
  - unfold valid_binary in V. cbn [SpecFloat.valid_binary] in V.
    pose proof (finite_lt_bpow m e V) as Hlt.
    destruct (SF2R_finite_abs s m e) as [E P]. rewrite E.
    pose proof (bpow_pos 1024). destruct s; cbn [sgn]; lra.
Qed.

(** [a < b] on doubles, for a number [a]. *)
Lemma fltb_true (a b : float) :
  fnum a -> PrimFloat.ltb a b = true -> pinf b \/ (fnum b /\ F2R a < F2R b).
Proof.
  intros Ha H. rewrite FloatAxioms.ltb_spec in H. unfold SFltb in H.
  destruct (Prim2SF b) as [s|s| |s m e] eqn:Eb.
  - right. assert (Hb : fnum b) by (unfold fnum; rewrite Eb; reflexivity).
    split; [exact Hb|].
    destruct (SFcompare_spec _ _ (fnum_valid a Ha) (fnum_valid b Hb)) as (c & Hc & Hh).
    rewrite Eb in Hc. rewrite Hc in H. destruct c; try discriminate.
    exact Hh.
  - left. unfold pinf. rewrite Eb. unfold fnum in Ha.
    destruct (Prim2SF a); try discriminate; destruct s; try discriminate; reflexivity.
  - destruct (Prim2SF a); discriminate.
  - right. assert (Hb : fnum b) by (unfold fnum; rewrite Eb; reflexivity).
    split; [exact Hb|].
    destruct (SFcompare_spec _ _ (fnum_valid a Ha) (fnum_valid b Hb)) as (c & Hc & Hh).
    rewrite Eb in Hc. rewrite Hc in H. destruct c; try discriminate.
    exact Hh.
Qed.

Lemma fltb_false (a b : float) :
  fnum a -> pinf b \/ fnum b -> PrimFloat.ltb a b = false ->
  fnum b /\ F2R b <= F2R a.
Proof.
  intros Ha Hb H. rewrite FloatAxioms.ltb_spec in H. unfold SFltb in H.
  destruct Hb as [Hb|Hb].
  - exfalso. unfold pinf in Hb. rewrite Hb in H. unfold fnum in Ha.
    destruct (Prim2SF a); discriminate.
  - split; [exact Hb|].
    destruct (SFcompare_spec _ _ (fnum_valid a Ha) (fnum_valid b Hb)) as (c & Hc & Hh).
    rewrite Hc in H. unfold F2R.
    destruct c; try discriminate; cbn [cmp_holds] in Hh; lra.
Qed.

Lemma fmul_small (a b : float) :
  fnum a -> fnum b -> Rabs (F2R a * F2R b) <= 4 ->
  fnum (PrimFloat.mul a b) /\ near (F2R a * F2R b) (F2R (PrimFloat.mul a b)).
Proof.
  intros Ha Hb H.
  pose proof (SFmul_spec _ _ (fnum_valid a Ha) (fnum_valid b Hb)) as Hm.
  rewrite <- (FloatAxioms.mul_spec a b : _ = SFmul prec emax _ _) in Hm.
  apply op_result_small in Hm.
  - destruct Hm as (H1 & H2 & _). split; assumption.
  - fold (F2R a) (F2R b). pose proof bpow_1023_big. lra.
Qed.

Lemma fnum_pos_finite (M : float) :
  fnum M -> 0 < F2R M -> exists m e, Prim2SF M = S754_finite false m e.
Proof.
  unfold fnum, F2R. intros H H0.
  destruct (Prim2SF M) as [s|s| |s m e]; try discriminate.
  - cbn [SF2R] in H0. lra.
  - destruct (SF2R_finite_abs s m e) as [E P]. rewrite E in H0.
    destruct s; [cbn [sgn] in H0; lra|]. exists m, e. reflexivity.
Qed.

Lemma fscale_pinf (a L M : float) :
  PrimFloat.is_nan a = false -> pinf L -> fnum M -> 0 < F2R M ->
  let v := fscale a (PrimFloat.div PrimFloat.one L) M in
  PrimFloat.is_nan v = true \/ (fnum v /\ F2R v = 0).
Proof.
  intros Ha HL HM HM0 v.
  destruct (fnum_pos_finite M HM HM0) as (mm & em & EM).
  assert (Einv : Prim2SF (PrimFloat.div PrimFloat.one L) = S754_zero false).
  { rewrite FloatAxioms.div_spec. unfold pinf in HL. rewrite HL.
    assert (E : Prim2SF PrimFloat.one = S754_finite false 4503599627370496 (-52))
      by (vm_compute; reflexivity).
    rewrite E. reflexivity. }
  assert (Ev : Prim2SF v =
               SFmul prec emax (SFmul prec emax (Prim2SF a) (S754_zero false))
                     (S754_finite false mm em)).
  { unfold v, fscale. rewrite FloatAxioms.mul_spec. unfold SF64mul.
    rewrite FloatAxioms.mul_spec. unfold SF64mul. rewrite Einv, EM. reflexivity. }
  apply not_nan_Prim2SF in Ha.
  destruct (Prim2SF a) as [s|s| |s m e]; [| |congruence|].
  - right. cbn [SFmul] in Ev. exact (proj1 (and_comm _ _) (F2R_zero _ _ Ev)).
  - left. apply is_nan_Prim2SF. rewrite Ev. reflexivity.
  - right. cbn [SFmul] in Ev. exact (proj1 (and_comm _ _) (F2R_zero _ _ Ev)).
Qed.

(** The vector rescaled to [M], when its computed length is above [M]. *)
Lemma rescale_cases (x y z M : float) :
  PrimFloat.is_nan x = false -> PrimFloat.is_nan y = false ->
  PrimFloat.is_nan z = false ->
  fnum M -> / 64 <= F2R M <= / 2 ->
  PrimFloat.ltb M (flen x y z) = true ->
  let inv := PrimFloat.div PrimFloat.one (flen x y z) in
  (PrimFloat.is_nan (fscale x inv M) = true \/
   PrimFloat.is_nan (fscale y inv M) = true \/
   PrimFloat.is_nan (fscale z inv M) = true) \/
  (fnum (fscale x inv M) /\ fnum (fscale y inv M) /\ fnum (fscale z inv M) /\
   norm3 (F2R (fscale x inv M)) (F2R (fscale y inv M)) (F2R (fscale z inv M))
   <= F2R M * (1 + 16 * u64)).
Proof.
  intros Hx Hy Hz HM HMb Hlt inv.
  pose proof u64_pos as Hu.
  destruct (flen_cases x y z Hx Hy Hz) as [HL|(Fx & Fy & Fz & FL & L0 & HNL)].
  - (* the length overflowed *)
    assert (HM0 : 0 < F2R M) by lra.
    destruct (fscale_pinf x _ M Hx HL HM HM0) as [Nx|[Nx Ex]]; [left; auto|].
    destruct (fscale_pinf y _ M Hy HL HM HM0) as [Ny|[Ny Ey]]; [left; auto|].
    destruct (fscale_pinf z _ M Hz HL HM HM0) as [Nz|[Nz Ez]]; [left; auto|].
    right. fold inv in Nx, Ny, Nz, Ex, Ey, Ez.
    repeat (split; [assumption|]).
    rewrite Ex, Ey, Ez. unfold norm3.
    replace (0 * 0 + 0 * 0 + 0 * 0) with 0 by ring. rewrite sqrt_0. nra.
  - right.
    destruct (fltb_true M _ HM Hlt) as [HL|[_ HML]].
    { exfalso. unfold pinf in HL. unfold fnum in FL. rewrite HL in FL. discriminate. }
    set (L := flen x y z) in *.
    pose proof (fnum_lt_bpow L FL) as HLbig.
    assert (HL0 : 0 < F2R L) by lra.
    set (N := norm3 (F2R x) (F2R y) (F2R z)) in *.
    assert (HN0 : 0 <= N) by apply norm3_pos.
    (* the reciprocal *)
    destruct F2R_one as [F1 E1].
    assert (Hinv : fnum inv /\ near (1 / F2R L) (F2R inv)).
    { pose proof (SFdiv_spec _ _ (fnum_valid _ F1) (fnum_valid L FL)) as Hd.
      fold (F2R L) (F2R PrimFloat.one) in Hd. rewrite E1 in Hd.
      specialize (Hd ltac:(lra)).
      rewrite <- (FloatAxioms.div_spec PrimFloat.one L : _ = SFdiv prec emax _ _) in Hd.
      apply op_result_small in Hd.
      - destruct Hd as (H1 & H2 & _). split; assumption.
      - assert (0 < 1 / F2R L) by (apply Rdiv_lt_0_compat; lra).
        rewrite Rabs_pos_eq by lra.
        assert (1 / F2R L <= 64).
        { unfold Rdiv. rewrite Rmult_1_l. replace 64 with (/ / 64) by lra.
          apply Rinv_le_contravar; lra. }
        pose proof bpow_1023_big. lra. }
    destruct Hinv as [Finv Ninv].
    destruct (abs_le_norm3 (F2R x) (F2R y) (F2R z)) as (Ax & Ay & Az).
    fold N in Ax, Ay, Az.
    assert (Hcoord : forall a : float, fnum a -> Rabs (F2R a) <= N ->
              fnum (fscale a inv M) /\
              exists n : R, near (F2R a * F2R inv) n /\ near (n * F2R M) (F2R (fscale a inv M))).
    { intros a Fa Ha.
      pose proof (quotient_small (F2R M) (F2R L) N (F2R a) (F2R inv)
                    HMb HML HLbig HN0 HNL Ninv Ha) as Hq.
      destruct (fmul_small a inv Fa Finv Hq) as [Fn Nn].
      pose proof (product_small _ _ (F2R M) HMb Hq Nn) as Hp.
      destruct (fmul_small _ M Fn HM Hp) as [Fw Nw].
      split; [exact Fw|]. exists (F2R (PrimFloat.mul a inv)). split; assumption. }
    destruct (Hcoord x Fx Ax) as (Fwx & nx & Nnx & Nwx).
    destruct (Hcoord y Fy Ay) as (Fwy & ny & Nny & Nwy).
    destruct (Hcoord z Fz Az) as (Fwz & nz & Nnz & Nwz).
    repeat (split; [assumption|]).
    apply (rescale_upper (F2R M) (F2R L) N (F2R x) (F2R y) (F2R z) (F2R inv)
             nx ny nz); try assumption. reflexivity.
Qed.

(** The vector left as it is, when its computed length is not above [M]. *)
Lemma short_cases (x y z M : float) :
  PrimFloat.is_nan x = false -> PrimFloat.is_nan y = false ->
  PrimFloat.is_nan z = false ->
  fnum M -> / 64 <= F2R M <= / 2 ->
  PrimFloat.ltb M (flen x y z) = false ->
  fnum x /\ fnum y /\ fnum z /\
  norm3 (F2R x) (F2R y) (F2R z) <= F2R M * (1 + 16 * u64).
Proof.
  intros Hx Hy Hz HM HMb Hlt.
  destruct (flen_cases x y z Hx Hy Hz) as [HL|(Fx & Fy & Fz & FL & L0 & HNL)].
  - exfalso. destruct (fltb_false M _ HM (or_introl HL) Hlt) as [FL _].
    unfold pinf in HL. unfold fnum in FL. rewrite HL in FL. discriminate.
  - destruct (fltb_false M _ HM (or_intror FL) Hlt) as [_ HLM].
    repeat (split; [assumption|]).
    apply (short_upper (F2R M) (F2R (flen x y z))); try assumption.
    + split; assumption.
    + apply norm3_pos.
Qed.

End Limit64.

Set Implicit Arguments.

(** * The bounds on binary64 *)

(** ** The speed bound on binary64 (C1) *)

Section SpeedBound.

#[local] Existing Instance Float64.number.
Local Open Scope R_scope.

(** A length above a positive limit is neither zero nor NaN, so
    [length() || 1] is the length. *)
Lemma truthy_above (M L : float) :
  fnum M -> 0 < F2R M -> PrimFloat.ltb M L = true -> Float64.truthy L = true.
Proof.
  intros HM H0 Hlt. unfold Float64.truthy.
  assert (Hnan : PrimFloat.is_nan L = false).
  { destruct (PrimFloat.is_nan L) eqn:E; [|reflexivity].
    rewrite (@ltb_nan_r M L E) in Hlt. discriminate. }
  rewrite Hnan. cbn [orb negb].
  rewrite FloatAxioms.eqb_spec. unfold SFeqb.
  change (Prim2SF PrimFloat.zero) with (S754_zero false).
  destruct (fltb_true M L HM Hlt) as [Hp|[Hn Hgt]].
  - unfold pinf in Hp. rewrite Hp. reflexivity.
  - assert (HL : 0 < F2R L) by lra.
    destruct (fnum_pos_finite L Hn HL) as (m & e & E).
    rewrite E. reflexivity.
Qed.

Lemma lit_one : @lit Float64.number 1 = PrimFloat.one.
Proof. vm_compute. reflexivity. Qed.

(** The vector that [clampMagnitude] returns has a NaN coordinate, or
    is of three numbers with a magnitude of at most the limit up to
    rounding. *)
Lemma clampMagnitude_within (v : Vector3.t) (M : float) :
  limit_in_range M ->
  has_NaN (clampMagnitude v M) \/ length_within M (clampMagnitude v M).
Proof.
  intros [HM HR]. destruct v as [x y z]. unfold clampMagnitude.
  change (@nltb Float64.number M (Vector3.length (Vector3.mk x y z)))
    with (PrimFloat.ltb M (flen x y z)).
  destruct (PrimFloat.ltb M (flen x y z)) eqn:Hlt.
  - assert (Ht : Float64.truthy (flen x y z) = true)
      by (apply (@truthy_above M); [exact HM|lra|exact Hlt]).
    assert (E : Vector3.multiplyScalar (Vector3.normalize (Vector3.mk x y z)) M =
                let inv := PrimFloat.div PrimFloat.one (flen x y z) in
                Vector3.mk (fscale x inv M) (fscale y inv M) (fscale z inv M)).
    { unfold Vector3.normalize, Vector3.divideScalar, Vector3.multiplyScalar, or_one.
      change (@truthy Float64.number (Vector3.length (Vector3.mk x y z)))
        with (Float64.truthy (flen x y z)).
      rewrite Ht, lit_one. reflexivity. }
    rewrite E. cbv zeta. unfold has_NaN, length_within.
    cbn [Vector3.x Vector3.y Vector3.z].
    destruct (PrimFloat.is_nan x) eqn:Ex.
    { left. left. unfold fscale. apply is_nan_mul_l, is_nan_mul_l. exact Ex. }
    destruct (PrimFloat.is_nan y) eqn:Ey.
    { left. right. left. unfold fscale. apply is_nan_mul_l, is_nan_mul_l. exact Ey. }
    destruct (PrimFloat.is_nan z) eqn:Ez.
    { left. right. right. unfold fscale. apply is_nan_mul_l, is_nan_mul_l. exact Ez. }
    destruct (rescale_cases x y z M Ex Ey Ez HM HR Hlt) as [H|H]; [left|right]; exact H.
  - unfold has_NaN, length_within. cbn [Vector3.x Vector3.y Vector3.z].
    destruct (PrimFloat.is_nan x) eqn:Ex; [left; left; reflexivity|].
    destruct (PrimFloat.is_nan y) eqn:Ey; [left; right; left; reflexivity|].
    destruct (PrimFloat.is_nan z) eqn:Ez; [left; right; right; reflexivity|].
    right. exact (short_cases x y z M Ex Ey Ez HM HR Hlt).
Qed.

(** The limits that [new Robot()] sets are in range. *)
Lemma maxSpeed_in_range : limit_in_range (@lit Float64.number 0.2).
Proof.
  assert (E : Prim2SF (@lit Float64.number 0.2) =
              S754_finite false 7205759403792794 (-55))
    by (vm_compute; reflexivity).
  unfold limit_in_range, fnum, F2R. rewrite E. split; [reflexivity|].
  cbn [SF2R sgn]. unfold bpow. simpl. lra.
Qed.

Lemma maxForce_in_range : limit_in_range (@lit Float64.number 0.03).
Proof.
  assert (E : Prim2SF (@lit Float64.number 0.03) =
              S754_finite false 8646911284551352 (-58))
    by (vm_compute; reflexivity).
  unfold limit_in_range, fnum, F2R. rewrite E. split; [reflexivity|].
  cbn [SF2R sgn]. unfold bpow. simpl. lra.
Qed.

(** C1.  On binary64, after a step over the robots, every robot whose
    [maxSpeed] is a number between 1/64 and 1/2 (the constructor sets
    0.2) keeps that [maxSpeed] and has either a velocity with a NaN
    coordinate or a velocity of three numbers whose magnitude, taken
    without rounding, is at most [maxSpeed * (1 + 2^-49)]: the bound
    of the specification up to the rounding of the rescaling. *)
Theorem speed_bound_up_to_rounding
    (goal : Vector3.t) (obs : list Obstacle) (rs : list Robot) (g : Random) :
  Forall (fun r => limit_in_range (maxSpeed r)) rs ->
  Forall (fun r => limit_in_range (maxSpeed r) /\
                   (has_NaN (velocity r) \/ speed_within r))
         (fst (update_robots goal obs rs g)).
Proof.
  apply update_robots_establishes.
  intros self rs' this intensity _ HM.
  cbn [spec_update maxSpeed velocity]. split; [exact HM|].
  unfold speed_within. cbn [spec_update maxSpeed velocity].
  unfold spec_velocity. apply clampMagnitude_within. exact HM.
Qed.

Lemma speed_bound_up_to_rounding_witness :
  Forall (fun r => limit_in_range (maxSpeed r)) Scenario.runner /\
  Forall (fun r => limit_in_range (maxSpeed r) /\
                   (has_NaN (velocity r) \/ speed_within r))
         (fst (update_robots Scenario.far_goal Scenario.box Scenario.runner halves)).
Proof.
  assert (H : Forall (fun r => limit_in_range (maxSpeed r)) Scenario.runner)
    by (constructor; [exact maxSpeed_in_range|constructor]).
  split; [exact H|].
  exact (speed_bound_up_to_rounding Scenario.far_goal Scenario.box halves H).
Defined.

End SpeedBound.

(** ** The steering forces on binary64 *)

Section ForceBound.

#[local] Existing Instance Float64.number.
Local Open Scope R_scope.

(** [a < b] is false on numbers with [b <= a]. *)
Lemma fltb_not_below (a b : float) :
  fnum a -> fnum b -> F2R b <= F2R a -> PrimFloat.ltb a b = false.
Proof.
  intros Ha Hb H. rewrite FloatAxioms.ltb_spec. unfold SFltb.
  destruct (SFcompare_spec _ _ (fnum_valid a Ha) (fnum_valid b Hb))
    as (c & -> & Hc).
  destruct c; try reflexivity.
  cbn [cmp_holds] in Hc. unfold F2R in H. lra.
Qed.

Lemma lit_zero : @lit Float64.number 0 = PrimFloat.zero.
Proof. vm_compute. reflexivity. Qed.

(** The zero vector is within every limit. *)
Lemma new_within (M : float) :
  limit_in_range M -> length_within M Vector3.new.
Proof.
  intros [HM HR]. unfold length_within, Vector3.new.
  cbn [Vector3.x Vector3.y Vector3.z]. rewrite lit_zero.
  destruct (F2R_zero PrimFloat.zero false eq_refl) as [E Hn].
  rewrite E. repeat split; try exact Hn.
  unfold norm3. replace (0 * 0 + 0 * 0 + 0 * 0) with 0 by lra.
  rewrite sqrt_0. pose proof u64_pos. nra.
Qed.

(** A vector whose computed length is not above zero has a NaN
    coordinate or is within every limit. *)
Lemma null_within (v : Vector3.t) (M : float) :
  limit_in_range M ->
  PrimFloat.ltb PrimFloat.zero (Vector3.length v) = false ->
  has_NaN v \/ length_within M v.
Proof.
  intros [HM HR] H0. destruct v as [x y z].
  change (Vector3.length (Vector3.mk x y z)) with (flen x y z) in H0.
  unfold has_NaN, length_within. cbn [Vector3.x Vector3.y Vector3.z].
  destruct (PrimFloat.is_nan x) eqn:Ex; [left; left; reflexivity|].
  destruct (PrimFloat.is_nan y) eqn:Ey; [left; right; left; reflexivity|].
  destruct (PrimFloat.is_nan z) eqn:Ez; [left; right; right; reflexivity|].
  right.
  destruct (F2R_zero PrimFloat.zero false eq_refl) as [E0 Hn0].
  assert (HL : pinf (flen x y z) \/ fnum (flen x y z)).
  { destruct (flen_cases x y z Ex Ey Ez) as [Hp|(_ & _ & _ & Hn & _)];
      [left|right]; assumption. }
  destruct (fltb_false _ _ Hn0 HL H0) as [Hn Hle].
  apply (short_cases x y z M Ex Ey Ez HM HR).
  apply fltb_not_below; [exact HM|exact Hn|]. rewrite E0 in Hle. lra.
Qed.

(** The end of [separate] and of [avoidObstacles]. *)
Lemma steer_from_sum_within (this : Robot) (steer : Vector3.t) (count : nat) :
  limit_in_range (maxForce this) ->
  (count = 0%nat -> steer = Vector3.new) ->
  has_NaN (steer_from_sum this steer count) \/
  length_within (maxForce this) (steer_from_sum this steer count).
Proof.
  intros HM Hzero. unfold steer_from_sum.
  destruct (Nat.ltb 0 count) eqn:Ec.
  - match goal with
    | |- context [@nltb Float64.number (lit 0) ?L] =>
      destruct (@nltb Float64.number (lit 0) L) eqn:E0
    end.
    + apply clampMagnitude_within. exact HM.
    + rewrite lit_zero in E0. apply null_within; assumption.
  - apply Nat.ltb_ge in Ec. rewrite Hzero by lia.
    right. apply new_within. exact HM.
Qed.

Lemma seek_within (this : Robot) (target : Vector3.t) :
  limit_in_range (maxForce this) ->
  has_NaN (seek this target) \/ length_within (maxForce this) (seek this target).
Proof.
  intros HM.
  exact (clampMagnitude_within
           (Vector3.subVectors
              (Vector3.multiplyScalar
                 (Vector3.normalize (Vector3.subVectors target (position this)))
                 (maxSpeed this))
              (velocity this)) HM).
Qed.

Lemma cohere_within (self : nat) (this : Robot) (rs : list Robot) :
  limit_in_range (maxForce this) ->
  has_NaN (cohere self this rs) \/
  length_within (maxForce this) (cohere self this rs).
Proof.
  intros HM. unfold cohere.
  match goal with
  | |- context [forOf ?l ?b ?s] => destruct (forOf l b s) as [sum count]
  end.
  destruct (Nat.ltb 0 count).
  - apply seek_within. exact HM.
  - right. apply new_within. exact HM.
Qed.

Lemma align_within (self : nat) (this : Robot) (rs : list Robot) :
  limit_in_range (maxForce this) ->
  has_NaN (align self this rs) \/
  length_within (maxForce this) (align self this rs).
Proof.
  intros HM. unfold align.
  match goal with
  | |- context [forOf ?l ?b ?s] => destruct (forOf l b s) as [sum count]
  end.
  destruct (Nat.ltb 0 count).
  - cbv zeta.
    match goal with
    | |- context [Vector3.length ?v] =>
      exact (@clampMagnitude_within v (maxForce this) HM)
    end.
  - right. apply new_within. exact HM.
Qed.

(** X16.  On binary64, for a robot whose [maxForce] is a number between
    1/64 and 1/2 (the constructor sets 0.03), each of the five steering
    forces, for every goal, population and set of obstacles, has a NaN
    coordinate or is a vector of three numbers whose magnitude, taken
    without rounding, is at most [maxForce * (1 + 2^-49)]. *)
Theorem forces_bounded_up_to_rounding
    (goal : Vector3.t) (obs : list Obstacle) (self : nat) (this : Robot)
    (rs : list Robot) :
  limit_in_range (maxForce this) ->
  Forall (fun force => has_NaN force \/ length_within (maxForce this) force)
    [ seek this goal; separate self this rs; cohere self this rs;
      align self this rs; avoidObstacles this obs ].
Proof.
  intros HM.
  destruct (separate_is_steer_from_sum self this rs) as (s1 & c1 & -> & Z1).
  destruct (avoidObstacles_is_steer_from_sum this obs) as (s2 & c2 & -> & Z2).
  apply Forall_cons; [apply seek_within; exact HM|].
  apply Forall_cons; [apply steer_from_sum_within; assumption|].
  apply Forall_cons; [apply cohere_within; exact HM|].
  apply Forall_cons; [apply align_within; exact HM|].
  apply Forall_cons; [apply steer_from_sum_within; assumption|].
  apply Forall_nil.
Qed.

End ForceBound.

(** ** The pulse of the goal marker *)

Section PulseFacts.

Context {N : Number}.

(** With no closure pending, frames leave the marker as it is. *)
Lemma frame_marker_at_rest (m : Marker) :
  pulses m = 0 -> frame_marker m = m.
Proof. destruct m as [s p]. cbn [pulses]. intros ->. reflexivity. Qed.

Lemma frames_marker_at_rest (n : nat) (m : Marker) :
  pulses m = 0 -> frames_marker n m = m.
Proof.
  intros H. induction n as [|n IH]; [reflexivity|].
  cbn [frames_marker]. rewrite IH. apply frame_marker_at_rest. exact H.
Qed.

Lemma frames_marker_add (a b : nat) (m : Marker) :
  frames_marker (a + b) m = frames_marker b (frames_marker a m).
Proof.
  induction b as [|b IH]; [rewrite Nat.add_0_r; reflexivity|].
  rewrite Nat.add_succ_r. cbn [frames_marker]. rewrite IH. reflexivity.
Qed.

Lemma below_forallb (n : nat) (P : nat -> bool) :
  forallb P (seq 0 n) = true -> forall j, j < n -> P j = true.
Proof.
  intros H j Hj. rewrite forallb_forall in H. apply H. apply in_seq. lia.
Qed.

End PulseFacts.

Section PulseOnBinary64.

#[local] Existing Instance Float64.number.

(** The marker [n] frames after [m], when no closure is pending then. *)
Lemma rests_after (n : nat) (m : Marker) (s : float) :
  frames_marker n m = at_rest s ->
  forall k, frames_marker (n + k) m = at_rest s.
Proof.
  intros H k. rewrite frames_marker_add, H.
  apply frames_marker_at_rest. reflexivity.
Qed.

(** X20.  On binary64, a click on the floor while no pulse of the goal
    marker is pending starts one that ends: the closure runs 45 times,
    the call of the handler and 44 frames, a frame being asked for
    until then, and leaves the marker at a uniform scale between 0.099
    and 0.1, where it stays.  A second click while the first pulse is
    pending starts a second closure on the same scale: two are pending,
    22 frames later one is left, and after 23 frames none, with the
    marker at a uniform scale below 0.099. *)
Theorem pulse_ends_unless_clicked_again (m : Marker) :
  pulses m = 0 ->
  (forall j, j < 44 -> pulses (frames_marker j (click_marker m)) = 1) /\
  (exists s : float,
     (forall k, frames_marker (44 + k) (click_marker m) = at_rest s) /\
     PrimFloat.ltb (lit 0.099) s = true /\ PrimFloat.leb s (lit 0.1) = true) /\
  (forall j, j < 44 ->
     let again := click_marker (frames_marker j (click_marker m)) in
     pulses again = 2 /\
     pulses (frames_marker 22 again) = 1 /\
     exists s : float,
       (forall k, frames_marker (23 + k) again = at_rest s) /\
       PrimFloat.ltb s (lit 0.099) = true).
Proof.
  destruct m as [s0 p]. cbn [pulses]. intros ->.
  change (click_marker {| marker_scale := s0; pulses := 0 |})
    with (click_marker (at_rest (lit 1))).
  set (first := click_marker (at_rest (lit 1))).
  split; [|split].
  - intros j Hj. apply Nat.eqb_eq.
    apply (@below_forallb 44
             (fun j => Nat.eqb (pulses (frames_marker j first)) 1));
      [vm_compute; reflexivity|exact Hj].
  - exists (Vector3.x (marker_scale (frames_marker 44 first))).
    split; [|split; vm_compute; reflexivity].
    apply rests_after. vm_compute. reflexivity.
  - intros j Hj.
    assert (E : click_marker (frames_marker j first) =
                {| marker_scale := marker_scale first; pulses := 2 |}).
    { unfold click_marker at 1.
      destruct (pulse (Vector3.mk (lit 1) (lit 1) (lit 1))) as [sc ag] eqn:Ep.
      assert (Hp : pulses (frames_marker j first) = 1).
      { apply Nat.eqb_eq.
        apply (@below_forallb 44
                 (fun j => Nat.eqb (pulses (frames_marker j first)) 1));
          [vm_compute; reflexivity|exact Hj]. }
      rewrite Hp. vm_compute in Ep. injection Ep as <- <-.
      vm_compute. reflexivity. }
    cbv zeta. rewrite E. split; [reflexivity|].
    split; [vm_compute; reflexivity|].
    exists (Vector3.x (marker_scale
              (frames_marker 23 {| marker_scale := marker_scale first; pulses := 2 |}))).
    split; [|vm_compute; reflexivity].
    apply rests_after. vm_compute. reflexivity.
Qed.

End PulseOnBinary64.

(** ** The properties at concrete robots *)

Section OnThePair.

#[local] Existing Instance Float64.number.
#[local] Existing Instance Float64_le.
Import Scenario Cases.

Lemma stopped_frames_move_nothing_witness :
  (isRunning stopped_pair = false /\
   Forall is_Frame [Frame (lit 16); Frame (lit 33)]) /\
  (robots (run [Frame (lit 16); Frame (lit 33)] stopped_pair) = robots stopped_pair /\
   random (run [Frame (lit 16); Frame (lit 33)] stopped_pair) = random stopped_pair /\
   isRunning (run [Frame (lit 16); Frame (lit 33)] stopped_pair) = false).
Proof.
  assert (H1 : isRunning stopped_pair = false) by reflexivity.
  assert (H2 : Forall is_Frame [Frame (lit 16); Frame (lit 33)])
    by (constructor; [exact I|constructor; [exact I|constructor]]).
  split; [split; [exact H1|exact H2]|].
  exact (@stopped_frames_move_nothing Float64.number
           [Frame (lit 16); Frame (lit 33)] stopped_pair H1 H2).
Defined.

Lemma button_replaces_population_witness :
  (3 <= 5 <= 7)%Z /\
  (List.length (robots (addRobotBtn_click (Some 5%Z) stopped_pair)) = Z.to_nat 5
   /\ isRunning (addRobotBtn_click (Some 5%Z) stopped_pair) = isRunning stopped_pair
   /\ (isRunning stopped_pair = false ->
         robots (addRobotBtn_click (Some 5%Z) stopped_pair) =
         robots (initializeRobots 5 stopped_pair))
   /\ (isRunning stopped_pair = true ->
         robots (addRobotBtn_click (Some 5%Z) stopped_pair) =
         fst (update_robots (goalPosition stopped_pair) (obstacles stopped_pair)
                (robots (initializeRobots 5 stopped_pair))
                (random (initializeRobots 5 stopped_pair))))).
Proof.
  assert (H : (3 <= 5 <= 7)%Z) by lia.
  split; [exact H|].
  exact (@button_replaces_population Float64.number 5%Z stopped_pair H).
Defined.

Lemma out_of_range_no_force_witness :
  ((forall j other, nth_error apart j = Some other -> j <> 0 ->
      (Vector3.distanceTo (position (robot_at (V 0 0.4 0) (V 0.1 0 0)))
                          (position other) <? lit 3.0)%num = false) /\
   (forall j other, nth_error apart j = Some other -> j <> 0 ->
      (Vector3.distanceTo (position (robot_at (V 0 0.4 0) (V 0.1 0 0)))
                          (position other) <? lit 8.0)%num = false) /\
   (forall k o, nth_error pillar k = Some o ->
      (Vector3.distanceTo (position (robot_at (V 0 0.4 0) (V 0.1 0 0)))
                          (obstacle_position o) <? lit 4.0)%num = false)) /\
  (separate 0 (robot_at (V 0 0.4 0) (V 0.1 0 0)) apart = Vector3.new /\
   cohere 0 (robot_at (V 0 0.4 0) (V 0.1 0 0)) apart = Vector3.new /\
   align 0 (robot_at (V 0 0.4 0) (V 0.1 0 0)) apart = Vector3.new /\
   avoidObstacles (robot_at (V 0 0.4 0) (V 0.1 0 0)) pillar = Vector3.new).
Proof.
  assert (H3 : forall j other, nth_error apart j = Some other -> j <> 0 ->
      (Vector3.distanceTo (position (robot_at (V 0 0.4 0) (V 0.1 0 0)))
                          (position other) <? lit 3.0)%num = false).
  { intros j other Hj Hne. destruct j as [|[|j]].
    - contradiction.
    - injection Hj as <-. vm_compute. reflexivity.
    - destruct j; discriminate. }
  assert (H8 : forall j other, nth_error apart j = Some other -> j <> 0 ->
      (Vector3.distanceTo (position (robot_at (V 0 0.4 0) (V 0.1 0 0)))
                          (position other) <? lit 8.0)%num = false).
  { intros j other Hj Hne. destruct j as [|[|j]].
    - contradiction.
    - injection Hj as <-. vm_compute. reflexivity.
    - destruct j; discriminate. }
  assert (H4 : forall k o, nth_error pillar k = Some o ->
      (Vector3.distanceTo (position (robot_at (V 0 0.4 0) (V 0.1 0 0)))
                          (obstacle_position o) <? lit 4.0)%num = false).
  { intros k o Hk. destruct k as [|k].
    - injection Hk as <-. vm_compute. reflexivity.
    - destruct k; discriminate. }
  split; [split; [exact H3|split; [exact H8|exact H4]]|].
  exact (@out_of_range_no_force Float64.number 0
           (robot_at (V 0 0.4 0) (V 0.1 0 0)) apart pillar H3 H8 H4).
Defined.

Lemma NaN_is_permanent_witness :
  (nth_error vanished 0 = Some gone /\ lost gone /\ wild gone) /\
  exists r' : Robot,
    nth_error (fst (update_robots origin [] vanished halves)) 0 = Some r' /\
    (lost gone -> lost r') /\
    (wild gone -> wild r' /\ lost r').
Proof.
  assert (H : nth_error vanished 0 = Some gone) by reflexivity.
  split; [split; [exact H|split; left; vm_compute; reflexivity]|].
  exact (@NaN_is_permanent origin [] vanished halves 0 gone H).
Defined.

Lemma place_obstacles_adds_count_witness :
  place_obstacles 8 [] sixteenths = Some (eight_placed, drawn sixteenths 24) /\
  exists new : list Obstacle,
    eight_placed = [] ++ new /\ List.length new = 8 /\ Forall stands new /\
    (forall k, k < 8 ->
       exists o : Obstacle,
         nth_error new k = Some o /\ placed_in_round sixteenths k o) /\
    drawn sixteenths 24 = drawn sixteenths (3 * 8).
Proof.
  assert (H : place_obstacles 8 [] sixteenths =
              Some (eight_placed, drawn sixteenths 24))
    by (vm_compute; reflexivity).
  split; [exact H|].
  exact (@place_obstacles_adds_count Float64.number 8 [] eight_placed sixteenths
           (drawn sixteenths 24) H).
Defined.

Lemma trail_fills_then_stalls_on_binary64_witness :
  List.length (map position (pair ++ apart ++ vanished)) <= 188 /\
  List.length
    (particles (fst (Trail_updates
                       (every_frame (map position (pair ++ apart ++ vanished)))
                       (ParticleTrail_new (V 0 0.4 0)) halves)))
  = filled (List.length (map position (pair ++ apart ++ vanished))).
Proof.
  assert (H : List.length (map position (pair ++ apart ++ vanished)) <= 188)
    by (cbn [pair apart vanished app map List.length]; lia).
  split; [exact H|].
  exact (@trail_fills_then_stalls_on_binary64
           (map position (pair ++ apart ++ vanished)) (V 0 0.4 0) halves H).
Defined.

Lemma forces_bounded_up_to_rounding_witness :
  limit_in_range (maxForce (robot_at (V 0 0.4 0) (V 0.1 0 0))) /\
  Forall (fun force =>
            has_NaN force \/
            length_within (maxForce (robot_at (V 0 0.4 0) (V 0.1 0 0))) force)
    [ seek (robot_at (V 0 0.4 0) (V 0.1 0 0)) origin;
      separate 0 (robot_at (V 0 0.4 0) (V 0.1 0 0)) pair;
      cohere 0 (robot_at (V 0 0.4 0) (V 0.1 0 0)) pair;
      align 0 (robot_at (V 0 0.4 0) (V 0.1 0 0)) pair;
      avoidObstacles (robot_at (V 0 0.4 0) (V 0.1 0 0)) pillar ].
Proof.
  assert (H : limit_in_range (maxForce (robot_at (V 0 0.4 0) (V 0.1 0 0))))
    by exact maxForce_in_range.
  split; [exact H|].
  exact (@forces_bounded_up_to_rounding origin pillar 0
           (robot_at (V 0 0.4 0) (V 0.1 0 0)) pair H).
Defined.

Lemma pulse_ends_unless_clicked_again_witness :
  pulses (at_rest (lit 1)) = 0 /\
  ((forall j, j < 44 ->
      pulses (frames_marker j (click_marker (at_rest (lit 1)))) = 1) /\
   (exists s : float,
      (forall k,
          frames_marker (44 + k) (click_marker (at_rest (lit 1))) = at_rest s) /\
      PrimFloat.ltb (lit 0.099) s = true /\ PrimFloat.leb s (lit 0.1) = true) /\
   (forall j, j < 44 ->
      let again :=
        click_marker (frames_marker j (click_marker (at_rest (lit 1)))) in
      pulses again = 2 /\
      pulses (frames_marker 22 again) = 1 /\
      exists s : float,
        (forall k, frames_marker (23 + k) again = at_rest s) /\
        PrimFloat.ltb s (lit 0.099) = true)).
Proof.
  assert (H : pulses (at_rest (@lit Float64.number 1)) = 0) by reflexivity.
  split; [exact H|].
  exact (@pulse_ends_unless_clicked_again (at_rest (lit 1)) H).
Defined.

End OnThePair.

